(** * Apache-Scraper: the pagination / retry / resume core and the document
      transformer, embedded from the Python sources

    Definitions, one module per source file:
    - [Jira]       src/scraper/jira_client.py  (JiraScraper._request and the
                   two paginating generators)
    - [Checkpoint] src/scraper/checkpoint.py   (the JSON checkpoint file)
    - [CheckpointJson] src/scraper/checkpoint.py (the readers over any JSON
                   value, with the exceptions Python raises)
    - [Cli]        src/scraper/cli.py          (the per-project scraping loop)
    - [Locking]    src/scraper/checkpoint.py   (the module lock, threads
                   interleaved at the granularity of file reads and writes)
    - [Transform]  src/scraper/transform.py    (plain text extraction and the
                   short summary)

    Properties: [JiraProps] (retry loop), [CheckpointProps] and
    [CheckpointJsonProps] (the checkpoint file, unreadable or malformed),
    [CliProps] (page checkpoint, monotonicity), [LockingProps] (what the
    lock covers), [TransformProps] (short summary, white space rules),
    [CapProps] (the cap of 0), and the modules named [...Extra].

    Conventions.  Python [int] is [Z].  Durations and instants, which are
    floats in Python, are exact rationals ([Q]); rounding is not modelled.
    [time.sleep] raises for the durations it does not take, and so does
    [int] for a string of too many digits: such an exception leaves
    [_request] as it is.  A document text is the list of its code points;
    keys, project names and header values are ASCII strings.  In
    [Checkpoint] the checkpoint document has the shape the module itself
    writes; [CheckpointJson] reads any JSON value.  A [while True] loop is
    a [Fixpoint] on a fuel argument, with one more outcome for running out
    of fuel, and each loop that the code bounds comes with a lemma that
    names the fuel that is enough. *)

From Stdlib Require Import ZArith QArith Qminmax Lia Lqa List String Ascii.
From stdpp Require Import base option list strings pretty gmap.

Local Open Scope Z_scope.

(** ** src/scraper/jira_client.py *)
Module Jira.

(** The messages of [JiraClientError], one constructor per [raise] site.
    ([raise JiraClientError("No response received")] is unreachable: [resp]
    is [None] only inside the [except] branch, which never falls through.) *)
Inductive JiraClientError : Type :=
  | NetworkError (e : string)            (* f"Network error: {e}" *)
  | InvalidJSON                          (* f"Invalid JSON response: {e}" *)
  | HTTPStatus (code : Z) (text : string) (* f"HTTP {resp.status_code}: {resp.text}" *)
  | MaxRetriesExceeded.                  (* f"Max retries exceeded for {url}" *)

(** The exceptions of the standard library that the code does not catch:
    they leave [_request] as they are. *)
Inductive BuiltinError : Type :=
  | ValueError      (* time.sleep of a negative duration; int of too long a string *)
  | OverflowError.  (* time.sleep of a duration beyond the range of the clock *)

(** What a call can end with.  [OutOfFuel] is not a Python outcome: it marks
    a loop cut short by the fuel of the model. *)
Inductive result (A : Type) : Type :=
  | Return (a : A)
  | Raise (e : JiraClientError)
  | RaiseBuiltin (e : BuiltinError)
  | OutOfFuel.
Arguments Return {A} a.
Arguments Raise {A} e.
Arguments RaiseBuiltin {A} e.
Arguments OutOfFuel {A}.

(** One issue of a search page: its ["key"] member ([None] when absent or
    null) and the rest of the JSON object, kept as written. *)
Record issue : Type := Issue { issue_key : option string; issue_rest : string }.

(** The body of a search response, as far as the generators look at it:
    [data.get("issues", [])] and [data.get("total", total)]. *)
Record search_body : Type := SearchBody {
  body_issues : list issue;        (* [] when the member is absent *)
  body_total : option (option Z)   (* None: absent; Some None: null *)
}.

(** The parameters of one GET. *)
Record request : Type := Request {
  req_url : string;
  req_project : string;
  req_startAt : Z;
  req_maxResults : Z
}.

(** An [httpx] response: status, the [Retry-After] header (an ASCII field
    value, [None] when the header is absent), [resp.json()] ([None] when it
    raises) and [resp.text]. *)
Record response : Type := Response {
  status_code : Z;
  retry_after : option string;
  json : option search_body;
  text : string
}.

Inductive get_outcome : Type :=
  | RequestError (e : string)   (* client.get raised httpx.RequestError *)
  | Got (resp : response).

(** Everything outside the program: the transport (the outcome of the n-th
    call of [client.get]), the random source (the n-th value of
    [random.random()], in [0,1)), the clock (the n-th reading of
    [datetime.now], in seconds) and the date parser of the standard library
    ([None] when it raises). *)
Record env : Type := Env {
  client_get : nat -> request -> get_outcome;
  random : nat -> Q;
  now : nat -> Q;
  parsedate_to_datetime : string -> option Q
}.

Inductive event : Type :=
  | EvGet (rq : request)
  | EvSleep (seconds : Q).

(** The state threaded through a call: how many times each oracle was
    consulted, and the log of GETs and sleeps, oldest first. *)
Record world : Type := World {
  gets : nat;
  draws : nat;
  clock_reads : nat;
  log : list event
}.

Definition world0 : world := World 0 0 0 [].

Record JiraScraper : Type := Scraper {
  timeout : Z;
  max_retries : Z;
  backoff_factor : Z
}.

Definition get (E : env) (rq : request) (w : world) : get_outcome * world :=
  (client_get E (gets w) rq,
   World (S (gets w)) (draws w) (clock_reads w) (log w ++ [EvGet rq])).

(** [random.uniform(a, b)] is [a + (b - a) * random.random()]. *)
Definition uniform (E : env) (a b : Q) (w : world) : Q * world :=
  ((a + (b - a) * random E (draws w))%Q,
   World (gets w) (S (draws w)) (clock_reads w) (log w)).

Definition datetime_now (E : env) (w : world) : Q * world :=
  (now E (clock_reads w),
   World (gets w) (draws w) (S (clock_reads w)) (log w)).

(** [time.sleep(seconds)].  CPython turns the duration into a signed 64-bit
    count of nanoseconds, rounding away from zero, and raises [OverflowError]
    when the count does not fit; then it raises [ValueError] when the
    duration is negative.  ([int + float] of an [int] beyond the range of
    floats raises [OverflowError] as well, before [time.sleep] is reached.) *)
Definition SLEEP_MAX : Q := 9223372036854775807 # 1000000000.    (* (2^63 - 1) ns *)
Definition SLEEP_MIN : Q := (-9223372036854775808) # 1000000000. (* -2^63 ns *)

Definition sleep_raises (seconds : Q) : option BuiltinError :=
  if negb (Qle_bool SLEEP_MIN seconds) || negb (Qle_bool seconds SLEEP_MAX)
  then Some OverflowError
  else if negb (Qle_bool 0 seconds) then Some ValueError
  else None.

Definition sleep (seconds : Q) (w : world) : option BuiltinError * world :=
  match sleep_raises seconds with
  | Some e => (Some e, w)
  | None => (None, World (gets w) (draws w) (clock_reads w) (log w ++ [EvSleep seconds]))
  end.

(** [str.isdigit] and [int] on an ASCII string.  [int] raises [ValueError]
    for a string of more than 4300 digits
    ([sys.int_info.default_max_str_digits]); see [retry_after_wait]. *)
Definition is_digit (c : ascii) : bool :=
  (48 <=? nat_of_ascii c)%nat && (nat_of_ascii c <=? 57)%nat.

Fixpoint all_digits (s : string) : bool :=
  match s with
  | EmptyString => true
  | String c s' => is_digit c && all_digits s'
  end.

Definition isdigit (s : string) : bool :=
  match s with
  | EmptyString => false
  | _ => all_digits s
  end.

Fixpoint int_acc (acc : Z) (s : string) : Z :=
  match s with
  | EmptyString => acc
  | String c s' => int_acc (10 * acc + (Z.of_nat (nat_of_ascii c) - 48)) s'
  end.

Definition int (s : string) : Z := int_acc 0 s.

Definition MAX_STR_DIGITS : nat := 4300.

(** [min(self.backoff_factor ** attempt, 60)] *)
Definition backoff (self : JiraScraper) (attempt : Z) : Z :=
  Z.min (backoff_factor self ^ attempt) 60.

(** The jitter bound [1 + 0.1 * attempt]. *)
Definition jitter_bound (attempt : Z) : Q := (1 + (1 # 10) * inject_Z attempt)%Q.

(** Lines 63-73: the wait a 429 asks for through [Retry-After], [inr None]
    when the header is missing, empty, or neither digits nor a date; [inl]
    when [int(retry_after)], which no [try] covers, raises. *)
Definition retry_after_wait (E : env) (resp : response) (w : world)
  : (BuiltinError + option Q) * world :=
  match retry_after resp with
  | None => (inr None, w)
  | Some EmptyString => (inr None, w)
  | Some ra =>
      if isdigit ra then
        if (MAX_STR_DIGITS <? String.length ra)%nat then (inl ValueError, w)
        else (inr (Some (inject_Z (int ra))), w)
      else match parsedate_to_datetime E ra with
           | Some dt =>
               let '(t, w) := datetime_now E w in
               (inr (Some (Qmax 0 (dt - t))), w)
           | None => (inr None, w)
           end
  end.

(** Lines 61-82: [inr (Some wait_seconds)], or [inr None] for the status
    codes that are not retried. *)
Definition wait_for (E : env) (self : JiraScraper) (attempt : Z) (resp : response)
    (w : world) : (BuiltinError + option Q) * world :=
  if status_code resp =? 429 then
    let '(hint, w) := retry_after_wait E resp w in
    match hint with
    | inl e => (inl e, w)
    | inr (Some s) => (inr (Some s), w)
    | inr None => (inr (Some (inject_Z (backoff self attempt))), w)
    end
  else if (500 <=? status_code resp) && (status_code resp <? 600) then
    (inr (Some (inject_Z (backoff self attempt))), w)
  else (inr None, w).

(** [JiraScraper._request]: the body of [while True], [attempt] being the
    value of the counter on entry of the iteration. *)
Fixpoint _request_loop (E : env) (self : JiraScraper) (rq : request)
    (fuel : nat) (attempt : Z) (w : world) : result search_body * world :=
  match fuel with
  | O => (OutOfFuel, w)
  | S fuel =>
      let attempt := attempt + 1 in
      let '(out, w) := get E rq w in
      match out with
      | RequestError e =>
          let wait_seconds := backoff self attempt in
          let '(jitter, w) := uniform E 0 (jitter_bound attempt) w in
          match sleep (inject_Z wait_seconds + jitter) w with
          | (Some err, w) => (RaiseBuiltin err, w)
          | (None, w) =>
              if max_retries self <=? attempt then (Raise (NetworkError e), w)
              else _request_loop E self rq fuel attempt w
          end
      | Got resp =>
          if status_code resp =? 200 then
            match json resp with
            | Some data => (Return data, w)
            | None => (Raise InvalidJSON, w)
            end
          else
            let '(wait_seconds, w) := wait_for E self attempt resp w in
            match wait_seconds with
            | inl err => (RaiseBuiltin err, w)
            | inr None => (Raise (HTTPStatus (status_code resp) (text resp)), w)
            | inr (Some wait_seconds) =>
                let '(jitter, w) := uniform E 0 (jitter_bound attempt) w in
                let sleep_for := (wait_seconds + jitter)%Q in
                match sleep sleep_for w with
                | (Some err, w) => (RaiseBuiltin err, w)
                | (None, w) =>
                    if max_retries self <=? attempt then (Raise MaxRetriesExceeded, w)
                    else _request_loop E self rq fuel attempt w
                end
            end
      end
  end.

(** The loop leaves through a [return] or a [raise] within
    [max(1, max_retries)] iterations; that much fuel is what [_request]
    runs it with (see [_request_loop_fuel]). *)
Definition request_fuel (self : JiraScraper) : nat := Z.to_nat (Z.max 1 (max_retries self)).

Definition _request (E : env) (self : JiraScraper) (rq : request) (w : world)
  : result search_body * world :=
  _request_loop E self rq (request_fuel self) 0 w.

Definition JIRA_API_BASE : string := "https://issues.apache.org/jira/rest/api/2".

Definition search_url : string := JIRA_API_BASE +:+ "/search".

(** [len(issues)] *)
Definition len {A : Type} (l : list A) : Z := Z.of_nat (length l).

(** [max_issues and fetched >= max_issues]: [None] and [0] are both falsy. *)
Definition cap_reached (max_issues : option Z) (fetched : Z) : bool :=
  match max_issues with
  | None => false
  | Some m => negb (m =? 0) && (m <=? fetched)
  end.

(** [total is not None and offset >= total] *)
Definition past_total (total : option Z) (offset : Z) : bool :=
  match total with
  | None => false
  | Some t => t <=? offset
  end.

(** [data.get("total", total)] *)
Definition get_total (data : search_body) (total : option Z) : option Z :=
  match body_total data with
  | None => total
  | Some t => t
  end.

(** *** [fetch_issue_pages_for_project]

    A generator is its frame: the locals and the point where it is suspended.
    [pages_next] is one [next()] on it: [Return (Some page)] for a [yield],
    [Return None] for [StopIteration]. *)
Record page : Type := Page {
  page_issues : list issue;
  page_start : Z;
  page_total : option Z
}.

Inductive pages_pc : Type :=
  | PagesStart                           (* not started *)
  | PagesYielded (issues : list issue)   (* suspended at [yield issues, current, total] *)
  | PagesDone.                           (* returned or raised *)

Record pages_gen : Type := PagesGen {
  pg_project : string;
  pg_page_size : Z;
  pg_max_issues : option Z;
  pg_total : option Z;
  pg_fetched : Z;
  pg_current : Z;
  pg_pc : pages_pc
}.

Definition fetch_issue_pages_for_project (project_key : string) (page_size : Z)
    (max_issues : option Z) (start_at : Z) : pages_gen :=
  PagesGen project_key page_size max_issues None 0 start_at PagesStart.

Definition pages_set (g : pages_gen) (total : option Z) (fetched current : Z)
    (pc : pages_pc) : pages_gen :=
  PagesGen (pg_project g) (pg_page_size g) (pg_max_issues g) total fetched current pc.

(** From the top of [while True] to the [yield] (lines 139-154). *)
Definition pages_fetch (E : env) (self : JiraScraper) (g : pages_gen) (w : world)
  : result (option page) * pages_gen * world :=
  let rq := Request search_url (pg_project g) (pg_current g) (pg_page_size g) in
  let '(r, w) := _request E self rq w in
  match r with
  | Return data =>
      let issues := body_issues data in
      let total := get_total data (pg_total g) in
      match issues with
      | [] => (Return None, pages_set g total (pg_fetched g) (pg_current g) PagesDone, w)
      | _ => (Return (Some (Page issues (pg_current g) total)),
              pages_set g total (pg_fetched g) (pg_current g) (PagesYielded issues), w)
      end
  | Raise e => (Raise e, pages_set g (pg_total g) (pg_fetched g) (pg_current g) PagesDone, w)
  | RaiseBuiltin e =>
      (RaiseBuiltin e, pages_set g (pg_total g) (pg_fetched g) (pg_current g) PagesDone, w)
  | OutOfFuel => (OutOfFuel, g, w)
  end.

Definition pages_next (E : env) (self : JiraScraper) (g : pages_gen) (w : world)
  : result (option page) * pages_gen * world :=
  match pg_pc g with
  | PagesStart => pages_fetch E self g w
  | PagesYielded issues =>
      let fetched := pg_fetched g + len issues in
      if cap_reached (pg_max_issues g) fetched then
        (Return None, pages_set g (pg_total g) fetched (pg_current g) PagesDone, w)
      else
        let current := pg_current g + len issues in
        if past_total (pg_total g) current then
          (Return None, pages_set g (pg_total g) fetched current PagesDone, w)
        else pages_fetch E self (pages_set g (pg_total g) fetched current (pg_pc g)) w
  | PagesDone => (Return None, g, w)
  end.

(** [list(gen)], cut after [fuel] calls of [next()]: what was yielded and
    how the iteration ended. *)
Fixpoint pages_list (E : env) (self : JiraScraper) (fuel : nat) (g : pages_gen)
    (w : world) : list page * result unit * world :=
  match fuel with
  | O => ([], OutOfFuel, w)
  | S fuel =>
      match pages_next E self g w with
      | (Return (Some p), g, w) =>
          let '(ps, r, w) := pages_list E self fuel g w in (p :: ps, r, w)
      | (Return None, _, w) => ([], Return tt, w)
      | (Raise e, _, w) => ([], Raise e, w)
      | (RaiseBuiltin e, _, w) => ([], RaiseBuiltin e, w)
      | (OutOfFuel, _, w) => ([], OutOfFuel, w)
      end
  end.

(** *** [fetch_issues_for_project] *)
Inductive issues_pc : Type :=
  | IssuesStart
  | IssuesYielded (issues rest : list issue)
      (* suspended at [yield issue]; [rest] is what the [for] has left *)
  | IssuesDone.

Record issues_gen : Type := IssuesGen {
  ig_project : string;
  ig_page_size : Z;
  ig_max_issues : option Z;
  ig_total : option Z;
  ig_fetched : Z;
  ig_start_at : Z;
  ig_pc : issues_pc
}.

Definition fetch_issues_for_project (project_key : string) (page_size : Z)
    (max_issues : option Z) : issues_gen :=
  IssuesGen project_key page_size max_issues None 0 0 IssuesStart.

Definition issues_set (g : issues_gen) (total : option Z) (fetched start_at : Z)
    (pc : issues_pc) : issues_gen :=
  IssuesGen (ig_project g) (ig_page_size g) (ig_max_issues g) total fetched start_at pc.

(** From the top of [while True] to the first [yield] of the page
    (lines 103-118). *)
Definition issues_fetch (E : env) (self : JiraScraper) (g : issues_gen) (w : world)
  : result (option issue) * issues_gen * world :=
  let rq := Request search_url (ig_project g) (ig_start_at g) (ig_page_size g) in
  let '(r, w) := _request E self rq w in
  match r with
  | Return data =>
      let issues := body_issues data in
      let total := get_total data (ig_total g) in
      match issues with
      | [] => (Return None, issues_set g total (ig_fetched g) (ig_start_at g) IssuesDone, w)
      | i :: rest =>
          (Return (Some i),
           issues_set g total (ig_fetched g) (ig_start_at g) (IssuesYielded issues rest), w)
      end
  | Raise e => (Raise e, issues_set g (ig_total g) (ig_fetched g) (ig_start_at g) IssuesDone, w)
  | RaiseBuiltin e =>
      (RaiseBuiltin e, issues_set g (ig_total g) (ig_fetched g) (ig_start_at g) IssuesDone, w)
  | OutOfFuel => (OutOfFuel, g, w)
  end.

Definition issues_next (E : env) (self : JiraScraper) (g : issues_gen) (w : world)
  : result (option issue) * issues_gen * world :=
  match ig_pc g with
  | IssuesStart => issues_fetch E self g w
  | IssuesYielded issues rest =>
      let fetched := ig_fetched g + 1 in
      if cap_reached (ig_max_issues g) fetched then
        (Return None, issues_set g (ig_total g) fetched (ig_start_at g) IssuesDone, w)
      else
        match rest with
        | i :: rest =>
            (Return (Some i),
             issues_set g (ig_total g) fetched (ig_start_at g) (IssuesYielded issues rest), w)
        | [] =>
            let start_at := ig_start_at g + len issues in
            if past_total (ig_total g) start_at then
              (Return None, issues_set g (ig_total g) fetched start_at IssuesDone, w)
            else issues_fetch E self (issues_set g (ig_total g) fetched start_at (ig_pc g)) w
        end
  | IssuesDone => (Return None, g, w)
  end.

Fixpoint issues_list (E : env) (self : JiraScraper) (fuel : nat) (g : issues_gen)
    (w : world) : list issue * result unit * world :=
  match fuel with
  | O => ([], OutOfFuel, w)
  | S fuel =>
      match issues_next E self g w with
      | (Return (Some i), g, w) =>
          let '(tl, r, w) := issues_list E self fuel g w in (i :: tl, r, w)
      | (Return None, _, w) => ([], Return tt, w)
      | (Raise e, _, w) => ([], Raise e, w)
      | (RaiseBuiltin e, _, w) => ([], RaiseBuiltin e, w)
      | (OutOfFuel, _, w) => ([], OutOfFuel, w)
      end
  end.

End Jira.

(** ** src/scraper/checkpoint.py *)
Module Checkpoint.

(** The document the module keeps in [checkpoint.json]:
    [{"projects": {<project>: {"downloaded_keys": [...], "last_start": n}}}],
    every member optional, as [setdefault] and [get] with a default allow. *)
Record project_entry : Type := ProjectEntry {
  downloaded_keys : option (list string);
  last_start : option Z
}.

Record checkpoint : Type := Checkpoint {
  projects : option (gmap string project_entry)
}.

(** The file behind [path]: absent, present but failing [open] or
    [json.load], or holding a document of the shape above.  (A file that
    parses to another JSON value is the business of [CheckpointJson], where
    the readers are embedded over any value; on the documents of this shape
    they agree with the readers here, see [readers_agree].) *)
Inductive file : Type :=
  | Missing
  | Corrupt
  | Holds (data : checkpoint).

(** [{"projects": {}}] *)
Definition empty_checkpoint : checkpoint := Checkpoint (Some ∅).

(** [{}], the default of [projects.get(project, {})] and
    [projects.setdefault(project, {})]. *)
Definition empty_entry : project_entry := ProjectEntry None None.

Definition load_checkpoint (f : file) : checkpoint :=
  match f with
  | Missing => empty_checkpoint
  | Corrupt => empty_checkpoint
  | Holds data => data
  end.

(** [p.write_text(json.dumps(data))]; the lock around it is the business of
    [Locking]. *)
Definition save_checkpoint (data : checkpoint) (f : file) : file := Holds data.

(** [data.get("projects", {}).get(project, {})] *)
Definition get_project (data : checkpoint) (project : string) : project_entry :=
  default empty_entry (default ∅ (projects data) !! project).

Definition is_downloaded (project issue_key : string) (f : file) : bool :=
  let data := load_checkpoint f in
  let proj := get_project data project in
  let keys := default [] (downloaded_keys proj) in
  bool_decide (issue_key ∈ keys).

(** The in-memory part of [mark_downloaded]: three [setdefault]s and the
    guarded [append]. *)
Definition mark_downloaded_in (project issue_key : string) (data : checkpoint)
  : checkpoint :=
  let projects := default ∅ (projects data) in
  let proj := default empty_entry (projects !! project) in
  let keys := default [] (downloaded_keys proj) in
  let keys := if bool_decide (issue_key ∈ keys) then keys else keys ++ [issue_key] in
  Checkpoint (Some (<[project := ProjectEntry (Some keys) (last_start proj)]> projects)).

Definition mark_downloaded (project issue_key : string) (f : file) : file :=
  let data := load_checkpoint f in
  save_checkpoint (mark_downloaded_in project issue_key data) f.

Definition get_last_start (project : string) (f : file) : Z :=
  let data := load_checkpoint f in
  let proj := get_project data project in
  default 0 (last_start proj).

(** The in-memory part of [set_last_start]. *)
Definition set_last_start_in (project : string) (start_at : Z) (data : checkpoint)
  : checkpoint :=
  let projects := default ∅ (projects data) in
  let proj := default empty_entry (projects !! project) in
  Checkpoint (Some (<[project := ProjectEntry (downloaded_keys proj) (Some start_at)]> projects)).

Definition set_last_start (project : string) (start_at : Z) (f : file) : file :=
  let data := load_checkpoint f in
  save_checkpoint (set_last_start_in project start_at data) f.

(** The keys recorded for a project, as [is_downloaded] reads them. *)
Definition keys_of (project : string) (f : file) : list string :=
  default [] (downloaded_keys (get_project (load_checkpoint f) project)).

End Checkpoint.

(** ** src/scraper/checkpoint.py, read at the level of the JSON document

    [Checkpoint] above keeps the document in the shape the module itself
    writes.  [json.load] returns whatever the file holds: here the readers
    are embedded over an arbitrary JSON value, with the exceptions that
    Python raises when the value is not of that shape. *)
Module CheckpointJson.

Inductive error : Type :=
  | AttributeError   (* .get of a value that is not a dict *)
  | TypeError        (* [x in v] or [int(v)] for a [v] that does not allow it *)
  | ValueError       (* [int] of a string that is no numeral, or of nan *)
  | OverflowError.   (* [int] of an infinite float *)

Inductive result (A : Type) : Type :=
  | Ok (a : A)
  | Raises (e : error).
Arguments Ok {A} a.
Arguments Raises {A} e.

#[export] Instance result_bind : MBind result :=
  λ A B k r, match r with Ok a => k a | Raises e => Raises e end.

(** What [json.load] returns: [None], [bool], [int], [float] (with the
    [NaN] and [Infinity] literals the parser takes), [str], [list], [dict]. *)
#[warnings="-register-all"] Inductive value : Type :=
  | VNull
  | VBool (b : bool)
  | VInt (n : Z)
  | VFloat (x : Q)
  | VNaN
  | VInfinity (negative : bool)
  | VStr (s : string)
  | VList (l : list value)
  | VDict (members : gmap string value).

(** The file behind [path]: absent; present but failing [open] or
    [json.load]; or parsed, to any JSON value. *)
Inductive file : Type :=
  | Missing
  | Unreadable
  | Parsed (v : value).

(** [{"projects": {}}] *)
Definition EMPTY : value := VDict {["projects" := VDict ∅]}.

Definition load_checkpoint (f : file) : value :=
  match f with
  | Missing => EMPTY
  | Unreadable => EMPTY
  | Parsed v => v
  end.

(** [d.get(key, default)]: only a dict has the method. *)
Definition get (d : value) (key : string) (dflt : value) : result value :=
  match d with
  | VDict members => Ok (default dflt (members !! key))
  | _ => Raises AttributeError
  end.

(** [x in v] for a string [x]: an element equal to [x] in a list, a key in
    a dict, a substring in a string; [TypeError] for a value that is not a
    container. *)
Definition contains (v : value) (x : string) : result bool :=
  match v with
  | VList l =>
      Ok (existsb (λ e, match e with VStr s => bool_decide (s = x) | _ => false end) l)
  | VDict members => Ok (bool_decide (is_Some (members !! x)))
  | VStr s => Ok (bool_decide (is_Some (String.index 0 x s)))
  | _ => Raises TypeError
  end.

(** [int(v)].  A float is truncated towards zero.  For a string the
    numeral syntax of Python is left to [int_of_str], [None] when [int]
    raises [ValueError]. *)
Definition int (int_of_str : string → option Z) (v : value) : result Z :=
  match v with
  | VInt n => Ok n
  | VBool b => Ok (if b then 1 else 0)
  | VFloat x => Ok (Z.quot (Qnum x) (Z.pos (Qden x)))
  | VNaN => Raises ValueError
  | VInfinity _ => Raises OverflowError
  | VStr s => match int_of_str s with
              | Some n => Ok n
              | None => Raises ValueError
              end
  | VNull | VList _ | VDict _ => Raises TypeError
  end.

Definition is_downloaded (project issue_key : string) (f : file) : result bool :=
  let data := load_checkpoint f in
  projects ← get data "projects" (VDict ∅);
  proj ← get projects project (VDict ∅);
  keys ← get proj "downloaded_keys" (VList []);
  contains keys issue_key.

Definition get_last_start (int_of_str : string → option Z) (project : string) (f : file)
  : result Z :=
  let data := load_checkpoint f in
  projects ← get data "projects" (VDict ∅);
  proj ← get projects project (VDict ∅);
  last_start ← get proj "last_start" (VInt 0);
  int int_of_str last_start.

(** The document of [Checkpoint] as JSON: the members that are there, with
    the types the module gives them. *)
Definition encode_entry (e : Checkpoint.project_entry) : value :=
  VDict (from_option (λ keys, {["downloaded_keys" := VList (VStr <$> keys)]}) ∅
           (Checkpoint.downloaded_keys e)
         ∪ from_option (λ n, {["last_start" := VInt n]}) ∅ (Checkpoint.last_start e)).

Definition encode (data : Checkpoint.checkpoint) : value :=
  VDict (from_option (λ m, {["projects" := VDict (encode_entry <$> m)]}) ∅
           (Checkpoint.projects data)).

Definition encode_file (f : Checkpoint.file) : file :=
  match f with
  | Checkpoint.Missing => Missing
  | Checkpoint.Corrupt => Unreadable
  | Checkpoint.Holds data => Parsed (encode data)
  end.

End CheckpointJson.

(** ** src/scraper/cli.py: the scraping loop of [main] for one project *)
Module Cli.
Import Jira Checkpoint.

(** The raw directory of the project: the file [<key>.json] under [key]. *)
Record env : Type := Env {
  jira : Jira.env;
  write_ok : nat -> string -> bool
    (* whether the n-th [open]/[json.dump] of [save_raw_issue] goes through *)
}.

Record config : Type := Config {
  page_size : Z;
  max_issues : option Z;
  scraper : JiraScraper
}.

(** Where the loop stands. *)
Inductive pc : Type :=
  | Fetching                  (* the [for] asks the generator for a page *)
  | Processing (issues : list issue) (page_start : Z) (rest : list issue)
      (* inside [for issue in issues], [rest] still to come *)
  | Finished                  (* the generator is exhausted *)
  | Aborted (e : JiraClientError)   (* [except Exception as e] *)
  | Crashed (e : BuiltinError)      (* [except Exception as e], for a built-in error *)
  | Starved.                  (* the model ran out of fuel inside a call *)

Record state : Type := State {
  st_gen : pages_gen;
  st_world : world;
  st_checkpoint : file;
  st_raw : gmap string issue;
  st_writes : nat;
  st_count : Z;
  st_pc : pc
}.

(** Python truthiness of [issue.get("key")]. *)
Definition truthy (key : option string) : bool :=
  match key with
  | None => false
  | Some EmptyString => false
  | Some _ => true
  end.

(** [JiraScraper.save_raw_issue]: nothing without a key; a failed write
    leaves no file at the path. *)
Definition save_raw_issue (E : env) (i : issue) (raw : gmap string issue) (writes : nat)
  : gmap string issue * nat :=
  match issue_key i with
  | None => (raw, writes)
  | Some EmptyString => (raw, writes)
  | Some key =>
      if write_ok E writes key then (<[key := i]> raw, S writes)
      else (delete key raw, S writes)
  end.

(** Lines 45-53: the state in which the [for] over the pages starts. *)
Definition start (C : config) (project : string) (f : file) (raw : gmap string issue)
    (w : world) : state :=
  let last_start := get_last_start project f in
  State (fetch_issue_pages_for_project project (page_size C) (max_issues C) last_start)
        w f raw 0 0 Fetching.

(** One issue of the inner [for] (lines 58-64). *)
Definition process_issue (E : env) (project : string) (i : issue) (s : state)
  : file * gmap string issue * nat * Z :=
  let key := issue_key i in
  if truthy key && is_downloaded project (default EmptyString key) (st_checkpoint s) then
    (st_checkpoint s, st_raw s, st_writes s, st_count s)
  else
    let '(raw, writes) := save_raw_issue E i (st_raw s) (st_writes s) in
    let f := if truthy key
             then mark_downloaded project (default EmptyString key) (st_checkpoint s)
             else st_checkpoint s in
    (f, raw, writes, st_count s + 1).

Definition step (E : env) (C : config) (project : string) (s : state) : state :=
  match st_pc s with
  | Fetching =>
      match pages_next (jira E) (scraper C) (st_gen s) (st_world s) with
      | (Return (Some p), g, w) =>
          State g w (st_checkpoint s) (st_raw s) (st_writes s) (st_count s)
                (Processing (page_issues p) (page_start p) (page_issues p))
      | (Return None, g, w) =>
          State g w (st_checkpoint s) (st_raw s) (st_writes s) (st_count s) Finished
      | (Raise e, g, w) =>
          State g w (st_checkpoint s) (st_raw s) (st_writes s) (st_count s) (Aborted e)
      | (RaiseBuiltin e, g, w) =>
          State g w (st_checkpoint s) (st_raw s) (st_writes s) (st_count s) (Crashed e)
      | (OutOfFuel, g, w) =>
          State g w (st_checkpoint s) (st_raw s) (st_writes s) (st_count s) Starved
      end
  | Processing issues page_start (i :: rest) =>
      let '(f, raw, writes, count) := process_issue E project i s in
      State (st_gen s) (st_world s) f raw writes count (Processing issues page_start rest)
  | Processing issues page_start [] =>
      (* after finishing the page, persist the page checkpoint *)
      State (st_gen s) (st_world s)
            (set_last_start project (page_start + len issues) (st_checkpoint s))
            (st_raw s) (st_writes s) (st_count s) Fetching
  | Finished | Aborted _ | Crashed _ | Starved => s
  end.

(** [n] steps of the loop. *)
Fixpoint run (E : env) (C : config) (project : string) (n : nat) (s : state) : state :=
  match n with
  | O => s
  | S n => run E C project n (step E C project s)
  end.

(** The whole of one page, from the state in which the generator has just
    yielded it: its issues in order, then the page checkpoint. *)
Definition process_page (E : env) (C : config) (project : string) (s : state) : state :=
  match st_pc s with
  | Processing issues page_start rest => run E C project (S (length rest)) s
  | _ => s
  end.

End Cli.

(** ** src/scraper/checkpoint.py under threads

    [_LOCK] is taken by [save_checkpoint] alone, around [p.write_text].  A
    mutating call is therefore four steps that other threads can come
    between: read the file and mutate the copy, acquire, write, release. *)
Module Locking.
Import Checkpoint.

Inductive op : Type :=
  | MarkDownloaded (project issue_key : string)
  | SetLastStart (project : string) (start_at : Z).

Definition mutate (o : op) (data : checkpoint) : checkpoint :=
  match o with
  | MarkDownloaded project issue_key => mark_downloaded_in project issue_key data
  | SetLastStart project start_at => set_last_start_in project start_at data
  end.

(** Where a thread stands in its call. *)
Inductive thread : Type :=
  | Called (o : op)               (* before [load_checkpoint(path)] *)
  | Saving (data : checkpoint)    (* in [save_checkpoint], before [with _LOCK] *)
  | Holding (data : checkpoint)   (* inside [with _LOCK], before [write_text] *)
  | Written                       (* after [write_text], lock still held *)
  | Returned.

Record sys : Type := Sys {
  sys_file : file;
  sys_lock : option nat;          (* the thread that holds [_LOCK] *)
  sys_threads : list thread
}.

(** One step of thread [i]; [None] when it is blocked on the lock, has
    returned, or does not exist. *)
Definition tstep (i : nat) (s : sys) : option sys :=
  match sys_threads s !! i with
  | Some (Called o) =>
      Some (Sys (sys_file s) (sys_lock s)
                (<[i := Saving (mutate o (load_checkpoint (sys_file s)))]> (sys_threads s)))
  | Some (Saving data) =>
      match sys_lock s with
      | None => Some (Sys (sys_file s) (Some i) (<[i := Holding data]> (sys_threads s)))
      | Some _ => None
      end
  | Some (Holding data) =>
      Some (Sys (save_checkpoint data (sys_file s)) (sys_lock s)
                (<[i := Written]> (sys_threads s)))
  | Some Written =>
      Some (Sys (sys_file s) None (<[i := Returned]> (sys_threads s)))
  | Some Returned | None => None
  end.

(** A schedule names the thread that moves at each step. *)
Fixpoint exec (sched : list nat) (s : sys) : option sys :=
  match sched with
  | [] => Some s
  | i :: sched => match tstep i s with
                  | Some s' => exec sched s'
                  | None => None
                  end
  end.

(** The calls [ops] about to start, the lock free. *)
Definition init (f : file) (ops : list op) : sys := Sys f None (Called <$> ops).

Definition in_critical (t : thread) : bool :=
  match t with
  | Holding _ | Written => true
  | _ => false
  end.

(** Between its read and its write. *)
Definition mid_update (t : thread) : bool :=
  match t with
  | Saving _ | Holding _ => true
  | _ => false
  end.

(** The claim "the whole read-modify-write runs under the lock", as a
    property of one state. *)
Definition rmw_locked (s : sys) : Prop :=
  ∀ i t, sys_threads s !! i = Some t → mid_update t = true → sys_lock s = Some i.

(** What the lock does give: the lock is held by exactly the threads inside
    [with _LOCK], so by at most one. *)
Definition write_exclusive (s : sys) : Prop :=
  ∀ i t, sys_threads s !! i = Some t →
    (in_critical t = true ↔ sys_lock s = Some i).

End Locking.

(** ** src/scraper/transform.py *)
Module Transform.
Local Open Scope N_scope.

(** A Python [str] is its sequence of code points. *)
Abbreviation str := (list N).

(** An ASCII literal as a [str]. *)
Definition py (s : string) : str := N_of_ascii <$> list_ascii_of_string s.

Definition NL : N := 10.
Definition SPACE : N := 32.

(** [str.isspace] on one code point, which is also what [\s] matches and
    what [str.strip()] removes. *)
Definition isspace (c : N) : bool :=
  ((9 <=? c) && (c <=? 13)) || ((28 <=? c) && (c <=? 32)) || (c =? 133)
  || (c =? 160) || (c =? 5760) || ((8192 <=? c) && (c <=? 8202)) || (c =? 8232)
  || (c =? 8233) || (c =? 8239) || (c =? 8287) || (c =? 12288).

(** The line boundaries of [str.splitlines]. *)
Definition islinebreak (c : N) : bool :=
  ((10 <=? c) && (c <=? 13)) || ((28 <=? c) && (c <=? 30)) || (c =? 133)
  || (c =? 8232) || (c =? 8233).

Fixpoint lstrip (s : str) : str :=
  match s with
  | [] => []
  | c :: s' => if isspace c then lstrip s' else s
  end.

Definition rstrip (s : str) : str := reverse (lstrip (reverse s)).

Definition strip (s : str) : str := rstrip (lstrip s).

(** [str.splitlines()]: [line] is the line being read; a CR LF pair is one
    boundary; no empty last line. *)
Fixpoint splitlines_from (line : str) (s : str) : list str :=
  match s with
  | [] => match line with [] => [] | _ => [line] end
  | c :: s' =>
      if islinebreak c then
        line :: match c, s' with
                | 13, 10 :: s'' => splitlines_from [] s''
                | _, _ => splitlines_from [] s'
                end
      else splitlines_from (line ++ [c]) s'
  end.

Definition splitlines (s : str) : list str := splitlines_from [] s.

(** [s[:n]] *)
Definition slice_to (n : Z) (s : str) : str :=
  if (0 <=? n)%Z then take (Z.to_nat n) s
  else take (length s - Z.to_nat (- n))%nat s.

(** [s.rsplit(" ", 1)[0]]: what precedes the last space, all of [s] when it
    has none. *)
Fixpoint before_last_space (s : str) : option str :=
  match s with
  | [] => None
  | c :: s' =>
      match before_last_space s' with
      | Some p => Some (c :: p)
      | None => if c =? SPACE then Some [] else None
      end
  end.

Definition rsplit_space_head (s : str) : str := default s (before_last_space s).

(** [[p.strip() for p in text.splitlines() if p.strip()]] *)
Definition paragraphs_of (text : str) : list str :=
  filter (λ p, p ≠ []) (strip <$> splitlines text).

Definition extract_short_summary (text : str) (max_chars : Z) : str :=
  match text with
  | [] => []
  | _ =>
      match paragraphs_of text with
      | first :: _ =>
          if (Z.of_nat (length first) <=? max_chars)%Z then first
          else rsplit_space_head (slice_to max_chars first) ++ py "..."
      | [] => slice_to max_chars text
      end
  end.

(** The default of the [max_chars] parameter. *)
Definition MAX_CHARS : Z := 200.

(** A JSON value as [_walk] can tell them apart.  Numbers and booleans are
    only ever passed to [str()]; [JAtom] carries that rendering.  An object
    is the list of its members in order, keys distinct. *)
#[warnings="-register-all"] Inductive json : Type :=
  | JNull
  | JStr (s : str)
  | JList (l : list json)
  | JDict (members : list (str * json))
  | JAtom (repr : str).

Definition lookup_member (k : str) (members : list (str * json)) : option json :=
  snd <$> List.find (λ kv, bool_decide (kv.1 = k)) members.

(** The node types after which [_walk] appends a newline. *)
Definition block_types : list str :=
  [py "paragraph"; py "heading"; py "blockquote"; py "codeBlock"; py "panel"].

(** [node_type in (...)], [node_type] being [n.get('type', '')]. *)
Definition is_block (members : list (str * json)) : bool :=
  match lookup_member (py "type") members with
  | Some (JStr t) => bool_decide (t ∈ block_types)
  | _ => false
  end.

(** [_walk]: the strings appended to [parts], in order; [None] when the
    [for] over ['content'] raises [TypeError] (a number, a boolean or null
    is not iterable).  Iterating a string gives its characters, iterating
    an object gives its keys. *)
Fixpoint _walk (n : json) : option (list str) :=
  let walk_all :=
    fix walk_all (l : list json) : option (list str) :=
      match l with
      | [] => Some []
      | c :: l' =>
          match _walk c with
          | Some a => match walk_all l' with
                      | Some b => Some (a ++ b)
                      | None => None
                      end
          | None => None
          end
      end in
  match n with
  | JNull => Some []
  | JStr s => Some [s]
  | JList l => walk_all l
  | JDict members =>
      let content :=
        (fix find (m : list (str * json)) : option (list str) :=
           match m with
           | [] => Some []
           | (k, v) :: m' =>
               if bool_decide (k = py "content") then
                 match v with
                 | JList l => walk_all l
                 | JStr s => Some ((λ c, [c]) <$> s)
                 | JDict cm => Some (fst <$> cm)
                 | JNull | JAtom _ => None
                 end
               else find m'
           end) members in
      match lookup_member (py "text") members with
      | Some (JStr t) => Some [t]
      | _ =>
          match content with
          | Some parts => Some (parts ++ (if is_block members then [[NL]] else []))
          | None => None
          end
      end
  | JAtom repr => Some [repr]
  end.

(** [re.sub(r"\s+", ' ', text)]; [in_run] tells that the previous character
    was white space. *)
Fixpoint sub_spaces (in_run : bool) (s : str) : str :=
  match s with
  | [] => []
  | c :: s' =>
      if isspace c then (if in_run then sub_spaces true s' else SPACE :: sub_spaces true s')
      else c :: sub_spaces false s'
  end.

Definition _adf_to_text (node : json) : option str :=
  match _walk node with
  | Some parts => Some (strip (sub_spaces false (mjoin parts)))
  | None => None
  end.

(** [re.sub(r"\n{2,}", "\n\n", text)]; [run] counts the newlines just
    before. *)
Fixpoint sub_newlines (run : nat) (s : str) : str :=
  match s with
  | [] => []
  | c :: s' =>
      if c =? NL then
        (if (run <? 2)%nat then NL :: sub_newlines (S run) s' else sub_newlines (S run) s')
      else c :: sub_newlines 0 s'
  end.

(** [sep.join(strings)] *)
Fixpoint join (sep : str) (strings : list str) : str :=
  match strings with
  | [] => []
  | [s] => s
  | s :: rest => s ++ sep ++ join sep rest
  end.

(** The argument of [html_to_text]: a [str], a [dict], or anything else,
    of which the function uses the truth value and [str(html)]. *)
Inductive html_arg : Type :=
  | HtmlStr (s : str)
  | HtmlDict (members : list (str * json))
  | HtmlOther (truth : bool) (as_str : str).

Section Html.
(** [BeautifulSoup(html, "html.parser").get_text(separator=sep)], a library
    call. *)
Variable get_text : str -> str -> str.

(** Lines 25-29. *)
Definition markup_to_text (html : str) : str :=
  sub_newlines 0 (strip (get_text [NL] html)).

Definition html_to_text (html : html_arg) : option str :=
  match html with
  | HtmlStr [] | HtmlDict [] | HtmlOther false _ => Some []
  | HtmlDict members => _adf_to_text (JDict members)
  | HtmlStr s => Some (markup_to_text s)
  | HtmlOther true s => Some (markup_to_text s)
  end.
End Html.

(** The library call on markup made of character data and tags: every [<]
    opens a tag that the next [>] closes (no comment, declaration, entity,
    script or style).  The parser makes one string of each run of character
    data between tags, a run of ASCII white space only being replaced with
    one newline if it has one and with one space otherwise; [get_text] joins
    the strings with the separator. *)
Definition ascii_space (c : N) : bool :=
  (c =? 32) || (c =? 10) || (c =? 9) || (c =? 12) || (c =? 13).

Definition end_data (data : str) : list str :=
  match data with
  | [] => []
  | _ => if forallb ascii_space data
         then (if existsb (N.eqb NL) data then [[NL]] else [[SPACE]])
         else [data]
  end.

Fixpoint soup_strings (in_tag : bool) (data : str) (markup : str) : list str :=
  match markup with
  | [] => end_data data
  | c :: rest =>
      if in_tag then soup_strings (negb (c =? 62)) [] rest
      else if c =? 60 then end_data data ++ soup_strings true [] rest
      else soup_strings false (data ++ [c]) rest
  end.

Definition soup_get_text (sep : str) (markup : str) : str :=
  join sep (soup_strings false [] markup).

(** The first non-blank line of a text, as the specification words it: a
    line of the text, as it stands there. *)
Definition first_nonblank_line (text : str) : option str :=
  head (filter (λ l, strip l ≠ []) (splitlines text)).

End Transform.

(** * Properties *)

(** ** The retry loop of [JiraScraper._request] *)
Module JiraProps.
Import Jira.

(** A response with a 5xx status. *)
Definition server_error (o : get_outcome) : Prop :=
  match o with
  | Got resp => 500 ≤ status_code resp < 600
  | RequestError _ => False
  end.

(** [client.get] raised. *)
Definition network_fault (o : get_outcome) : Prop :=
  match o with
  | RequestError _ => True
  | Got _ => False
  end.

(** What the loop raises when the attempt that met [o] was the last one. *)
Definition exhaustion_error (o : get_outcome) : JiraClientError :=
  match o with
  | RequestError e => NetworkError e
  | Got _ => MaxRetriesExceeded
  end.

(** The world after an attempt that was answered by a sleep of [d] seconds,
    [cr] being the clock readings made so far. *)
Definition slept (rq : request) (d : Q) (cr : nat) (w : world) : world :=
  World (S (gets w)) (S (draws w)) cr (log w ++ [EvGet rq; EvSleep d]).

(** The world after an attempt whose wait [time.sleep] refused: the GET and
    the draw of the jitter are made, nothing is slept. *)
Definition drawn (rq : request) (cr : nat) (w : world) : world :=
  World (S (gets w)) (S (draws w)) cr (log w ++ [EvGet rq]).

(** The world after an attempt that ended the call at once. *)
Definition answered (rq : request) (w : world) : world :=
  World (S (gets w)) (draws w) (clock_reads w) (log w ++ [EvGet rq]).

(** The jitter of attempt [k] in world [w]. *)
Definition jitter (E : env) (k : Z) (w : world) : Q :=
  (0 + (jitter_bound k - 0) * random E (draws w))%Q.

(** How an iteration that sleeps [d] seconds goes on: it raises if the
    attempt was the last one allowed, and loops otherwise. *)
Definition retry_or_raise (E : env) (self : JiraScraper) (rq : request)
    (fuel : nat) (k : Z) (o : get_outcome) (w' : world) : result search_body * world :=
  if max_retries self <=? k then (Raise (exhaustion_error o), w')
  else _request_loop E self rq fuel k w'.

(** How an iteration that has computed the wait [d] goes on: the error of
    [time.sleep] leaves the call, or the sleep is made. *)
Definition sleep_then (E : env) (self : JiraScraper) (rq : request)
    (fuel : nat) (k : Z) (o : get_outcome) (d : Q) (cr : nat) (w : world)
  : result search_body * world :=
  match sleep_raises d with
  | Some err => (RaiseBuiltin err, drawn rq cr w)
  | None => retry_or_raise E self rq fuel k o (slept rq d cr w)
  end.

(** The random source gives values of [[0,1)], as [random.random()] does. *)
Definition unit_draws (E : env) : Prop :=
  ∀ n, (0 <= random E n)%Q ∧ (random E n < 1)%Q.

(** [time.sleep] takes the durations of [[0, SLEEP_MAX]] and no other. *)
Lemma sleep_raises_None d : sleep_raises d = None ↔ (0 <= d)%Q ∧ (d <= SLEEP_MAX)%Q.
Proof.
  unfold sleep_raises.
  destruct (Qle_bool SLEEP_MIN d) eqn:Hmin; destruct (Qle_bool d SLEEP_MAX) eqn:Hmax;
    destruct (Qle_bool 0 d) eqn:H0; cbn;
    try apply Qle_bool_iff in Hmin; try apply Qle_bool_iff in Hmax;
    try apply Qle_bool_iff in H0;
    (split; [try done|]).
  all: try (intros [H1 H2]; try done).
  all: try (apply Qle_bool_iff in H1; congruence).
  all: try (apply Qle_bool_iff in H2; congruence).
  all: try (exfalso; assert (Hlow : Qle_bool SLEEP_MIN d = true);
            [apply Qle_bool_iff; unfold SLEEP_MIN; lra|congruence]).
Qed.

Lemma sleep_raises_negative d :
  (d < 0)%Q → (SLEEP_MIN <= d)%Q → sleep_raises d = Some ValueError.
Proof.
  intros Hneg Hmin. unfold sleep_raises.
  assert (H1 : Qle_bool SLEEP_MIN d = true) by by apply Qle_bool_iff.
  assert (H2 : Qle_bool d SLEEP_MAX = true) by (apply Qle_bool_iff; unfold SLEEP_MAX; lra).
  assert (H3 : Qle_bool 0 d = false).
  { destruct (Qle_bool 0 d) eqn:H0; [|done]. apply Qle_bool_iff in H0. lra. }
  by rewrite H1, H2, H3.
Qed.

Lemma sleep_raises_large d : (SLEEP_MAX < d)%Q → sleep_raises d = Some OverflowError.
Proof.
  intros Hbig. unfold sleep_raises.
  assert (H2 : Qle_bool d SLEEP_MAX = false).
  { destruct (Qle_bool d SLEEP_MAX) eqn:H0; [|done]. apply Qle_bool_iff in H0. lra. }
  rewrite H2. by rewrite orb_true_r.
Qed.

Lemma jitter_spelled E k w :
  (jitter E k w == (1 + (1 # 10) * inject_Z k) * random E (draws w))%Q.
Proof. unfold jitter, jitter_bound. ring. Qed.

Lemma jitter_range E k w :
  0 ≤ k → (0 <= random E (draws w))%Q → (random E (draws w) < 1)%Q →
  (0 <= jitter E k w)%Q ∧ (jitter E k w < jitter_bound k)%Q.
Proof.
  intros Hk H0 H1. unfold jitter, jitter_bound.
  assert (Hq : (0 <= inject_Z k)%Q).
  { change 0%Q with (inject_Z 0). by rewrite <- Zle_Qle. }
  set (u := random E (draws w)) in *. set (q := inject_Z k) in *.
  split; nra.
Qed.

(** A wait of at most [10^9] seconds, with the jitter of an attempt up to
    the [10^10]-th, is a duration [time.sleep] takes. *)
Lemma modest_wait_is_slept E k w base :
  unit_draws E → 0 ≤ k ≤ 10 ^ 10 → (0 <= base)%Q → (base <= 1000000000)%Q →
  sleep_raises (base + jitter E k w) = None.
Proof.
  intros Hu Hk Hb0 Hb1. apply sleep_raises_None.
  destruct (Hu (draws w)) as [H0 H1].
  destruct (jitter_range E k w) as [Hj0 Hj1]; [lia|done|done|].
  unfold jitter_bound in Hj1.
  assert (Hq : (inject_Z k <= 10000000000)%Q).
  { change 10000000000%Q with (inject_Z (10 ^ 10)). rewrite <- Zle_Qle. lia. }
  unfold SLEEP_MAX. split; lra.
Qed.

Lemma backoff_is_modest self k :
  0 ≤ backoff_factor self → 0 ≤ k →
  (0 <= inject_Z (backoff self k))%Q ∧ (inject_Z (backoff self k) <= 1000000000)%Q.
Proof.
  intros Hb Hk. unfold backoff.
  assert (H0 : 0 ≤ backoff_factor self ^ k) by by apply Z.pow_nonneg.
  split.
  - change 0%Q with (inject_Z 0). rewrite <- Zle_Qle. lia.
  - change 1000000000%Q with (inject_Z 1000000000). rewrite <- Zle_Qle. lia.
Qed.

Section Loop.
Context (E : env) (self : JiraScraper) (rq : request).

Lemma app2 {A} (l : list A) (x y : A) : (l ++ [x]) ++ [y] = l ++ [x; y].
Proof. by rewrite <- app_assoc. Qed.

(** The sleep of an iteration, made in the world [w1] that the GET and the
    draw of the jitter have left. *)
Lemma sleep_then_eq fuel k o d cr w :
  match sleep d (World (S (gets w)) (S (draws w)) cr (log w ++ [EvGet rq])) with
  | (Some err, w') => (RaiseBuiltin err, w')
  | (None, w') =>
      if max_retries self <=? k then (Raise (exhaustion_error o), w')
      else _request_loop E self rq fuel k w'
  end = sleep_then E self rq fuel k o d cr w.
Proof.
  unfold sleep_then, sleep, retry_or_raise, slept, drawn.
  destruct (sleep_raises d); [done|]. cbn [gets draws clock_reads log]. by rewrite app2.
Qed.

(** One iteration on a network fault. *)
Lemma loop_fault fuel a w e :
  client_get E (gets w) rq = RequestError e →
  _request_loop E self rq (S fuel) a w =
  sleep_then E self rq fuel (a + 1) (RequestError e)
    (inject_Z (backoff self (a + 1)) + jitter E (a + 1) w) (clock_reads w) w.
Proof.
  intros Ho. cbn [_request_loop]. unfold get. rewrite Ho.
  cbv beta iota zeta. unfold uniform. cbn [gets draws clock_reads log].
  apply (sleep_then_eq fuel (a + 1) (RequestError e)).
Qed.

(** One iteration on a response that is neither a 200 nor a 429. *)
Lemma loop_5xx fuel a w resp :
  client_get E (gets w) rq = Got resp →
  500 ≤ status_code resp < 600 →
  _request_loop E self rq (S fuel) a w =
  sleep_then E self rq fuel (a + 1) (Got resp)
    (inject_Z (backoff self (a + 1)) + jitter E (a + 1) w) (clock_reads w) w.
Proof.
  intros Ho Hs. cbn [_request_loop]. unfold get. rewrite Ho.
  cbv beta iota zeta.
  destruct (status_code resp =? 200) eqn:H200; [lia|].
  unfold wait_for.
  destruct (status_code resp =? 429) eqn:H429; [lia|].
  replace (500 <=? status_code resp) with true by lia.
  replace (status_code resp <? 600) with true by lia.
  cbv beta iota zeta. cbn [andb]. cbv beta iota zeta.
  unfold uniform. cbn [gets draws clock_reads log].
  apply (sleep_then_eq fuel (a + 1) (Got resp)).
Qed.

(** What reading [Retry-After] leaves of the world: the clock may have been
    read, nothing else. *)
Lemma retry_after_wait_world resp w hint w1 :
  retry_after_wait E resp w = (hint, w1) →
  gets w1 = gets w ∧ draws w1 = draws w ∧ log w1 = log w
  ∧ (∀ e, hint = inl e → w1 = w).
Proof.
  unfold retry_after_wait. intros Hh.
  destruct (retry_after resp) as [[|c ra]|]; try (by inversion Hh).
  destruct (isdigit _).
  - destruct (_ <? _)%nat; by inversion Hh.
  - destruct (parsedate_to_datetime E _); by inversion Hh.
Qed.

(** One iteration on a 429, [hint] being what [Retry-After] gives. *)
Lemma loop_429 fuel a w resp hint w1 :
  client_get E (gets w) rq = Got resp →
  status_code resp = 429 →
  retry_after_wait E resp (answered rq w) = (inr hint, w1) →
  _request_loop E self rq (S fuel) a w =
  sleep_then E self rq fuel (a + 1) (Got resp)
    (default (inject_Z (backoff self (a + 1))) hint + jitter E (a + 1) w)
    (clock_reads w1) w.
Proof.
  intros Ho Hs Hh. cbn [_request_loop]. unfold get. rewrite Ho.
  cbv beta iota zeta. rewrite Hs. cbn [Z.eqb Pos.eqb].
  unfold wait_for. rewrite Hs. cbn [Z.eqb Pos.eqb].
  unfold answered in Hh. rewrite Hh.
  destruct (retry_after_wait_world _ _ _ _ Hh) as (Hg & Hd & Hl & _).
  cbn [gets draws log] in Hg, Hd, Hl.
  rewrite <- (sleep_then_eq fuel (a + 1) (Got resp)).
  destruct hint as [s|]; cbv beta iota zeta; unfold uniform, jitter;
    rewrite Hg, Hd, Hl; done.
Qed.

(** One iteration on a 429 whose [Retry-After] is more digits than [int]
    takes. *)
Lemma loop_429_int fuel a w resp err w1 :
  client_get E (gets w) rq = Got resp →
  status_code resp = 429 →
  retry_after_wait E resp (answered rq w) = (inl err, w1) →
  _request_loop E self rq (S fuel) a w = (RaiseBuiltin err, answered rq w).
Proof.
  intros Ho Hs Hh. cbn [_request_loop]. unfold get. rewrite Ho.
  cbv beta iota zeta. rewrite Hs. cbn [Z.eqb Pos.eqb].
  unfold wait_for. rewrite Hs. cbn [Z.eqb Pos.eqb].
  unfold answered in Hh. rewrite Hh.
  destruct (retry_after_wait_world _ _ _ _ Hh) as (_ & _ & _ & Hw).
  by rewrite (Hw err eq_refl).
Qed.

(** With every outcome from here on a 5xx or a network fault, a backoff
    factor that is not negative and a bound on the attempts that keeps the
    jitter within what [time.sleep] takes, the loop entered with counter
    [a < max_retries] makes [max_retries - a] attempts and raises. *)
Lemma loop_persistent fuel :
  unit_draws E → 0 ≤ backoff_factor self → max_retries self ≤ 10 ^ 10 →
  ∀ a w,
  0 ≤ a < max_retries self →
  max_retries self - a ≤ Z.of_nat fuel →
  (∀ k, (gets w ≤ k)%nat →
     server_error (client_get E k rq) ∨ network_fault (client_get E k rq)) →
  ∃ w', _request_loop E self rq fuel a w
        = (Raise (exhaustion_error (client_get E (pred (gets w')) rq)), w')
        ∧ gets w' = (gets w + Z.to_nat (max_retries self - a))%nat.
Proof.
  intros Hu Hb HN.
  induction fuel as [|fuel IH]; intros a w Ha Hfuel Hall; [lia|].
  assert (Hstep : ∃ d cr, _request_loop E self rq (S fuel) a w =
            retry_or_raise E self rq fuel (a + 1) (client_get E (gets w) rq) (slept rq d cr w)).
  { assert (Hok : sleep_raises (inject_Z (backoff self (a + 1)) + jitter E (a + 1) w) = None).
    { destruct (backoff_is_modest self (a + 1)) as [H0 H1]; [done|lia|].
      apply modest_wait_is_slept; [done|lia|done|done]. }
    destruct (Hall (gets w)) as [Hs|Hn]; [lia| |].
    - destruct (client_get E (gets w) rq) as [|resp] eqn:Ho; [done|].
      eexists _, _. rewrite (loop_5xx fuel a w resp Ho Hs). unfold sleep_then.
      by rewrite Hok.
    - destruct (client_get E (gets w) rq) as [e|] eqn:Ho; [|done].
      eexists _, _. rewrite (loop_fault fuel a w e Ho). unfold sleep_then.
      by rewrite Hok. }
  destruct Hstep as (d & cr & ->). unfold retry_or_raise.
  destruct (max_retries self <=? a + 1) eqn:Hlast.
  - exists (slept rq d cr w). split; [reflexivity|]. cbn.
    replace (max_retries self - a) with 1 by lia. cbn. lia.
  - destruct (IH (a + 1) (slept rq d cr w)) as (w' & Heq & Hg); [lia|lia| |].
    { intros k Hk. apply Hall. cbn in Hk. lia. }
    exists w'. split; [done|]. rewrite Hg. cbn. lia.
Qed.

(** Whatever the transport answers, an iteration either ends the call or
    sleeps and goes through [retry_or_raise]. *)
Lemma loop_iter a w :
  (∃ r w', r ≠ OutOfFuel ∧ ∀ fuel, _request_loop E self rq (S fuel) a w = (r, w'))
  ∨ (∃ o w', gets w' = S (gets w) ∧
       ∀ fuel, _request_loop E self rq (S fuel) a w = retry_or_raise E self rq fuel (a + 1) o w').
Proof.
  assert (Hsleep : ∀ o d cr,
    (∀ fuel, _request_loop E self rq (S fuel) a w = sleep_then E self rq fuel (a + 1) o d cr w) →
    (∃ r w', r ≠ OutOfFuel ∧ ∀ fuel, _request_loop E self rq (S fuel) a w = (r, w'))
    ∨ (∃ o w', gets w' = S (gets w) ∧
         ∀ fuel, _request_loop E self rq (S fuel) a w
                 = retry_or_raise E self rq fuel (a + 1) o w')).
  { intros o d cr Heq. unfold sleep_then in Heq. destruct (sleep_raises d) as [err|].
    - left. by exists (RaiseBuiltin err), (drawn rq cr w).
    - right. by exists o, (slept rq d cr w). }
  destruct (client_get E (gets w) rq) as [e|resp] eqn:Ho.
  { eapply Hsleep. intros fuel. by apply loop_fault. }
  destruct (decide (status_code resp = 429)) as [H429|H429].
  { destruct (retry_after_wait E resp (answered rq w)) as [[err|hint] w1] eqn:Hh.
    - left. exists (RaiseBuiltin err), (answered rq w). split; [done|].
      intros fuel. by eapply loop_429_int.
    - eapply Hsleep. intros fuel. by eapply loop_429. }
  destruct (decide (500 ≤ status_code resp < 600)) as [H5|H5].
  { eapply Hsleep. intros fuel. by apply loop_5xx. }
  left. destruct (status_code resp =? 200) eqn:H200.
  - destruct (json resp) as [data|] eqn:Hj.
    + exists (Return data), (answered rq w). split; [done|]. intros fuel.
      cbn [_request_loop]. unfold get. rewrite Ho. cbn. by rewrite H200, Hj.
    + exists (Raise InvalidJSON), (answered rq w). split; [done|]. intros fuel.
      cbn [_request_loop]. unfold get. rewrite Ho. cbn. by rewrite H200, Hj.
  - exists (Raise (HTTPStatus (status_code resp) (text resp))), (answered rq w).
    split; [done|]. intros fuel.
    cbn [_request_loop]. unfold get. rewrite Ho. cbn. rewrite H200.
    unfold wait_for. replace (status_code resp =? 429) with false by lia.
    replace ((500 <=? status_code resp) && (status_code resp <? 600)) with false by lia.
    done.
Qed.

(** The loop is bounded: entered with counter [a], it is over within
    [max(1, max_retries - a)] iterations, and more fuel changes nothing. *)
Lemma loop_bounded fuel : ∀ a w fuel',
  Z.max 1 (max_retries self - a) ≤ Z.of_nat fuel → (fuel ≤ fuel')%nat →
  (_request_loop E self rq fuel a w).1 ≠ OutOfFuel
  ∧ _request_loop E self rq fuel' a w = _request_loop E self rq fuel a w.
Proof.
  induction fuel as [|fuel IH]; intros a w fuel' Hfuel Hle; [lia|].
  destruct fuel' as [|fuel']; [lia|].
  destruct (loop_iter a w) as [(r & w' & Hr & Heq)|(o & w' & _ & Heq)].
  - rewrite !Heq. done.
  - rewrite !Heq. unfold retry_or_raise.
    destruct (max_retries self <=? a + 1) eqn:Hlast; [done|].
    apply IH; lia.
Qed.

End Loop.

(** [_request] is the loop run to its end: it never starves, and no larger
    fuel gives another result. *)
Lemma _request_loop_fuel E self rq w fuel :
  (request_fuel self ≤ fuel)%nat →
  _request_loop E self rq fuel 0 w = _request E self rq w
  ∧ (_request E self rq w).1 ≠ OutOfFuel.
Proof.
  intros Hle. unfold _request.
  destruct (loop_bounded E self rq (request_fuel self) 0 w fuel) as [Hne Heq];
    [unfold request_fuel; lia|done|]. done.
Qed.

(** The claim C1 in the words in which it was made: with [max_retries = N
    >= 1] and every attempt meeting a 5xx, the call makes [N] calls of
    [client.get] and raises "Max retries exceeded"; with every attempt
    meeting a network fault it makes [N] calls and raises "Network error". *)
Definition exhausts_retries (E : env) (self : JiraScraper) (rq : request) (w : world)
  : Prop :=
  ((∀ k, (gets w ≤ k)%nat → server_error (client_get E k rq)) →
   ∃ w', _request E self rq w = (Raise MaxRetriesExceeded, w')
         ∧ gets w' = (gets w + Z.to_nat (max_retries self))%nat)
  ∧ ((∀ k, (gets w ≤ k)%nat → network_fault (client_get E k rq)) →
     ∃ e w', _request E self rq w = (Raise (NetworkError e), w')
             ∧ gets w' = (gets w + Z.to_nat (max_retries self))%nat).

(** The transport of [test_request_handles_5xx_then_fail]: every call is
    answered with a 500.  The random source is stuck at 1/2. *)
Definition always_500 : env :=
  Env (λ _ _, Got (Response 500 None None "err")) (λ _, (1 # 2)%Q) (λ _, 0%Q) (λ _, None).

Definition always_down : env :=
  Env (λ _ _, RequestError "timeout") (λ _, (1 # 2)%Q) (λ _, 0%Q) (λ _, None).

Definition request0 : request := Request "http://example.com" "" 0 0.

(** C1, as the claim has it, fails: it does not hold for every
    configuration.  With [backoff_factor = -2] and [max_retries = 3] the
    first wait is [min((-2) ** 1, 60) + jitter = -2 + 0.55], a negative
    duration: [time.sleep] raises [ValueError], which leaves [_request]
    after one call of [client.get], whether the attempt met a 500 or a
    network fault.  No [JiraClientError] is raised and the two further
    attempts are not made. *)
Lemma negative_backoff_ends_the_call :
  1 ≤ max_retries (Scraper 30 3 (-2))
  ∧ (∀ k, server_error (client_get always_500 k request0))
  ∧ (∀ k, network_fault (client_get always_down k request0))
  ∧ _request always_500 (Scraper 30 3 (-2)) request0 world0
    = (RaiseBuiltin ValueError, World 1 1 0 [EvGet request0])
  ∧ _request always_down (Scraper 30 3 (-2)) request0 world0
    = (RaiseBuiltin ValueError, World 1 1 0 [EvGet request0])
  ∧ ¬ exhausts_retries always_500 (Scraper 30 3 (-2)) request0 world0
  ∧ ¬ exhausts_retries always_down (Scraper 30 3 (-2)) request0 world0.
Proof.
  assert (H5 : _request always_500 (Scraper 30 3 (-2)) request0 world0
               = (RaiseBuiltin ValueError, World 1 1 0 [EvGet request0])) by by vm_compute.
  assert (Hd : _request always_down (Scraper 30 3 (-2)) request0 world0
               = (RaiseBuiltin ValueError, World 1 1 0 [EvGet request0])) by by vm_compute.
  split; [cbn; lia|]. split; [intros k; cbn; lia|]. split; [intros k; exact I|].
  split; [done|]. split; [done|]. split.
  - intros [Hclaim _]. destruct Hclaim as (w' & Heq & _); [intros k _; cbn; lia|].
    rewrite H5 in Heq. discriminate Heq.
  - intros [_ Hclaim]. destruct Hclaim as (e & w' & Heq & _); [intros k _; exact I|].
    rewrite Hd in Heq. discriminate Heq.
Qed.

(** C1, amended.  With [max_retries = N >= 1], a backoff factor that is not
    negative and [N] at most [10^10] (so that every wait
    [min(backoff_factor ** k, 60) + jitter] is a duration [time.sleep]
    takes), a call of [_request] whose every attempt meets a 5xx response
    makes exactly [N] calls of [client.get] and raises "Max retries
    exceeded"; when every attempt meets a network fault it makes exactly [N]
    calls as well and raises "Network error". *)
Theorem request_exhausts_retries (E : env) (self : JiraScraper) (rq : request) (w : world) :
  1 ≤ max_retries self → max_retries self ≤ 10 ^ 10 →
  0 ≤ backoff_factor self →
  unit_draws E →
  ((∀ k, (gets w ≤ k)%nat → server_error (client_get E k rq)) →
   ∃ w', _request E self rq w = (Raise MaxRetriesExceeded, w')
         ∧ gets w' = (gets w + Z.to_nat (max_retries self))%nat)
  ∧ ((∀ k, (gets w ≤ k)%nat → network_fault (client_get E k rq)) →
     ∃ e w', _request E self rq w = (Raise (NetworkError e), w')
             ∧ gets w' = (gets w + Z.to_nat (max_retries self))%nat).
Proof.
  intros HN Hmax Hb Hu.
  assert (Hrun : (∀ k, (gets w ≤ k)%nat →
            server_error (client_get E k rq) ∨ network_fault (client_get E k rq)) →
          ∃ w', _request E self rq w
                = (Raise (exhaustion_error (client_get E (pred (gets w')) rq)), w')
                ∧ gets w' = (gets w + Z.to_nat (max_retries self))%nat).
  { intros Hall. unfold _request.
    destruct (loop_persistent E self rq (request_fuel self) Hu Hb Hmax 0 w)
      as (w' & Heq & Hg); [lia|unfold request_fuel; lia|done|].
    exists w'. split; [done|]. rewrite Hg. f_equal. f_equal. lia. }
  split; intros Hall.
  - destruct Hrun as (w' & Heq & Hg); [intros k Hk; left; by apply Hall|].
    exists w'. split; [|done]. rewrite Heq.
    specialize (Hall (pred (gets w'))).
    destruct (client_get E (pred (gets w')) rq); [|done].
    exfalso. apply Hall. lia.
  - destruct Hrun as (w' & Heq & Hg); [intros k Hk; right; by apply Hall|].
    specialize (Hall (pred (gets w'))).
    destruct (client_get E (pred (gets w')) rq) as [e|] eqn:Ho.
    + by exists e, w'.
    + exfalso. apply Hall. lia.
Qed.

Lemma request_exhausts_retries_witness :
  (∃ w', _request always_500 (Scraper 1 2 0) request0 world0 = (Raise MaxRetriesExceeded, w')
         ∧ gets w' = 2%nat)
  ∧ (∃ e w', _request always_down (Scraper 1 2 0) request0 world0
             = (Raise (NetworkError e), w')
             ∧ gets w' = 2%nat).
Proof.
  split.
  - destruct (request_exhausts_retries always_500 (Scraper 1 2 0) request0 world0) as [H5 _].
    + cbn. lia.
    + cbn. lia.
    + cbn. lia.
    + intros n. split; by vm_compute.
    + apply H5. intros k _. cbn. lia.
  - destruct (request_exhausts_retries always_down (Scraper 1 2 0) request0 world0) as [_ Hn].
    + cbn. lia.
    + cbn. lia.
    + cbn. lia.
    + intros n. split; by vm_compute.
    + apply Hn. intros k _. exact I.
Defined.

(** The three ways a 429 is read, in the words of the retry policy. *)

(** No usable hint: no [Retry-After], an empty one, or one that is neither
    digits nor a date the parser accepts. *)
Definition no_usable_hint (E : env) (resp : response) : Prop :=
  retry_after resp = None ∨ retry_after resp = Some EmptyString
  ∨ ∃ ra, retry_after resp = Some ra ∧ isdigit ra = false
          ∧ parsedate_to_datetime E ra = None.

(** A hint in seconds. *)
Definition seconds_hint (resp : response) (ra : string) : Prop :=
  retry_after resp = Some ra ∧ isdigit ra = true.

(** A hint that is a date, [dt] being the instant it names. *)
Definition date_hint (E : env) (resp : response) (ra : string) (dt : Q) : Prop :=
  retry_after resp = Some ra ∧ ra ≠ EmptyString ∧ isdigit ra = false
  ∧ parsedate_to_datetime E ra = Some dt.

Lemma isdigit_nonempty ra : isdigit ra = true → ra ≠ EmptyString.
Proof. by destruct ra. Qed.

(** C3.  In the iteration that makes attempt [k] (the counter was [k - 1]
    on entry), an outcome that is retried is answered by a wait of
    [d = base + (1 + 0.1 * k) * u] seconds, [u] being the value the random
    source gives, of [[0,1)]: the jitter [random.uniform(0, 1 + 0.1 * k)],
    a value of [[0, 1 + 0.1 k)].  The loop sleeps [d] seconds and goes on
    with the next attempt (or raises when [k] was the last one allowed);
    a [d] that [time.sleep] does not take, being negative or beyond
    [SLEEP_MAX], ends the call with the error of [time.sleep], and no
    attempt follows.  The base is [min(backoff_factor ^ k, 60)] for a
    network fault, a 5xx and a 429 without usable hint, the hinted seconds
    for a 429 with a numeric [Retry-After], and [max(0, date - now)] for a
    429 whose [Retry-After] is a date.  (A numeric [Retry-After] of more
    digits than [int] takes ends the call with [ValueError], before any
    jitter is drawn.) *)
Theorem retry_wait_is_base_plus_jitter (E : env) (self : JiraScraper) (rq : request)
    (fuel : nat) (k : Z) (w : world) :
  let o := client_get E (gets w) rq in
  let u := random E (draws w) in
  let waits (base : Q) (cr : nat) :=
    ∃ d : Q,
      (d == base + (1 + (1 # 10) * inject_Z k) * u)%Q
      ∧ ((0 <= d)%Q → (d <= SLEEP_MAX)%Q →
         _request_loop E self rq (S fuel) (k - 1) w
         = retry_or_raise E self rq fuel k o (slept rq d cr w))
      ∧ (¬ ((0 <= d)%Q ∧ (d <= SLEEP_MAX)%Q) →
         ∃ err, _request_loop E self rq (S fuel) (k - 1) w
                = (RaiseBuiltin err, drawn rq cr w)) in
  (1 ≤ k → (0 <= u)%Q → (u < 1)%Q →
   (0 <= (1 + (1 # 10) * inject_Z k) * u)%Q
   ∧ ((1 + (1 # 10) * inject_Z k) * u < 1 + (1 # 10) * inject_Z k)%Q)
  ∧ (network_fault o ∨ server_error o
     ∨ (∃ resp, o = Got resp ∧ status_code resp = 429 ∧ no_usable_hint E resp) →
     waits (inject_Z (Z.min (backoff_factor self ^ k) 60)) (clock_reads w))
  ∧ (∀ resp ra, o = Got resp → status_code resp = 429 → seconds_hint resp ra →
     (String.length ra ≤ MAX_STR_DIGITS)%nat →
     waits (inject_Z (int ra)) (clock_reads w))
  ∧ (∀ resp ra, o = Got resp → status_code resp = 429 → seconds_hint resp ra →
     (MAX_STR_DIGITS < String.length ra)%nat →
     _request_loop E self rq (S fuel) (k - 1) w = (RaiseBuiltin ValueError, answered rq w))
  ∧ (∀ resp ra dt, o = Got resp → status_code resp = 429 → date_hint E resp ra dt →
     waits (Qmax 0 (dt - now E (clock_reads w))) (S (clock_reads w))).
Proof.
  intros o u waits.
  assert (Hwaits : ∀ base cr,
    _request_loop E self rq (S fuel) (k - 1) w
    = sleep_then E self rq fuel k o (base + jitter E k w) cr w →
    waits base cr).
  { intros base cr Heq. exists (base + jitter E k w)%Q.
    split; [by rewrite jitter_spelled|]. unfold sleep_then in Heq. split.
    - intros H0 H1. rewrite Heq.
      by rewrite (proj2 (sleep_raises_None _) (conj H0 H1)).
    - intros Hout. rewrite Heq.
      destruct (sleep_raises _) as [err|] eqn:Hs; [by exists err|].
      apply sleep_raises_None in Hs. done. }
  split; [|split; [|split; [|split]]].
  - intros Hk H0 H1.
    assert (Hq : (1 <= inject_Z k)%Q).
    { change 1%Q with (inject_Z 1). by rewrite <- Zle_Qle. }
    subst u. set (r := random E (draws w)) in *. set (q := inject_Z k) in *.
    split; nra.
  - intros Hcase. apply Hwaits. replace k with (k - 1 + 1) at 2 3 4 by lia.
    destruct Hcase as [Hn|[Hs|(resp & Ho & H429 & Hh)]].
    + subst o. destruct (client_get E (gets w) rq) as [e|] eqn:Ho; [|done].
      by rewrite (loop_fault E self rq fuel (k - 1) w e Ho).
    + subst o. destruct (client_get E (gets w) rq) as [|resp] eqn:Ho; [done|].
      by rewrite (loop_5xx E self rq fuel (k - 1) w resp Ho Hs).
    + subst o. rewrite Ho.
      assert (Hw : retry_after_wait E resp (answered rq w) = (inr None, answered rq w)).
      { unfold retry_after_wait.
        destruct Hh as [->|[->|(ra & -> & Hd & Hp)]]; [done|done|].
        destruct ra; [done|]. by rewrite Hd, Hp. }
      by rewrite (loop_429 E self rq fuel (k - 1) w resp _ _ Ho H429 Hw).
  - intros resp ra Ho H429 [Hra Hd] Hlen. apply Hwaits.
    replace k with (k - 1 + 1) at 2 3 by lia. subst o. rewrite Ho.
    assert (Hw : retry_after_wait E resp (answered rq w)
                 = (inr (Some (inject_Z (int ra))), answered rq w)).
    { unfold retry_after_wait. rewrite Hra.
      destruct ra; [done|]. rewrite Hd.
      by rewrite (proj2 (Nat.ltb_ge _ _) Hlen). }
    by rewrite (loop_429 E self rq fuel (k - 1) w resp _ _ Ho H429 Hw).
  - intros resp ra Ho H429 [Hra Hd] Hlen. subst o.
    assert (Hw : retry_after_wait E resp (answered rq w)
                 = (inl ValueError, answered rq w)).
    { unfold retry_after_wait. rewrite Hra.
      destruct ra; [done|]. rewrite Hd.
      by rewrite (proj2 (Nat.ltb_lt _ _) Hlen). }
    replace (k - 1 + 1) with k by lia.
    by rewrite (loop_429_int E self rq fuel (k - 1) w resp _ _ Ho H429 Hw).
  - intros resp ra dt Ho H429 (Hra & Hne & Hd & Hp). apply Hwaits.
    replace k with (k - 1 + 1) at 2 3 by lia. subst o. rewrite Ho.
    assert (Hw : retry_after_wait E resp (answered rq w)
                 = (inr (Some (Qmax 0 (dt - now E (clock_reads w)))),
                    World (S (gets w)) (draws w) (S (clock_reads w)) (log w ++ [EvGet rq]))).
    { unfold retry_after_wait. rewrite Hra.
      destruct ra; [done|]. by rewrite Hd, Hp. }
    by rewrite (loop_429 E self rq fuel (k - 1) w resp _ _ Ho H429 Hw).
Qed.

(** A transport that answers the first call with a 429 carrying the given
    [Retry-After], a clock that reads 100, a parser that knows one date (as
    the instant 130), and a random source stuck at 1/2. *)
Definition the_date : string := "Wed, 21 Oct 2015 07:28:00 GMT".

Definition rate_limited (ra : option string) : env :=
  Env (λ _ _, Got (Response 429 ra None ""))
      (λ _, (1 # 2)%Q) (λ _, 100%Q)
      (λ s, if decide (s = the_date) then Some 130%Q else None).

Definition faulty : env :=
  Env (λ _ _, RequestError "timeout") (λ _, (1 # 2)%Q) (λ _, 100%Q) (λ _, None).

(** A [Retry-After] of 4301 digits. *)
Definition long_hint : string := string_of_list_ascii (replicate 4301 "9"%char).

Lemma retry_wait_is_base_plus_jitter_witness :
  (* attempt 2 meets a network fault: min(2 ** 2, 60) + 1.2 * 0.5 = 4.6 *)
  (∃ d, (d == 23 # 5)%Q
        ∧ _request_loop faulty (Scraper 1 3 2) request0 1 (2 - 1) world0
          = retry_or_raise faulty (Scraper 1 3 2) request0 0 2 (RequestError "timeout")
              (slept request0 d 0 world0))
  (* attempt 1 meets a 429 with Retry-After: 7, and 7 + 1.1 * 0.5 = 7.55 *)
  ∧ (∃ d, (d == 151 # 20)%Q
          ∧ _request_loop (rate_limited (Some "7")) (Scraper 1 3 2) request0 1 (1 - 1) world0
            = retry_or_raise (rate_limited (Some "7")) (Scraper 1 3 2) request0 0 1
                (Got (Response 429 (Some "7") None "")) (slept request0 d 0 world0))
  (* a date 30 seconds ahead: 30 + 1.1 * 0.5 = 30.55 *)
  ∧ (∃ d, (d == 611 # 20)%Q
          ∧ _request_loop (rate_limited (Some the_date)) (Scraper 1 3 2) request0 1 (1 - 1)
              world0
            = retry_or_raise (rate_limited (Some the_date)) (Scraper 1 3 2) request0 0 1
                (Got (Response 429 (Some the_date) None "")) (slept request0 d 1 world0))
  (* Retry-After: 10000000000 is more than time.sleep takes *)
  ∧ (∃ err, _request_loop (rate_limited (Some "10000000000")) (Scraper 1 3 2) request0 1
              (1 - 1) world0
            = (RaiseBuiltin err, drawn request0 0 world0))
  (* a Retry-After of 4301 digits is more than int takes *)
  ∧ _request_loop (rate_limited (Some long_hint)) (Scraper 1 3 2) request0 1 (1 - 1) world0
    = (RaiseBuiltin ValueError, answered request0 world0).
Proof.
  split; [|split; [|split; [|split]]].
  - destruct (retry_wait_is_base_plus_jitter faulty (Scraper 1 3 2) request0 0 2 world0)
      as (_ & Hb & _ & _ & _).
    destruct Hb as (d & Hd & Hok & _); [left; exact I|].
    exists d. split; [rewrite Hd; by vm_compute|].
    apply Hok; rewrite Hd; by vm_compute.
  - destruct (retry_wait_is_base_plus_jitter (rate_limited (Some "7")) (Scraper 1 3 2)
                request0 0 1 world0) as (_ & _ & Hs & _ & _).
    destruct (Hs (Response 429 (Some "7") None "") "7") as (d & Hd & Hok & _);
      [reflexivity|reflexivity|split; reflexivity|apply Nat.leb_le; by vm_compute|].
    exists d. split; [rewrite Hd; by vm_compute|].
    apply Hok; rewrite Hd; by vm_compute.
  - destruct (retry_wait_is_base_plus_jitter (rate_limited (Some the_date)) (Scraper 1 3 2)
                request0 0 1 world0) as (_ & _ & _ & _ & Hdate).
    destruct (Hdate (Response 429 (Some the_date) None "") the_date 130%Q)
      as (d & Hd & Hok & _);
      [reflexivity|reflexivity|split; [reflexivity|split; [discriminate|split; reflexivity]]|].
    exists d. split; [rewrite Hd; by vm_compute|].
    apply Hok; rewrite Hd; by vm_compute.
  - destruct (retry_wait_is_base_plus_jitter (rate_limited (Some "10000000000"))
                (Scraper 1 3 2) request0 0 1 world0) as (_ & _ & Hs & _ & _).
    destruct (Hs (Response 429 (Some "10000000000") None "") "10000000000")
      as (d & Hd & _ & Hbad);
      [reflexivity|reflexivity|split; reflexivity|apply Nat.leb_le; by vm_compute|].
    apply Hbad. intros [_ H1]. rewrite Hd in H1. vm_compute in H1. by apply H1.
  - destruct (retry_wait_is_base_plus_jitter (rate_limited (Some long_hint))
                (Scraper 1 3 2) request0 0 1 world0) as (_ & _ & _ & Hlong & _).
    apply (Hlong (Response 429 (Some long_hint) None "") long_hint);
      [reflexivity|reflexivity|split; [reflexivity|by vm_compute]|].
    apply Nat.ltb_lt. by vm_compute.
Defined.

(** C4.  A response whose status is neither 200, nor 429, nor a 5xx, and a
    200 whose body is not JSON, end the call in the iteration that received
    them: [JiraClientError] is raised, the world has one more GET and nothing
    else (no sleep, no draw of jitter, no further GET).  This holds at any
    attempt of the loop, and so for a call whose first response is such. *)
Theorem request_fails_fast (E : env) (self : JiraScraper) (rq : request) (w : world)
    (resp : response) :
  client_get E (gets w) rq = Got resp →
  (status_code resp ≠ 200 → status_code resp ≠ 429 → ¬ 500 ≤ status_code resp < 600 →
   (∀ fuel a, _request_loop E self rq (S fuel) a w
              = (Raise (HTTPStatus (status_code resp) (text resp)), answered rq w))
   ∧ _request E self rq w
     = (Raise (HTTPStatus (status_code resp) (text resp)), answered rq w))
  ∧ (status_code resp = 200 → json resp = None →
     (∀ fuel a, _request_loop E self rq (S fuel) a w = (Raise InvalidJSON, answered rq w))
     ∧ _request E self rq w = (Raise InvalidJSON, answered rq w)).
Proof.
  intros Ho.
  assert (Hfuel : ∃ n, request_fuel self = S n).
  { unfold request_fuel. exists (pred (Z.to_nat (Z.max 1 (max_retries self)))). lia. }
  destruct Hfuel as [n Hn].
  split.
  - intros H200 H429 H5.
    assert (Hloop : ∀ fuel a, _request_loop E self rq (S fuel) a w
              = (Raise (HTTPStatus (status_code resp) (text resp)), answered rq w)).
    { intros fuel a. cbn [_request_loop]. unfold get. rewrite Ho. cbn.
      replace (status_code resp =? 200) with false by lia.
      unfold wait_for. replace (status_code resp =? 429) with false by lia.
      replace ((500 <=? status_code resp) && (status_code resp <? 600)) with false by lia.
      done. }
    split; [done|]. unfold _request. rewrite Hn. apply Hloop.
  - intros H200 Hj.
    assert (Hloop : ∀ fuel a,
              _request_loop E self rq (S fuel) a w = (Raise InvalidJSON, answered rq w)).
    { intros fuel a. cbn [_request_loop]. unfold get. rewrite Ho. cbn.
      rewrite H200, Hj. done. }
    split; [done|]. unfold _request. rewrite Hn. apply Hloop.
Qed.

Definition answers (resp : response) : env :=
  Env (λ _ _, Got resp) (λ _, 0%Q) (λ _, 0%Q) (λ _, None).

Lemma request_fails_fast_witness :
  _request (answers (Response 404 None None "gone")) (Scraper 1 5 2) request0 world0
  = (Raise (HTTPStatus 404 "gone"), World 1 0 0 [EvGet request0])
  ∧ _request (answers (Response 200 None None "<html>")) (Scraper 1 5 2) request0 world0
    = (Raise InvalidJSON, World 1 0 0 [EvGet request0]).
Proof.
  split.
  - apply (request_fails_fast (answers (Response 404 None None "gone")) (Scraper 1 5 2)
             request0 world0 (Response 404 None None "gone")); [reflexivity|cbn; lia..].
  - apply (request_fails_fast (answers (Response 200 None None "<html>")) (Scraper 1 5 2)
             request0 world0 (Response 200 None None "<html>")); reflexivity.
Defined.

(** The same generator frame with the cap taken away. *)
Definition pages_uncapped (g : pages_gen) : pages_gen :=
  PagesGen (pg_project g) (pg_page_size g) None
           (pg_total g) (pg_fetched g) (pg_current g) (pg_pc g).

Definition issues_uncapped (g : issues_gen) : issues_gen :=
  IssuesGen (ig_project g) (ig_page_size g) None
            (ig_total g) (ig_fetched g) (ig_start_at g) (ig_pc g).

Lemma cap_zero_never_reached fetched : cap_reached (Some 0) fetched = false.
Proof. reflexivity. Qed.

(** A [next()] on a frame whose cap is 0 does what it does without cap, and
    leaves the cap at 0. *)
Lemma pages_next_cap_zero E self g w :
  pg_max_issues g = Some 0 →
  ∃ r g' w', pages_next E self g w = (r, g', w')
             ∧ pg_max_issues g' = Some 0
             ∧ pages_next E self (pages_uncapped g) w = (r, pages_uncapped g', w').
Proof.
  destruct g as [p ps mi tot fe cur pc]. cbn. intros ->.
  unfold pages_next, pages_uncapped. cbn.
  assert (Hfetch : ∀ tot fe cur pc,
    ∃ r g' w', pages_fetch E self (PagesGen p ps (Some 0) tot fe cur pc) w = (r, g', w')
               ∧ pg_max_issues g' = Some 0
               ∧ pages_fetch E self (PagesGen p ps None tot fe cur pc) w
                 = (r, pages_uncapped g', w')).
  { intros tot' fe' cur' pc'. unfold pages_fetch. cbn.
    destruct (_request E self _ w) as [[data|e|e'|] w1]; cbn.
    - destruct (body_issues data); eexists _, _, _; (split; [reflexivity|split; reflexivity]).
    - eexists _, _, _; (split; [reflexivity|split; reflexivity]).
    - eexists _, _, _; (split; [reflexivity|split; reflexivity]).
    - eexists _, _, _; (split; [reflexivity|split; reflexivity]). }
  destruct pc as [|issues|].
  - apply Hfetch.
  - destruct (past_total tot (cur + len issues)).
    + eexists _, _, _; (split; [reflexivity|split; reflexivity]).
    + apply Hfetch.
  - eexists _, _, _; (split; [reflexivity|split; reflexivity]).
Qed.

Lemma issues_next_cap_zero E self g w :
  ig_max_issues g = Some 0 →
  ∃ r g' w', issues_next E self g w = (r, g', w')
             ∧ ig_max_issues g' = Some 0
             ∧ issues_next E self (issues_uncapped g) w = (r, issues_uncapped g', w').
Proof.
  destruct g as [p ps mi tot fe st pc]. cbn. intros ->.
  unfold issues_next, issues_uncapped. cbn.
  assert (Hfetch : ∀ tot fe st pc,
    ∃ r g' w', issues_fetch E self (IssuesGen p ps (Some 0) tot fe st pc) w = (r, g', w')
               ∧ ig_max_issues g' = Some 0
               ∧ issues_fetch E self (IssuesGen p ps None tot fe st pc) w
                 = (r, issues_uncapped g', w')).
  { intros tot' fe' st' pc'. unfold issues_fetch. cbn.
    destruct (_request E self _ w) as [[data|e|e'|] w1]; cbn.
    - destruct (body_issues data); eexists _, _, _; (split; [reflexivity|split; reflexivity]).
    - eexists _, _, _; (split; [reflexivity|split; reflexivity]).
    - eexists _, _, _; (split; [reflexivity|split; reflexivity]).
    - eexists _, _, _; (split; [reflexivity|split; reflexivity]). }
  destruct pc as [|issues rest|].
  - apply Hfetch.
  - destruct rest as [|i rest].
    + destruct (past_total tot (st + len issues)).
      * eexists _, _, _; (split; [reflexivity|split; reflexivity]).
      * apply Hfetch.
    + eexists _, _, _; (split; [reflexivity|split; reflexivity]).
  - eexists _, _, _; (split; [reflexivity|split; reflexivity]).
Qed.

Lemma pages_list_cap_zero E self fuel : ∀ g w,
  pg_max_issues g = Some 0 →
  pages_list E self fuel g w = pages_list E self fuel (pages_uncapped g) w.
Proof.
  induction fuel as [|fuel IH]; intros g w Hcap; [done|].
  destruct (pages_next_cap_zero E self g w Hcap) as (r & g' & w' & Hn & Hcap' & Hu).
  cbn [pages_list]. rewrite Hn, Hu.
  destruct r as [[p|]|e|e'|]; try done.
  by rewrite (IH g' w' Hcap').
Qed.

Lemma issues_list_cap_zero E self fuel : ∀ g w,
  ig_max_issues g = Some 0 →
  issues_list E self fuel g w = issues_list E self fuel (issues_uncapped g) w.
Proof.
  induction fuel as [|fuel IH]; intros g w Hcap; [done|].
  destruct (issues_next_cap_zero E self g w Hcap) as (r & g' & w' & Hn & Hcap' & Hu).
  cbn [issues_list]. rewrite Hn, Hu.
  destruct r as [[i|]|e|e'|]; try done.
  by rewrite (IH g' w' Hcap').
Qed.

(** A project of three issues served two per page, as the search endpoint
    would. *)
Definition three_issues : list issue :=
  [Issue (Some "T-1") ""; Issue (Some "T-2") ""; Issue (Some "T-3") ""].

Definition serves (all : list issue) : env :=
  Env (λ _ rq, Got (Response 200 None
                      (Some (SearchBody
                               (take (Z.to_nat (req_maxResults rq))
                                     (drop (Z.to_nat (req_startAt rq)) all))
                               (Some (Some (len all))))) ""))
      (λ _, 0%Q) (λ _, 0%Q) (λ _, None).

End JiraProps.

(** ** The checkpoint file *)
Module CheckpointProps.
Import Checkpoint.

Lemma get_project_insert (m : gmap string project_entry) p q e :
  get_project (Checkpoint (Some (<[p := e]> m))) q
  = if decide (p = q) then e else get_project (Checkpoint (Some m)) q.
Proof.
  unfold get_project. cbn. rewrite lookup_insert. by destruct (decide (p = q)).
Qed.

Lemma get_project_default data q :
  get_project (Checkpoint (Some (default ∅ (projects data)))) q = get_project data q.
Proof. by destruct data as [[m|]]. Qed.

Lemma is_downloaded_keys_of p k f : is_downloaded p k f = bool_decide (k ∈ keys_of p f).
Proof. reflexivity. Qed.

(** [mark_downloaded] appends the key to the project's list unless it is
    there, and touches no other list. *)
Lemma keys_of_mark_downloaded p k q f :
  keys_of q (mark_downloaded p k f)
  = if decide (p = q)
    then (if bool_decide (k ∈ keys_of p f) then keys_of p f else keys_of p f ++ [k])
    else keys_of q f.
Proof.
  unfold keys_of, mark_downloaded, save_checkpoint, mark_downloaded_in. cbn.
  rewrite get_project_insert. destruct (decide (p = q)) as [->|Hne].
  - cbn. unfold get_project. done.
  - by rewrite get_project_default.
Qed.

Lemma get_last_start_mark_downloaded p k q f :
  get_last_start q (mark_downloaded p k f) = get_last_start q f.
Proof.
  unfold get_last_start, mark_downloaded, save_checkpoint, mark_downloaded_in. cbn.
  rewrite get_project_insert. destruct (decide (p = q)) as [->|Hne].
  - cbn. unfold get_project. done.
  - by rewrite get_project_default.
Qed.

Lemma keys_of_set_last_start p v q f :
  keys_of q (set_last_start p v f) = keys_of q f.
Proof.
  unfold keys_of, set_last_start, save_checkpoint, set_last_start_in. cbn.
  rewrite get_project_insert. destruct (decide (p = q)) as [->|Hne].
  - cbn. unfold get_project. done.
  - by rewrite get_project_default.
Qed.

(** [set_last_start] overwrites the project's offset and no other. *)
Lemma get_last_start_set_last_start p v q f :
  get_last_start q (set_last_start p v f)
  = if decide (p = q) then v else get_last_start q f.
Proof.
  unfold get_last_start, set_last_start, save_checkpoint, set_last_start_in. cbn.
  rewrite get_project_insert. destruct (decide (p = q)) as [->|Hne].
  - done.
  - by rewrite get_project_default.
Qed.

End CheckpointProps.

(** ** The checkpoint file as a JSON document *)
Module CheckpointJsonProps.
Import CheckpointJson.

Lemma contains_strings (keys : list string) (x : string) :
  existsb (λ e, match e with VStr s => bool_decide (s = x) | _ => false end) (VStr <$> keys)
  = bool_decide (x ∈ keys).
Proof.
  induction keys as [|k keys IH]; [done|].
  cbn [fmap list_fmap existsb]. rewrite IH.
  destruct (decide (k = x)) as [->|Hne].
  - rewrite bool_decide_eq_true_2 by done. cbn.
    symmetry. apply bool_decide_eq_true_2. by left.
  - rewrite (bool_decide_eq_false_2 (k = x)) by done. cbn.
    apply bool_decide_ext. rewrite elem_of_cons.
    split; [by right|]. intros [Heq|Hin]; [by destruct Hne|done].
Qed.

Lemma get_entry_member (e : Checkpoint.project_entry) :
  get (encode_entry e) "downloaded_keys" (VList [])
  = Ok (VList (VStr <$> default [] (Checkpoint.downloaded_keys e)))
  ∧ get (encode_entry e) "last_start" (VInt 0)
    = Ok (VInt (default 0 (Checkpoint.last_start e))).
Proof. destruct e as [[keys|] [n|]]; split; by vm_compute. Qed.

Lemma get_project_encoded (data : Checkpoint.checkpoint) (project : string) :
  (projects ← get (encode data) "projects" (VDict ∅); get projects project (VDict ∅))
  = Ok (encode_entry (Checkpoint.get_project data project))
  ∨ ((projects ← get (encode data) "projects" (VDict ∅); get projects project (VDict ∅))
     = Ok (VDict ∅)
     ∧ Checkpoint.get_project data project = Checkpoint.empty_entry).
Proof.
  destruct data as [[m|]]; unfold Checkpoint.get_project, encode, get; cbn.
  - rewrite lookup_singleton_eq. cbn. rewrite lookup_fmap.
    destruct (m !! project) as [e|]; cbn; [by left|by right].
  - rewrite lookup_empty. cbn. rewrite !lookup_empty. by right.
Qed.

(** On a file of the shape the module writes, the readers over JSON return
    what the readers over the typed document return, and do not raise. *)
Lemma readers_agree (int_of_str : string → option Z) (project issue_key : string)
    (f : Checkpoint.file) :
  is_downloaded project issue_key (encode_file f)
  = Ok (Checkpoint.is_downloaded project issue_key f)
  ∧ get_last_start int_of_str project (encode_file f)
    = Ok (Checkpoint.get_last_start project f).
Proof.
  assert (Hdata : ∀ data,
    is_downloaded project issue_key (Parsed (encode data))
    = Ok (Checkpoint.is_downloaded project issue_key (Checkpoint.Holds data))
    ∧ get_last_start int_of_str project (Parsed (encode data))
      = Ok (Checkpoint.get_last_start project (Checkpoint.Holds data))).
  { intros data.
    unfold is_downloaded, get_last_start, Checkpoint.is_downloaded,
      Checkpoint.get_last_start.
    cbn [load_checkpoint Checkpoint.load_checkpoint].
    destruct (get_project_encoded data project) as [Hp|[Hp He]].
    - destruct (get_entry_member (Checkpoint.get_project data project)) as [Hk Hl].
      split.
      + destruct (get (encode data) "projects" (VDict ∅)) as [ps|]; [|discriminate Hp].
        cbn [mbind result_bind] in Hp |- *. rewrite Hp. cbn [mbind result_bind].
        rewrite Hk. cbn [mbind result_bind contains]. by rewrite contains_strings.
      + destruct (get (encode data) "projects" (VDict ∅)) as [ps|]; [|discriminate Hp].
        cbn [mbind result_bind] in Hp |- *. rewrite Hp. cbn [mbind result_bind].
        rewrite Hl. done.
    - rewrite He. split.
      + destruct (get (encode data) "projects" (VDict ∅)) as [ps|]; [|discriminate Hp].
        cbn [mbind result_bind] in Hp |- *. rewrite Hp. by vm_compute.
      + destruct (get (encode data) "projects" (VDict ∅)) as [ps|]; [|discriminate Hp].
        cbn [mbind result_bind] in Hp |- *. rewrite Hp. by vm_compute. }
  destruct f as [| |data]; [|..|apply Hdata].
  - apply (Hdata Checkpoint.empty_checkpoint).
  - apply (Hdata Checkpoint.empty_checkpoint).
Qed.

(** The claim C6 for one file: the store degrades to the empty default, and
    neither reader raises. *)
Definition degrades (f : file) : Prop := load_checkpoint f = EMPTY.

Definition never_raises (int_of_str : string → option Z) (f : file) : Prop :=
  ∀ project issue_key,
    (∃ n, get_last_start int_of_str project f = Ok n)
    ∧ (∃ b, is_downloaded project issue_key f = Ok b).

(** [int] on the strings of decimal digits and on nothing else: enough of
    Python's numerals for the examples. *)
Definition int_of_digits (s : string) : option Z :=
  if Jira.isdigit s then Some (Jira.int s) else None.

(** C6, as the claim has it, fails: a store can be corrupt and still parse.
    A file that holds [[]], or [null], or [{"projects": null}], is returned
    by [load_checkpoint] as it is, not as [{"projects": {}}], and both
    [get_last_start] and [is_downloaded] raise [AttributeError] to the
    caller; a ["last_start"] that is [null] makes [get_last_start] raise
    [TypeError]. *)
Lemma parsed_checkpoint_can_raise :
  load_checkpoint (Parsed (VList [])) = VList []
  ∧ get_last_start int_of_digits "TEST" (Parsed (VList [])) = Raises AttributeError
  ∧ is_downloaded "TEST" "TEST-1" (Parsed (VList [])) = Raises AttributeError
  ∧ get_last_start int_of_digits "TEST" (Parsed VNull) = Raises AttributeError
  ∧ is_downloaded "TEST" "TEST-1" (Parsed (VDict {["projects" := VNull]}))
    = Raises AttributeError
  ∧ get_last_start int_of_digits "TEST"
      (Parsed (VDict {["projects" := VDict {["TEST" := VDict {["last_start" := VNull]}]}]}))
    = Raises TypeError
  ∧ ¬ degrades (Parsed (VList []))
  ∧ ¬ never_raises int_of_digits (Parsed (VList [])).
Proof.
  split; [done|]. split; [done|]. split; [done|]. split; [done|].
  split; [by vm_compute|]. split; [by vm_compute|]. split.
  - intros Hd. discriminate Hd.
  - intros Hn. destruct (Hn "TEST" "TEST-1") as [[n Hg] _]. discriminate Hg.
Qed.

(** C6, amended.  When the checkpoint file is missing, or is there but
    fails [open] or [json.load], [load_checkpoint] returns the default
    [{"projects": {}}]; so [get_last_start] returns 0 and [is_downloaded]
    returns [False], for every project and key, and neither raises.  A file
    that parses is returned as it is: when it is not an object, or its
    ["projects"] member is not an object, both readers raise
    [AttributeError]; when it has the shape the module writes, both return
    what the document holds. *)
Theorem unreadable_checkpoint_is_empty (int_of_str : string → option Z)
    (project issue_key : string) :
  (∀ f, f = Missing ∨ f = Unreadable →
     load_checkpoint f = EMPTY
     ∧ get_last_start int_of_str project f = Ok 0
     ∧ is_downloaded project issue_key f = Ok false)
  ∧ (∀ v, (∀ members, v ≠ VDict members)
          ∨ (∃ members p, v = VDict members ∧ members !! "projects" = Some p
                          ∧ ∀ ps, p ≠ VDict ps) →
     load_checkpoint (Parsed v) = v
     ∧ get_last_start int_of_str project (Parsed v) = Raises AttributeError
     ∧ is_downloaded project issue_key (Parsed v) = Raises AttributeError)
  ∧ (∀ data : Checkpoint.checkpoint,
       get_last_start int_of_str project (Parsed (encode data))
       = Ok (Checkpoint.get_last_start project (Checkpoint.Holds data))
       ∧ is_downloaded project issue_key (Parsed (encode data))
         = Ok (Checkpoint.is_downloaded project issue_key (Checkpoint.Holds data))).
Proof.
  split; [|split].
  - intros f Hf.
    assert (Hload : load_checkpoint f = EMPTY) by (by destruct Hf as [->| ->]).
    split; [done|]. unfold get_last_start, is_downloaded. rewrite Hload.
    split; by vm_compute.
  - intros v Hv. split; [done|]. unfold get_last_start, is_downloaded.
    cbn [load_checkpoint].
    destruct Hv as [Hv|(members & p & -> & Hp & Hnd)].
    + destruct v; try done. by destruct (Hv members).
    + cbn [get mbind result_bind]. rewrite Hp. cbn [default].
      destruct p; try done. by destruct (Hnd members0).
  - intros data.
    destruct (readers_agree int_of_str project issue_key (Checkpoint.Holds data)) as [Hd Hl].
    by split.
Qed.

Lemma unreadable_checkpoint_is_empty_witness :
  (load_checkpoint Missing = EMPTY
   ∧ get_last_start int_of_digits "TEST" Missing = Ok 0
   ∧ is_downloaded "TEST" "TEST-1" Missing = Ok false)
  ∧ (load_checkpoint Unreadable = EMPTY
     ∧ get_last_start int_of_digits "TEST" Unreadable = Ok 0
     ∧ is_downloaded "TEST" "TEST-1" Unreadable = Ok false)
  ∧ (load_checkpoint (Parsed (VStr "{}")) = VStr "{}"
     ∧ get_last_start int_of_digits "TEST" (Parsed (VStr "{}")) = Raises AttributeError
     ∧ is_downloaded "TEST" "TEST-1" (Parsed (VStr "{}")) = Raises AttributeError)
  ∧ (load_checkpoint (Parsed (VDict {["projects" := VList []]}))
     = VDict {["projects" := VList []]}
     ∧ get_last_start int_of_digits "TEST" (Parsed (VDict {["projects" := VList []]}))
       = Raises AttributeError
     ∧ is_downloaded "TEST" "TEST-1" (Parsed (VDict {["projects" := VList []]}))
       = Raises AttributeError).
Proof.
  destruct (unreadable_checkpoint_is_empty int_of_digits "TEST" "TEST-1")
    as (Hempty & Hraise & _).
  split; [apply Hempty; by left|]. split; [apply Hempty; by right|]. split.
  - apply Hraise. left. intros members. discriminate.
  - apply Hraise. right. exists {["projects" := VList []]}, (VList []).
    split; [reflexivity|]. split; [by vm_compute|]. intros ps. discriminate.
Defined.

End CheckpointJsonProps.

(** ** The scraping loop *)
Module CliProps.
Import Jira Checkpoint Cli CheckpointProps.

(** The key under which an issue is marked and stored. *)
Definition key_of (i : issue) : string := default EmptyString (issue_key i).

(** Reduce the projections of a state that is written out. *)
Ltac state_fields :=
  cbn [st_pc st_gen st_world st_checkpoint st_raw st_writes st_count].

Section Loop.
Context (E : env) (C : config) (project : string).

Lemma run_add n : ∀ m s,
  run E C project (n + m) s = run E C project m (run E C project n s).
Proof. induction n as [|n IH]; intros m s; [done|]. cbn. apply IH. Qed.

Lemma run_S n s : run E C project (S n) s = step E C project (run E C project n s).
Proof. replace (S n) with (n + 1)%nat by lia. by rewrite run_add. Qed.

(** An issue leaves the checkpoint as it is, or marks its key. *)
Lemma process_issue_checkpoint i s :
  (process_issue E project i s).1.1.1 = st_checkpoint s
  ∨ (process_issue E project i s).1.1.1 = mark_downloaded project (key_of i) (st_checkpoint s).
Proof.
  unfold process_issue.
  destruct (truthy (issue_key i) && is_downloaded _ _ _); [by left|].
  destruct (save_raw_issue E i (st_raw s) (st_writes s)) as [raw writes].
  destruct (truthy (issue_key i)); [by right|by left].
Qed.

(** Through the issues of a page the generator and the world stand still,
    no offset changes and no key is forgotten. *)
Lemma run_issues issues page_start rest : ∀ s,
  st_pc s = Processing issues page_start rest →
  let s' := run E C project (length rest) s in
  st_pc s' = Processing issues page_start []
  ∧ st_gen s' = st_gen s ∧ st_world s' = st_world s
  ∧ ∀ q, get_last_start q (st_checkpoint s') = get_last_start q (st_checkpoint s)
         ∧ keys_of q (st_checkpoint s) ⊆ keys_of q (st_checkpoint s').
Proof.
  induction rest as [|i rest IH]; intros s Hpc; cbn.
  { split; [done|]. split; [done|]. split; [done|]. intros q. by split. }
  set (s1 := step E C project s).
  assert (H1 : st_pc s1 = Processing issues page_start rest
               ∧ st_gen s1 = st_gen s ∧ st_world s1 = st_world s
               ∧ st_checkpoint s1 = (process_issue E project i s).1.1.1).
  { subst s1. unfold step. rewrite Hpc.
    by destruct (process_issue E project i s) as [[[f raw] writes] count]. }
  destruct H1 as (Hpc1 & Hg1 & Hw1 & Hf1).
  destruct (IH s1 Hpc1) as (Hpc' & Hg' & Hw' & Hq).
  split; [done|]. split; [congruence|]. split; [congruence|].
  intros q. destruct (Hq q) as [Hl Hk]. rewrite Hl. rewrite Hf1 in Hk |- *.
  destruct (process_issue_checkpoint i s) as [Hpi|Hpi]; rewrite Hpi in Hk |- *.
  - by split.
  - rewrite get_last_start_mark_downloaded. split; [done|].
    etrans; [|exact Hk].
    rewrite keys_of_mark_downloaded. destruct (decide (project = q)) as [<-|]; [|done].
    destruct (bool_decide _); [done|]. by apply sublist_subseteq, sublist_inserts_r.
Qed.

(** An issue with a key that is not marked yet is written and marked. *)
Lemma step_fresh_issue issues page_start i rest s :
  st_pc s = Processing issues page_start (i :: rest) →
  truthy (issue_key i) = true →
  key_of i ∉ keys_of project (st_checkpoint s) →
  write_ok E (st_writes s) (key_of i) = true →
  step E C project s
  = State (st_gen s) (st_world s)
          (mark_downloaded project (key_of i) (st_checkpoint s))
          (<[key_of i := i]> (st_raw s)) (S (st_writes s)) (st_count s + 1)
          (Processing issues page_start rest).
Proof.
  intros Hpc Hkey Hnew Hok. unfold step. rewrite Hpc.
  unfold process_issue. rewrite Hkey. fold (key_of i).
  rewrite is_downloaded_keys_of, bool_decide_eq_false_2 by done. cbn.
  unfold save_raw_issue. unfold key_of in *.
  destruct (issue_key i) as [[|c k]|]; try done. cbn in *. by rewrite Hok.
Qed.

(** A page of issues with keys that are pairwise distinct, not yet stored
    and not yet marked: every one of them is stored and marked. *)
Lemma run_fresh_issues issues page_start rest : ∀ s,
  st_pc s = Processing issues page_start rest →
  Forall (λ i, truthy (issue_key i) = true) rest →
  NoDup (key_of <$> rest) →
  (∀ k, k ∈ key_of <$> rest →
        st_raw s !! k = None ∧ k ∉ keys_of project (st_checkpoint s)) →
  (∀ n k, write_ok E n k = true) →
  let s' := run E C project (length rest) s in
  st_pc s' = Processing issues page_start []
  ∧ st_gen s' = st_gen s ∧ st_world s' = st_world s
  ∧ size (st_raw s') = (size (st_raw s) + length rest)%nat
  ∧ (∀ k, k ∉ key_of <$> rest → st_raw s' !! k = st_raw s !! k)
  ∧ keys_of project (st_checkpoint s')
    = keys_of project (st_checkpoint s) ++ (key_of <$> rest).
Proof.
  induction rest as [|i rest IH]; intros s Hpc Hkeys Hdup Hnew Hok; cbn.
  { rewrite app_nil_r. repeat split; [done|lia]. }
  apply Forall_cons in Hkeys as [Hkey Hkeys].
  cbn in Hdup. apply NoDup_cons in Hdup as [Hi Hdup].
  destruct (Hnew (key_of i)) as [Hraw Hmark]; [cbn; left|].
  rewrite (step_fresh_issue issues page_start i rest s) by done.
  set (s1 := State _ _ _ _ _ _ _).
  destruct (IH s1) as (Hpc' & Hg' & Hw' & Hsize & Hraw' & Hmarks); [done..| |done|].
  { intros k Hk. destruct (Hnew k) as [Hr Hm]; [cbn; by right|].
    assert (k ≠ key_of i) by (intros ->; done).
    subst s1. cbn. rewrite lookup_insert_ne by done. split; [done|].
    rewrite keys_of_mark_downloaded. rewrite decide_True by done.
    rewrite bool_decide_eq_false_2 by done.
    intros [?|?%list_elem_of_singleton]%elem_of_app; done. }
  split; [done|]. split; [done|]. split; [done|].
  split; [|split].
  - rewrite Hsize. subst s1. cbn. rewrite map_size_insert_None by done. lia.
  - intros k Hk. apply not_elem_of_cons in Hk as [Hne Hk].
    rewrite Hraw' by done. subst s1. cbn. by rewrite lookup_insert_ne.
  - rewrite Hmarks. subst s1. cbn. rewrite keys_of_mark_downloaded.
    rewrite decide_True by done. rewrite bool_decide_eq_false_2 by done.
    by rewrite <- app_assoc.
Qed.

(** The offset of the page that the generator yields next. *)
Definition next_start (g : pages_gen) : Z :=
  match pg_pc g with
  | PagesYielded issues => pg_current g + len issues
  | _ => pg_current g
  end.

Lemma pages_fetch_yields g w p g' w' :
  pages_fetch (jira E) (scraper C) g w = (Return (Some p), g', w') →
  page_start p = pg_current g
  ∧ pg_pc g' = PagesYielded (page_issues p) ∧ pg_current g' = pg_current g.
Proof.
  unfold pages_fetch. destruct (_request _ _ _ w) as [[data|e|e'|] w1]; [|done..].
  destruct (body_issues data) as [|i l]; [done|]. by intros [= <- <- <-].
Qed.

Lemma pages_next_yields g w p g' w' :
  pages_next (jira E) (scraper C) g w = (Return (Some p), g', w') →
  page_start p = next_start g
  ∧ pg_pc g' = PagesYielded (page_issues p) ∧ pg_current g' = page_start p.
Proof.
  unfold pages_next, next_start. destruct (pg_pc g) as [|issues|] eqn:Hpc.
  - intros (-> & ? & ->)%pages_fetch_yields. done.
  - destruct (cap_reached _ _); [done|]. destruct (past_total _ _); [done|].
    intros (-> & ? & ->)%pages_fetch_yields. done.
  - done.
Qed.

(** What holds between the steps of a run: the stored offset is not beyond
    the page in hand, nor beyond the page to come. *)
Definition inv (s : state) : Prop :=
  match st_pc s with
  | Fetching => get_last_start project (st_checkpoint s) ≤ next_start (st_gen s)
  | Processing issues page_start rest =>
      pg_pc (st_gen s) = PagesYielded issues ∧ pg_current (st_gen s) = page_start
      ∧ get_last_start project (st_checkpoint s) ≤ page_start + len issues
  | _ => True
  end.

Lemma inv_start f raw w : inv (start C project f raw w).
Proof. unfold inv, start, next_start. cbn. lia. Qed.

Lemma step_checkpoint s :
  inv s →
  inv (step E C project s)
  ∧ ∀ q, get_last_start q (st_checkpoint s) ≤ get_last_start q (st_checkpoint (step E C project s))
         ∧ keys_of q (st_checkpoint s) ⊆ keys_of q (st_checkpoint (step E C project s)).
Proof.
  unfold inv at 1. unfold step. destruct (st_pc s) as [|issues page_start rest| |e|e'|] eqn:Hpc.
  - intros Hle.
    destruct (pages_next _ _ _ _) as [[[[p|]|e|e'|] g] w] eqn:Hn; unfold inv; cbn;
      try (split; [done|]; intros q; split; [lia|done]).
    apply pages_next_yields in Hn as (Hs & Hy & Hc).
    split; [|intros q; split; [lia|done]].
    split; [done|]. split; [done|]. unfold len. lia.
  - intros (Hy & Hc & Hle). destruct rest as [|i rest].
    + unfold inv; cbn. split.
      * rewrite get_last_start_set_last_start, decide_True by done.
        unfold next_start. rewrite Hy, Hc. lia.
      * intros q. rewrite get_last_start_set_last_start, keys_of_set_last_start.
        split; [|done]. destruct (decide (project = q)) as [<-|]; lia.
    + pose proof (process_issue_checkpoint i s) as Hpi.
      destruct (process_issue E project i s) as [[[f raw] writes] count]. cbn in Hpi.
      unfold inv; cbn.
      assert (Hq : ∀ q, get_last_start q f = get_last_start q (st_checkpoint s)
                        ∧ keys_of q (st_checkpoint s) ⊆ keys_of q f).
      { intros q. destruct Hpi as [->| ->]; [done|].
        rewrite get_last_start_mark_downloaded. split; [done|].
        rewrite keys_of_mark_downloaded. destruct (decide (project = q)) as [<-|]; [|done].
        destruct (bool_decide _); [done|]. by apply sublist_subseteq, sublist_inserts_r. }
      split.
      * split; [done|]. split; [done|]. by rewrite (proj1 (Hq project)).
      * intros q. destruct (Hq q) as [-> ?]. by split.
  - intros _. unfold inv. rewrite Hpc. split; [done|]. intros q. by split.
  - intros _. unfold inv. rewrite Hpc. split; [done|]. intros q. by split.
  - intros _. unfold inv. rewrite Hpc. split; [done|]. intros q. by split.
  - intros _. unfold inv. rewrite Hpc. split; [done|]. intros q. by split.
Qed.

Lemma run_inv n : ∀ s, inv s → inv (run E C project n s).
Proof.
  induction n as [|n IH]; intros s Hs; [done|]. cbn. apply IH. by apply step_checkpoint.
Qed.

Lemma run_checkpoint k : ∀ s q,
  inv s →
  get_last_start q (st_checkpoint s) ≤ get_last_start q (st_checkpoint (run E C project k s))
  ∧ keys_of q (st_checkpoint s) ⊆ keys_of q (st_checkpoint (run E C project k s)).
Proof.
  induction k as [|k IH]; intros s q Hs; [done|]. cbn.
  destruct (step_checkpoint s Hs) as [Hs' Hq]. destruct (Hq q) as [Hl Hk].
  destruct (IH (step E C project s) q Hs') as [Hl' Hk'].
  split; [lia|by etrans].
Qed.

(** The three steps that are not about one issue. *)
Lemma step_fetch_page s p g w :
  st_pc s = Fetching →
  pages_next (jira E) (scraper C) (st_gen s) (st_world s) = (Return (Some p), g, w) →
  step E C project s
  = State g w (st_checkpoint s) (st_raw s) (st_writes s) (st_count s)
          (Processing (page_issues p) (page_start p) (page_issues p)).
Proof. intros Hpc Hn. unfold step. by rewrite Hpc, Hn. Qed.

Lemma step_fetch_end s g w :
  st_pc s = Fetching →
  pages_next (jira E) (scraper C) (st_gen s) (st_world s) = (Return None, g, w) →
  step E C project s
  = State g w (st_checkpoint s) (st_raw s) (st_writes s) (st_count s) Finished.
Proof. intros Hpc Hn. unfold step. by rewrite Hpc, Hn. Qed.

Lemma step_page_end s issues page_start :
  st_pc s = Processing issues page_start [] →
  step E C project s
  = State (st_gen s) (st_world s)
          (set_last_start project (page_start + len issues) (st_checkpoint s))
          (st_raw s) (st_writes s) (st_count s) Fetching.
Proof. intros Hpc. unfold step. by rewrite Hpc. Qed.

(** A whole page of new issues, from the [next()] that yields it to its
    page checkpoint. *)
Lemma run_fresh_page s p g w :
  st_pc s = Fetching →
  pages_next (jira E) (scraper C) (st_gen s) (st_world s) = (Return (Some p), g, w) →
  Forall (λ i, truthy (issue_key i) = true) (page_issues p) →
  NoDup (key_of <$> page_issues p) →
  (∀ k, k ∈ key_of <$> page_issues p →
        st_raw s !! k = None ∧ k ∉ keys_of project (st_checkpoint s)) →
  (∀ n k, write_ok E n k = true) →
  let s' := run E C project (S (S (length (page_issues p)))) s in
  st_pc s' = Fetching ∧ st_gen s' = g ∧ st_world s' = w
  ∧ size (st_raw s') = (size (st_raw s) + length (page_issues p))%nat
  ∧ (∀ k, k ∉ key_of <$> page_issues p → st_raw s' !! k = st_raw s !! k)
  ∧ keys_of project (st_checkpoint s')
    = keys_of project (st_checkpoint s) ++ (key_of <$> page_issues p)
  ∧ get_last_start project (st_checkpoint s') = page_start p + len (page_issues p).
Proof.
  intros Hpc Hn Hkeys Hdup Hnew Hok s'. subst s'.
  rewrite run_S. change (run E C project (S ?n) s) with (run E C project n (step E C project s)).
  rewrite (step_fetch_page s p g w Hpc Hn).
  set (s1 := State _ _ _ _ _ _ _).
  destruct (run_fresh_issues (page_issues p) (page_start p) (page_issues p) s1)
    as (Hpc2 & Hg2 & Hw2 & Hsize2 & Hraw2 & Hmarks2); [done|done|done|done|done|].
  rewrite (step_page_end _ _ _ Hpc2). state_fields.
  rewrite keys_of_set_last_start, get_last_start_set_last_start, decide_True by done.
  done.
Qed.

End Loop.

(** C7.  In a run of the scraping loop for a project, started on any
    checkpoint file from the offset it holds, neither the stored offset of a
    collection ever decreases nor its list of downloaded keys ever loses an
    element: each is, after [n + k] steps, at least what it was after [n]. *)
Theorem checkpoint_only_grows (E : env) (C : config) (project : string) (f : file)
    (raw : gmap string issue) (w : world) (q : string) (n k : nat) :
  let s := run E C project n (start C project f raw w) in
  let s' := run E C project (n + k) (start C project f raw w) in
  get_last_start q (st_checkpoint s) ≤ get_last_start q (st_checkpoint s')
  ∧ keys_of q (st_checkpoint s) ⊆ keys_of q (st_checkpoint s').
Proof.
  cbv zeta. rewrite run_add. apply run_checkpoint, run_inv, inv_start.
Qed.

Lemma pages_list_cons E self fuel g w p ps r w' :
  pages_list E self fuel g w = (p :: ps, r, w') →
  ∃ fuel' g1 w1, fuel = S fuel'
    ∧ pages_next E self g w = (Return (Some p), g1, w1)
    ∧ pages_list E self fuel' g1 w1 = (ps, r, w').
Proof.
  destruct fuel as [|fuel]; [done|]. cbn [pages_list].
  destruct (pages_next E self g w) as [[[[p1|]|e|e'|] g1] w1]; try done.
  destruct (pages_list E self fuel g1 w1) as [[ps1 r1] w2] eqn:Hl.
  intros [= <- <- <- <-]. by exists fuel, g1, w1.
Qed.

Lemma pages_list_end E self fuel g w w' :
  pages_list E self fuel g w = ([], Return tt, w') →
  ∃ g1, pages_next E self g w = (Return None, g1, w').
Proof.
  destruct fuel as [|fuel]; [done|]. cbn [pages_list].
  destruct (pages_next E self g w) as [[[[p1|]|e|e'|] g1] w1]; try done.
  - by destruct (pages_list E self fuel g1 w1) as [[ps1 r1] w2].
  - intros [= <-]. by exists g1.
Qed.

(** C2.  Whatever the checkpoint holds, and so however many issues of the
    page are skipped, the loop leaves a page with the project's offset set
    to [page_start + len(issues)].  And a run resumed at offset 10, with 10
    files in the raw directory, over two pages of 10 new issues each (at
    offsets 10 and 20), ends with 30 files and the offset at 30.  (New: the
    issues carry keys that are pairwise distinct, not on disk and not
    marked; the writes go through.) *)
Theorem page_checkpoint_is_physical_offset (E : env) (C : config) (project : string) :
  (∀ s issues page_start rest,
     st_pc s = Processing issues page_start rest →
     let s' := process_page E C project s in
     st_pc s' = Fetching
     ∧ get_last_start project (st_checkpoint s') = page_start + len issues)
  ∧ (∀ f raw w fuel page1 page2 total1 total2 w',
       get_last_start project f = 10 →
       size raw = 10%nat →
       length page1 = 10%nat → length page2 = 10%nat →
       pages_list (jira E) (scraper C) fuel
         (fetch_issue_pages_for_project project (page_size C) (max_issues C) 10) w
       = ([Page page1 10 total1; Page page2 20 total2], Return tt, w') →
       Forall (λ i, truthy (issue_key i) = true) (page1 ++ page2) →
       NoDup (key_of <$> (page1 ++ page2)) →
       (∀ k, k ∈ key_of <$> (page1 ++ page2) → raw !! k = None ∧ k ∉ keys_of project f) →
       (∀ n k, write_ok E n k = true) →
       let s' := run E C project 25 (start C project f raw w) in
       st_pc s' = Finished
       ∧ size (st_raw s') = 30%nat
       ∧ get_last_start project (st_checkpoint s') = 30).
Proof.
  split.
  - intros s issues page_start rest Hpc. unfold process_page. rewrite Hpc.
    rewrite run_S.
    destruct (run_issues E C project issues page_start rest s Hpc) as (Hpc' & _).
    unfold step. rewrite Hpc'. cbn. split; [done|].
    by rewrite get_last_start_set_last_start, decide_True.
  - intros f raw w fuel page1 page2 total1 total2 w' Hf Hraw Hl1 Hl2 Hpages
      Hkeys Hdup Hnew Hok.
    apply pages_list_cons in Hpages as (fuel1 & g1 & w1 & _ & Hn1 & Hpages).
    apply pages_list_cons in Hpages as (fuel2 & g2 & w2 & _ & Hn2 & Hpages).
    apply pages_list_end in Hpages as (g3 & Hn3).
    apply Forall_app in Hkeys as [Hkeys1 Hkeys2].
    rewrite fmap_app in Hdup, Hnew.
    apply NoDup_app in Hdup as (Hdup1 & Hdisj & Hdup2).
    change 25%nat with (12 + (12 + 1))%nat. rewrite !run_add.
    (* the first page *)
    destruct (run_fresh_page E C project (start C project f raw w)
                (Page page1 10 total1) g1 w1)
      as (Hpc1 & Hg1 & Hw1 & Hsize1 & Hraw1 & Hmarks1 & _);
      [done|by unfold start; state_fields; rewrite Hf|done|done| |done|].
    { intros k Hk. apply Hnew, elem_of_app. by left. }
    cbn [page_issues] in Hpc1, Hg1, Hw1, Hsize1, Hraw1, Hmarks1.
    rewrite Hl1 in Hpc1, Hg1, Hw1, Hsize1, Hraw1, Hmarks1.
    change (st_raw (start C project f raw w)) with raw in Hsize1, Hraw1.
    change (st_checkpoint (start C project f raw w)) with f in Hmarks1.
    remember (run E C project 12 (start C project f raw w)) as s1 eqn:Es1. clear Es1.
    (* the second page *)
    destruct (run_fresh_page E C project s1 (Page page2 20 total2) g2 w2)
      as (Hpc2 & Hg2 & Hw2 & Hsize2 & _ & _ & Hlast2);
      [done|by rewrite Hg1, Hw1|done|done| |done|].
    { intros k Hk. cbn [page_issues] in Hk.
      assert (Hk1 : k ∉ key_of <$> page1) by (intros ?; by eapply Hdisj).
      destruct (Hnew k) as [Hr Hm]; [apply elem_of_app; by right|].
      rewrite (Hraw1 k Hk1). split; [exact Hr|].
      rewrite Hmarks1. intros [?|?]%elem_of_app; done. }
    cbn [page_issues page_start] in Hpc2, Hg2, Hw2, Hsize2, Hlast2.
    unfold len in Hlast2.
    rewrite Hl2 in Hpc2, Hg2, Hw2, Hsize2, Hlast2.
    remember (run E C project 12 s1) as s2 eqn:Es2. clear Es2.
    (* the generator ends *)
    cbv zeta. change (run E C project 1 s2) with (step E C project s2).
    rewrite (step_fetch_end E C project s2 g3 w'); [|done|by rewrite Hg2, Hw2].
    state_fields. split; [done|]. split.
    + rewrite Hsize2, Hsize1, Hraw. done.
    + rewrite Hlast2. done.
Qed.

(** The scenario of [test_resume_after_partial_run]: project TEST, issues
    TEST-1 to TEST-30 served ten per page, the first ten already on disk and
    the checkpoint at offset 10. *)
Definition test_issue (n : nat) : issue :=
  Issue (Some ("TEST-" +:+ pretty n)) "desc".

Definition test_issues : list issue := test_issue <$> seq 1 30.

Definition test_env : env := Env (JiraProps.serves test_issues) (λ _ _, true).

Definition test_config : config := Config 10 None (Scraper 5 1 0).

Definition test_raw : gmap string issue :=
  list_to_map ((λ i, (key_of i, i)) <$> take 10 test_issues).

Definition test_checkpoint : file := set_last_start "TEST" 10 Missing.
Lemma page_checkpoint_is_physical_offset_witness :
  let s' := run test_env test_config "TEST" 25
              (start test_config "TEST" test_checkpoint test_raw world0) in
  (st_pc s' = Finished ∧ size (st_raw s') = 30%nat
   ∧ get_last_start "TEST" (st_checkpoint s') = 30)
  ∧ (let s := State (fetch_issue_pages_for_project "TEST" 10 None 0) world0 Corrupt ∅ 0 0
                (Processing (take 3 test_issues) 40 (take 3 test_issues)) in
     st_pc (process_page test_env test_config "TEST" s) = Fetching
     ∧ get_last_start "TEST" (st_checkpoint (process_page test_env test_config "TEST" s))
       = 40 + len (take 3 test_issues)).
Proof.
  destruct (page_checkpoint_is_physical_offset test_env test_config "TEST") as [Hpage Hrun].
  split.
  - apply (Hrun test_checkpoint test_raw world0 3%nat
             (take 10 (drop 10 test_issues)) (drop 20 test_issues) (Some 30) (Some 30)
             (World 2 0 0 [EvGet (Request search_url "TEST" 10 10);
                           EvGet (Request search_url "TEST" 20 10)])).
    + by vm_compute.
    + by vm_compute.
    + reflexivity.
    + reflexivity.
    + by vm_compute.
    + repeat constructor.
    + apply (bool_decide_unpack _). by vm_compute.
    + intros k Hk. vm_compute in Hk.
      repeat (apply elem_of_cons in Hk as [->|Hk];
              [split; [by vm_compute|apply not_elem_of_nil]|]).
      by apply elem_of_nil in Hk.
    + done.
  - apply (Hpage _ _ _ (take 3 test_issues)). reflexivity.
Defined.

End CliProps.

(** ** The module lock *)
Module LockingProps.
Import Checkpoint Locking.

Lemma init_exclusive f ops : write_exclusive (init f ops).
Proof.
  intros i t Hi. unfold init in *. cbn in *.
  apply list_lookup_fmap_Some in Hi as (o & -> & _). cbn. split; done.
Qed.

Lemma thread_insert (ts : list thread) i j t t' :
  ts !! i = Some t →
  <[i := t']> ts !! j = (if decide (i = j) then Some t' else ts !! j).
Proof.
  intros Hi. destruct (decide (i = j)) as [<-|Hne].
  - apply list_lookup_insert_eq. by eapply lookup_lt_Some.
  - by apply list_lookup_insert_ne.
Qed.

(** A step keeps the lock with the threads inside [with _LOCK]. *)
Lemma tstep_exclusive i s s' :
  write_exclusive s → tstep i s = Some s' → write_exclusive s'.
Proof.
  intros Hinv. unfold tstep.
  destruct (sys_threads s !! i) as [[o|data|data| |]|] eqn:Hi; try done.
  - intros [= <-] j t. cbn. rewrite (thread_insert _ _ _ _ _ Hi).
    destruct (decide (i = j)) as [<-|Hne]; [|apply Hinv].
    intros [= <-]. cbn. destruct (Hinv i _ Hi) as [_ Hl]. split; [done|]. intros Hs. by apply Hl.
  - destruct (sys_lock s) as [h|] eqn:Hlock; [done|].
    intros [= <-] j t. cbn. rewrite (thread_insert _ _ _ _ _ Hi).
    destruct (decide (i = j)) as [<-|Hne].
    + intros [= <-]. done.
    + intros Hj. destruct (Hinv j t Hj) as [Hc _]. rewrite Hlock in Hc.
      split; [intros Ht; by apply Hc in Ht|]. intros [= ->]. done.
  - intros [= <-] j t. cbn. rewrite (thread_insert _ _ _ _ _ Hi).
    destruct (decide (i = j)) as [<-|Hne]; [|apply Hinv].
    intros [= <-]. cbn. destruct (Hinv i _ Hi) as [Hl _]. split; [|done]. intros _. by apply Hl.
  - intros [= <-] j t. cbn. rewrite (thread_insert _ _ _ _ _ Hi).
    destruct (Hinv i _ Hi) as [Hl _]. specialize (Hl eq_refl).
    destruct (decide (i = j)) as [<-|Hne].
    + intros [= <-]. done.
    + intros Hj. destruct (Hinv j t Hj) as [Hc _]. rewrite Hl in Hc.
      split; [|done]. intros Ht. apply Hc in Ht. congruence.
Qed.

Lemma exec_exclusive sched : ∀ s s',
  write_exclusive s → exec sched s = Some s' → write_exclusive s'.
Proof.
  induction sched as [|i sched IH]; intros s s' Hinv; cbn.
  - by intros [= <-].
  - destruct (tstep i s) as [s1|] eqn:Hstep; [|done].
    apply IH. by eapply tstep_exclusive.
Qed.

(** Two calls of [mark_downloaded] for the same project, no file yet. *)
Definition two_marks : sys :=
  init Missing [MarkDownloaded "P" "A"; MarkDownloaded "P" "B"].

(** C5, as the claim has it, fails.  After the read of thread 0 the thread
    is between its read and its write without holding the lock.  And in the
    schedule where both threads read before either writes, both calls
    return and the key of thread 0 is lost, whereas one call after the
    other records both keys. *)
Lemma read_is_outside_the_lock :
  (∃ s, exec [0%nat] two_marks = Some s ∧ ¬ rmw_locked s)
  ∧ (∃ s, exec [0; 1; 0; 0; 0; 1; 1; 1]%nat two_marks = Some s
          ∧ sys_threads s = [Returned; Returned]
          ∧ keys_of "P" (sys_file s) = ["B"])
  ∧ (∃ s, exec [0; 0; 0; 0; 1; 1; 1; 1]%nat two_marks = Some s
          ∧ sys_threads s = [Returned; Returned]
          ∧ keys_of "P" (sys_file s) = ["A"; "B"]).
Proof.
  split; [|split].
  - eexists. split; [reflexivity|]. intros Hlocked.
    specialize (Hlocked 0%nat _ eq_refl eq_refl). discriminate Hlocked.
  - eexists. split; [reflexivity|]. split; [reflexivity|]. by vm_compute.
  - eexists. split; [reflexivity|]. split; [reflexivity|]. by vm_compute.
Qed.

(** C5, amended.  A mutating call reads the whole file and mutates its copy
    without the lock, and holds the lock for the write-back alone.  So in
    every state that threads making such calls can reach, the lock is held
    by exactly the threads inside [with _LOCK], no two threads are there
    together, and a call that runs alone leaves in the file the store it
    read, mutated: what [mark_downloaded] and [set_last_start] compute. *)
Theorem lock_covers_the_write_only (f : file) (ops : list op) (sched : list nat) (s : sys) :
  exec sched (init f ops) = Some s →
  write_exclusive s
  ∧ (∀ i j ti tj, sys_threads s !! i = Some ti → sys_threads s !! j = Some tj →
                  in_critical ti = true → in_critical tj = true → i = j)
  ∧ (∀ o, ∃ s1, exec [0%nat] (init f [o]) = Some s1 ∧ sys_lock s1 = None
                ∧ sys_threads s1 = [Saving (mutate o (load_checkpoint f))])
  ∧ (∀ project issue_key,
       exec [0; 0; 0; 0]%nat (init f [MarkDownloaded project issue_key])
       = Some (Sys (mark_downloaded project issue_key f) None [Returned]))
  ∧ (∀ project start_at,
       exec [0; 0; 0; 0]%nat (init f [SetLastStart project start_at])
       = Some (Sys (set_last_start project start_at f) None [Returned])).
Proof.
  intros Hexec.
  assert (Hinv : write_exclusive s).
  { eapply exec_exclusive; [apply init_exclusive|exact Hexec]. }
  split; [done|]. split; [|split; [|split]].
  - intros i j ti tj Hi Hj Hci Hcj.
    apply (Hinv i ti Hi) in Hci. apply (Hinv j tj Hj) in Hcj. congruence.
  - intros o. eexists. split; [reflexivity|]. done.
  - done.
  - done.
Qed.

Lemma lock_covers_the_write_only_witness :
  ∃ s, exec [0; 1; 0; 0]%nat two_marks = Some s
       ∧ write_exclusive s
       ∧ sys_lock s = Some 0%nat
       ∧ sys_threads s = [Written; Saving (mark_downloaded_in "P" "B" empty_checkpoint)]
       ∧ tstep 1 s = None.
Proof.
  eexists. split; [reflexivity|].
  split; [|split; [reflexivity|split; reflexivity]].
  apply (lock_covers_the_write_only Missing
           [MarkDownloaded "P" "A"; MarkDownloaded "P" "B"] [0; 1; 0; 0]%nat).
  reflexivity.
Defined.

End LockingProps.

(** ** The document transformer *)
Module TransformProps.
Import Transform.
Local Open Scope N_scope.

(** *** [strip] *)

Lemma lstrip_suffix s : ∃ k, s = k ++ lstrip s ∧ Forall (λ c, isspace c = true) k.
Proof.
  induction s as [|c s (k & Hk & Hws)]; [by exists []|]. cbn.
  destruct (isspace c) eqn:Hc.
  - exists (c :: k). split; [by rewrite Hk at 1|]. by constructor.
  - by exists [].
Qed.

Lemma lstrip_head s c : head (lstrip s) = Some c → isspace c = false.
Proof.
  induction s as [|d s IH]; [done|]. cbn.
  destruct (isspace d) eqn:Hd; [done|]. cbn. by intros [= <-].
Qed.

Lemma rstrip_prefix s : ∃ k, s = rstrip s ++ k ∧ Forall (λ c, isspace c = true) k.
Proof.
  unfold rstrip. destruct (lstrip_suffix (reverse s)) as (k & Hk & Hws).
  exists (reverse k). split; [|by apply Forall_reverse].
  rewrite <- reverse_app, <- Hk. by rewrite reverse_involutive.
Qed.

Lemma rstrip_last s c : last (rstrip s) = Some c → isspace c = false.
Proof.
  unfold rstrip. rewrite last_reverse. apply lstrip_head.
Qed.

(** A stripped string neither starts nor ends with white space. *)
Lemma strip_trimmed s c :
  (head (strip s) = Some c → isspace c = false)
  ∧ (last (strip s) = Some c → isspace c = false).
Proof.
  unfold strip. split; [|apply rstrip_last].
  destruct (rstrip_prefix (lstrip s)) as (k & Hk & _).
  intros Hh. apply (lstrip_head s). rewrite Hk.
  destruct (rstrip (lstrip s)); [done|]. done.
Qed.

(** *** [rsplit(" ", 1)[0]] *)

Lemma before_last_space_None s : before_last_space s = None → SPACE ∉ s.
Proof.
  induction s as [|c s IH]; cbn; [intros _; apply not_elem_of_nil|].
  destruct (before_last_space s) as [p|]; [done|].
  destruct (c =? SPACE) eqn:Hc; [done|]. intros _.
  apply not_elem_of_cons. split; [|by apply IH].
  apply N.eqb_neq in Hc. congruence.
Qed.

Lemma before_last_space_Some s p :
  before_last_space s = Some p → ∃ word, s = p ++ SPACE :: word ∧ SPACE ∉ word.
Proof.
  revert p. induction s as [|c s IH]; intros p; cbn; [done|].
  destruct (before_last_space s) as [q|] eqn:Hq.
  - intros [= <-]. destruct (IH q eq_refl) as (word & -> & Hw). by exists word.
  - destruct (c =? SPACE) eqn:Hc; [|done]. intros [= <-].
    apply N.eqb_eq in Hc as ->. exists s. split; [done|].
    by apply before_last_space_None.
Qed.

(** *** [extract_short_summary] *)

Lemma paragraphs_first_line lines :
  head (filter (λ p, p ≠ []) (strip <$> lines))
  = strip <$> head (filter (λ l, strip l ≠ []) lines).
Proof.
  induction lines as [|l lines IH]; [done|].
  rewrite fmap_cons, !filter_cons. cbv beta.
  destruct (decide (strip l ≠ [])); [done|]. apply IH.
Qed.

(** C8 as stated fails: the line ["  hi"] is the first non-blank line of the
    text ["  hi"] and is 4 characters long, yet what comes back is ["hi"]. *)
Lemma short_summary_strips_the_line :
  first_nonblank_line (py "  hi") = Some (py "  hi")
  ∧ (length (py "  hi") ≤ 200)%nat
  ∧ extract_short_summary (py "  hi") MAX_CHARS = py "hi"
  ∧ extract_short_summary (py "  hi") MAX_CHARS ≠ py "  hi".
Proof.
  split; [by vm_compute|]. split; [vm_compute; lia|]. split; by vm_compute.
Qed.

(** C8, amended.  [extract_short_summary] returns the empty string for the
    empty text.  When the text has a non-blank line, let [first] be the
    first such line stripped of leading and trailing white space: the
    result is [first] when it has at most 200 characters; otherwise it is
    [cut ++ "..."], where [cut] is what precedes the last space among the
    first 200 characters of [first] (all 200 when there is no space among
    them), a prefix of [first] of at most 200 characters.  When the text is
    not empty and has no non-blank line, the result is its first 200
    characters. *)
Theorem short_summary_shape (text : str) :
  let summary := extract_short_summary text MAX_CHARS in
  (text = [] → summary = [])
  ∧ (∀ line, first_nonblank_line text = Some line →
       let first := strip line in
       ((length first ≤ 200)%nat → summary = first)
       ∧ ((200 < length first)%nat →
          ∃ cut, summary = cut ++ py "..."
                 ∧ (length cut ≤ 200)%nat ∧ (cut `prefix_of` first)
                 ∧ (((SPACE ∉ take 200 first) ∧ cut = take 200 first)
                    ∨ ∃ word, take 200 first = cut ++ SPACE :: word ∧ SPACE ∉ word)))
  ∧ (text ≠ [] → first_nonblank_line text = None → summary = take 200 text).
Proof.
  cbv zeta. split; [by intros ->|].
  assert (Hhead : head (paragraphs_of text) = strip <$> first_nonblank_line text).
  { apply paragraphs_first_line. }
  split.
  - intros line Hline. rewrite Hline in Hhead. cbn in Hhead.
    assert (Hne : text ≠ []) by (intros ->; done).
    unfold extract_short_summary. destruct text as [|c text]; [done|].
    destruct (paragraphs_of (c :: text)) as [|first rest]; [done|].
    cbn in Hhead. injection Hhead as <-.
    unfold MAX_CHARS. split.
    + intros Hlen. by replace (Z.of_nat (length first) <=? 200)%Z with true by lia.
    + intros Hlen. replace (Z.of_nat (length first) <=? 200)%Z with false by lia.
      change (slice_to 200 first) with (take 200 first).
      exists (rsplit_space_head (take 200 first)). split; [done|].
      unfold rsplit_space_head.
      destruct (before_last_space (take 200 first)) as [p|] eqn:Hp; cbn.
      * destruct (before_last_space_Some _ _ Hp) as (word & Hw & Hnw).
        assert (Hpre : p `prefix_of` take 200 first) by (rewrite Hw; by apply prefix_app_r).
        split; [|split].
        -- apply prefix_length in Hpre. rewrite length_take in Hpre. lia.
        -- etrans; [exact Hpre|]. apply prefix_take.
        -- right. by exists word.
      * split; [rewrite length_take; lia|]. split; [apply prefix_take|].
        left. split; [|done]. by apply before_last_space_None.
  - intros Hne Hnone. rewrite Hnone in Hhead. cbn in Hhead.
    unfold extract_short_summary. destruct text as [|c text]; [done|].
    destruct (paragraphs_of (c :: text)) as [|first rest]; [|done].
    done.
Qed.

(** A first line of 250 characters, fifty words of four letters. *)
Definition long_line : str := mjoin (replicate 50 (py "word ")).

Lemma short_summary_shape_witness :
  extract_short_summary [] MAX_CHARS = []
  ∧ extract_short_summary (py " hello " ++ [NL] ++ py "world") MAX_CHARS = py "hello"
  ∧ (∃ cut, extract_short_summary long_line MAX_CHARS = cut ++ py "..."
            ∧ (length cut ≤ 200)%nat ∧ (cut `prefix_of` strip long_line)
            ∧ (((SPACE ∉ take 200 (strip long_line)) ∧ cut = take 200 (strip long_line))
               ∨ ∃ word, take 200 (strip long_line) = cut ++ SPACE :: word ∧ SPACE ∉ word))
  ∧ extract_short_summary (py "   ") MAX_CHARS = take 200 (py "   ").
Proof.
  split; [|split; [|split]].
  - destruct (short_summary_shape []) as (Hempty & _). by apply Hempty.
  - destruct (short_summary_shape (py " hello " ++ [NL] ++ py "world")) as (_ & Hline & _).
    destruct (Hline (py " hello ")) as [Hshort _]; [by vm_compute|].
    apply Hshort. vm_compute. lia.
  - destruct (short_summary_shape long_line) as (_ & Hline & _).
    destruct (Hline long_line) as [_ Hlong]; [by vm_compute|].
    apply Hlong. vm_compute. lia.
  - destruct (short_summary_shape (py "   ")) as (_ & _ & Hblank).
    apply Hblank; by vm_compute.
Defined.

(** *** The two white space rules *)

Lemma last_cons_ne {A} (c : A) (a : list A) : a ≠ [] → last (c :: a) = last a.
Proof. by destruct a. Qed.

Lemma sub_newlines_app a : ∀ run x,
  last a ≠ Some NL → (a = [] → run = 0%nat) →
  sub_newlines run (a ++ x) = sub_newlines run a ++ sub_newlines 0 x.
Proof.
  induction a as [|c a IH]; intros run x Hlast Hrun; [by rewrite Hrun|].
  cbn [app sub_newlines]. destruct (c =? NL) eqn:Hc.
  - apply N.eqb_eq in Hc as ->.
    assert (Ha : a ≠ []) by (intros ->; done).
    rewrite (last_cons_ne _ _ Ha) in Hlast.
    rewrite (IH (S run) x) by done. by destruct (run <? 2)%nat.
  - rewrite (IH 0%nat x); [done| |done].
    destruct a as [|d a]; [done|]. by rewrite (last_cons_ne c (d :: a)) in Hlast.
Qed.

Lemma sub_newlines_fresh run b :
  head b ≠ Some NL → sub_newlines run b = sub_newlines 0 b.
Proof.
  destruct b as [|c b]; [done|]. cbn. intros Hc.
  destruct (c =? NL) eqn:Hcn; [|done]. apply N.eqb_eq in Hcn. congruence.
Qed.

Lemma sub_newlines_run n : ∀ run b,
  head b ≠ Some NL →
  sub_newlines run (replicate n NL ++ b)
  = replicate (((run + n) `min` 2) - (run `min` 2))%nat NL ++ sub_newlines 0 b.
Proof.
  induction n as [|n IH]; intros run b Hb.
  - cbn [replicate app]. replace ((run + 0) `min` 2 - run `min` 2)%nat with 0%nat by lia.
    by apply sub_newlines_fresh.
  - cbn [replicate app sub_newlines]. rewrite N.eqb_refl, (IH (S run) b Hb).
    destruct (run <? 2)%nat eqn:Hr.
    + apply Nat.ltb_lt in Hr.
      replace ((run + S n) `min` 2 - run `min` 2)%nat
        with (S ((S run + n) `min` 2 - S run `min` 2)) by lia.
      done.
    + apply Nat.ltb_ge in Hr.
      replace ((run + S n) `min` 2 - run `min` 2)%nat with 0%nat by lia.
      replace ((S run + n) `min` 2 - S run `min` 2)%nat with 0%nat by lia.
      done.
Qed.

Lemma sub_spaces_app a : ∀ in_run x,
  (∀ c, last a = Some c → isspace c = false) → (a = [] → in_run = false) →
  sub_spaces in_run (a ++ x) = sub_spaces in_run a ++ sub_spaces false x.
Proof.
  induction a as [|c a IH]; intros in_run x Hlast Hrun; [by rewrite Hrun|].
  cbn [app sub_spaces]. destruct (isspace c) eqn:Hc.
  - assert (Ha : a ≠ []).
    { intros ->. specialize (Hlast c eq_refl). congruence. }
    rewrite (last_cons_ne _ _ Ha) in Hlast.
    rewrite (IH true x) by done. by destruct in_run.
  - rewrite (IH false x); [done| |done].
    destruct a as [|d a]; [done|]. by rewrite (last_cons_ne c (d :: a)) in Hlast.
Qed.

Lemma sub_spaces_fresh in_run b :
  (∀ c, head b = Some c → isspace c = false) →
  sub_spaces in_run b = sub_spaces false b.
Proof.
  destruct b as [|c b]; [done|]. cbn. intros Hc. by rewrite (Hc c eq_refl).
Qed.

Lemma sub_spaces_skip ws : ∀ b,
  Forall (λ c, isspace c = true) ws →
  (∀ c, head b = Some c → isspace c = false) →
  sub_spaces true (ws ++ b) = sub_spaces false b.
Proof.
  induction ws as [|c ws IH]; intros b Hws Hb.
  - by apply sub_spaces_fresh.
  - apply Forall_cons in Hws as [Hc Hws]. cbn [app sub_spaces]. rewrite Hc. by apply IH.
Qed.

(** The structured tree of the specification's example. *)
Definition hi_there : list (str * json) :=
  [(py "type", JStr (py "doc"));
   (py "content",
    JList [JDict [(py "type", JStr (py "paragraph"));
                  (py "content",
                   JList [JDict [(py "type", JStr (py "text"));
                                 (py "text", JStr (py "Hi there"))]])]])].

(** C9 as stated fails on its markup example: the parser hands back the two
    strings [Hello] and [World], [get_text] joins them with one newline, and
    there is no run of newlines to collapse. *)
Lemma two_paragraphs_one_newline :
  html_to_text soup_get_text (HtmlStr (py "<p>Hello</p><p>World</p>"))
  = Some (py "Hello" ++ [NL] ++ py "World")
  ∧ html_to_text soup_get_text (HtmlStr (py "<p>Hello</p><p>World</p>"))
    ≠ Some (py "Hello" ++ [NL; NL] ++ py "World").
Proof. split; by vm_compute. Qed.

(** C9, amended.  On the markup path the text of the library is stripped
    and every run of newlines in it is cut down to at most two, so a run of
    two or more becomes exactly one blank line; the record with description
    [<p>Hello</p><p>World</p>] yields [Hello], one newline, [World].  On the
    tree path the strings collected by the walk are joined, every run of
    white space becomes one space, and the result is stripped, so it neither
    starts nor ends with white space; the tree of the example yields
    [Hi there]. *)
Theorem each_path_keeps_its_rule :
  (∀ get_text s, s ≠ [] →
     html_to_text get_text (HtmlStr s) = Some (sub_newlines 0 (strip (get_text [NL] s))))
  ∧ (∀ a n b, last a ≠ Some NL → head b ≠ Some NL →
       sub_newlines 0 (a ++ replicate n NL ++ b)
       = sub_newlines 0 a ++ replicate (n `min` 2)%nat NL ++ sub_newlines 0 b)
  ∧ html_to_text soup_get_text (HtmlStr (py "<p>Hello</p><p>World</p>"))
    = Some (py "Hello" ++ [NL] ++ py "World")
  ∧ (∀ get_text members, members ≠ [] →
       html_to_text get_text (HtmlDict members)
       = (λ parts, strip (sub_spaces false (mjoin parts))) <$> _walk (JDict members))
  ∧ (∀ a ws b,
       (∀ c, last a = Some c → isspace c = false) →
       ws ≠ [] → Forall (λ c, isspace c = true) ws →
       (∀ c, head b = Some c → isspace c = false) →
       sub_spaces false (a ++ ws ++ b) = sub_spaces false a ++ [SPACE] ++ sub_spaces false b)
  ∧ (∀ s c, (head (strip s) = Some c → isspace c = false)
            ∧ (last (strip s) = Some c → isspace c = false))
  ∧ html_to_text soup_get_text (HtmlDict hi_there) = Some (py "Hi there").
Proof.
  split; [|split; [|split; [|split; [|split; [|split]]]]].
  - intros get_text s Hs. by destruct s.
  - intros a n b Ha Hb.
    rewrite sub_newlines_app by done. rewrite sub_newlines_run by done.
    by replace ((0 + n) `min` 2 - 0 `min` 2)%nat with (n `min` 2)%nat by lia.
  - by vm_compute.
  - intros get_text members Hm. destruct members as [|m members]; [done|].
    unfold html_to_text, _adf_to_text. by destruct (_walk _).
  - intros a ws b Ha Hne Hws Hb.
    rewrite sub_spaces_app by done.
    destruct ws as [|c ws]; [done|]. apply Forall_cons in Hws as [Hc Hws].
    cbn [app sub_spaces]. rewrite Hc. by rewrite sub_spaces_skip.
  - apply strip_trimmed.
  - by vm_compute.
Qed.

Lemma each_path_keeps_its_rule_witness :
  html_to_text soup_get_text (HtmlStr (py "a"))
  = Some (sub_newlines 0 (strip (soup_get_text [NL] (py "a"))))
  ∧ sub_newlines 0 (py "a" ++ replicate 3 NL ++ py "b")
    = sub_newlines 0 (py "a") ++ replicate (3 `min` 2)%nat NL ++ sub_newlines 0 (py "b")
  ∧ html_to_text soup_get_text (HtmlDict hi_there)
    = (λ parts, strip (sub_spaces false (mjoin parts))) <$> _walk (JDict hi_there)
  ∧ sub_spaces false (py "a" ++ [9; NL; SPACE] ++ py "b")
    = sub_spaces false (py "a") ++ [SPACE] ++ sub_spaces false (py "b").
Proof.
  destruct each_path_keeps_its_rule as (Hmarkup & Hnl & _ & Htree & Hsp & _).
  split; [|split; [|split]].
  - by apply Hmarkup.
  - by apply Hnl.
  - by apply Htree.
  - apply Hsp.
    + intros c [= <-]. reflexivity.
    + done.
    + by repeat constructor.
    + intros c [= <-]. reflexivity.
Defined.

End TransformProps.

(** * Further properties *)

(** ** The checkpoint file, operation by operation *)
Module CheckpointExtra.
Import Checkpoint CheckpointProps.

Lemma holds_insert_twice (m : gmap string project_entry) p e e' :
  Checkpoint (Some (<[p := e']> (<[p := e]> m))) = Checkpoint (Some (<[p := e']> m)).
Proof. by rewrite insert_insert_eq. Qed.

(** X1.  [mark_downloaded] is idempotent: marking a key a second time
    leaves the file exactly as the first call left it, so the list of keys
    does not grow. *)
Theorem mark_downloaded_idempotent (project issue_key : string) (f : file) :
  mark_downloaded project issue_key (mark_downloaded project issue_key f)
  = mark_downloaded project issue_key f
  ∧ length (keys_of project (mark_downloaded project issue_key
                               (mark_downloaded project issue_key f)))
    = length (keys_of project (mark_downloaded project issue_key f)).
Proof.
  assert (Heq : mark_downloaded project issue_key (mark_downloaded project issue_key f)
                = mark_downloaded project issue_key f).
  { unfold mark_downloaded, save_checkpoint. f_equal.
    change (load_checkpoint (Holds ?d)) with d.
    generalize (load_checkpoint f). intros data.
    unfold mark_downloaded_in. cbn. rewrite lookup_insert_eq. cbn.
    rewrite insert_insert_eq. do 3 f_equal.
    set (keys := default [] (downloaded_keys _)).
    destruct (bool_decide (issue_key ∈ keys)) eqn:Hin.
    - by rewrite Hin.
    - rewrite bool_decide_eq_true_2; [done|]. apply elem_of_app. right. by left. }
  split; [done|]. by rewrite Heq.
Qed.

(** X2.  After [mark_downloaded(project, key)], [is_downloaded] answers
    [True] for that project and key, and answers as before for every other
    project or key. *)
Theorem is_downloaded_after_mark (project issue_key q k : string) (f : file) :
  is_downloaded q k (mark_downloaded project issue_key f)
  = bool_decide (project = q ∧ issue_key = k) || is_downloaded q k f.
Proof.
  rewrite !is_downloaded_keys_of, keys_of_mark_downloaded.
  destruct (decide (project = q)) as [<-|Hne].
  - destruct (decide (issue_key = k)) as [<-|Hk].
    + rewrite (bool_decide_eq_true_2 (project = project ∧ _)) by done. cbn.
      apply bool_decide_eq_true_2.
      destruct (bool_decide (issue_key ∈ keys_of project f)) eqn:Hin.
      * by apply bool_decide_eq_true in Hin.
      * apply elem_of_app. right. by left.
    + rewrite (bool_decide_eq_false_2 (project = project ∧ _)) by (intros [_ Hk']; contradiction). cbn.
      destruct (bool_decide (issue_key ∈ keys_of project f)); [done|].
      apply bool_decide_ext. rewrite elem_of_app, list_elem_of_singleton.
      split; [intros [?|?]; [done|congruence]|by left].
  - rewrite (bool_decide_eq_false_2 (project = q ∧ _)) by (intros [Hp' _]; contradiction). done.
Qed.

(** X3.  The offset and the keys of a project are stored side by side and
    do not disturb each other: [set_last_start] changes the offset of its
    project to the value given and nothing else, neither another project's
    offset nor any list of keys, and [mark_downloaded] changes no offset. *)
Theorem offsets_and_keys_are_independent (project q issue_key : string) (start_at : Z)
    (f : file) :
  get_last_start project (set_last_start project start_at f) = start_at
  ∧ (project ≠ q →
     get_last_start q (set_last_start project start_at f) = get_last_start q f)
  ∧ keys_of q (set_last_start project start_at f) = keys_of q f
  ∧ is_downloaded q issue_key (set_last_start project start_at f)
    = is_downloaded q issue_key f
  ∧ get_last_start q (mark_downloaded project issue_key f) = get_last_start q f.
Proof.
  split; [|split; [|split; [|split]]].
  - by rewrite get_last_start_set_last_start, decide_True.
  - intros Hne. by rewrite get_last_start_set_last_start, decide_False.
  - apply keys_of_set_last_start.
  - by rewrite !is_downloaded_keys_of, keys_of_set_last_start.
  - apply get_last_start_mark_downloaded.
Qed.

Lemma offsets_and_keys_are_independent_witness :
  get_last_start "B" (set_last_start "A" 7 (set_last_start "B" 3 Missing)) = 3.
Proof.
  destruct (offsets_and_keys_are_independent "A" "B" "" 7 (set_last_start "B" 3 Missing))
    as (_ & Hother & _).
  rewrite Hother by done.
  by destruct (offsets_and_keys_are_independent "B" "B" "" 3 Missing) as (-> & _).
Defined.

(** X4.  [set_last_start] overwrites without looking at the stored value:
    of two calls in a row only the second counts, also when it lowers the
    offset. *)
Theorem set_last_start_overwrites (project : string) (v1 v2 : Z) (f : file) :
  set_last_start project v2 (set_last_start project v1 f) = set_last_start project v2 f.
Proof.
  unfold set_last_start, save_checkpoint. f_equal.
  change (load_checkpoint (Holds ?d)) with d.
  generalize (load_checkpoint f). intros data.
  unfold set_last_start_in. cbn. rewrite lookup_insert_eq. cbn.
  by rewrite insert_insert_eq.
Qed.

(** X5.  [mark_downloaded] never introduces a duplicate: if the keys of
    every project are pairwise distinct before the call they are so after
    it; so are, in particular, the keys built up by any number of calls on a
    file that was missing or unreadable. *)
Theorem mark_downloaded_keeps_keys_distinct (project issue_key q : string) (f : file) :
  NoDup (keys_of q f) → NoDup (keys_of q (mark_downloaded project issue_key f)).
Proof.
  intros Hnd. rewrite keys_of_mark_downloaded.
  destruct (decide (project = q)) as [<-|]; [|done].
  destruct (bool_decide (issue_key ∈ keys_of project f)) eqn:Hin; [done|].
  apply bool_decide_eq_false in Hin.
  apply NoDup_app. split; [done|]. split; [|apply NoDup_singleton].
  intros x Hx ->%list_elem_of_singleton. done.
Qed.

Lemma mark_downloaded_keeps_keys_distinct_witness :
  NoDup (keys_of "P" (mark_downloaded "P" "A" (mark_downloaded "P" "B"
                        (mark_downloaded "P" "A" Corrupt)))).
Proof.
  do 3 apply mark_downloaded_keeps_keys_distinct.
  unfold keys_of, get_project. cbn. rewrite lookup_empty. apply NoDup_nil_2.
Defined.

End CheckpointExtra.

(** ** The scraping loop, issue by issue *)
Module CliExtra.
Import Jira Checkpoint Cli CheckpointProps CliProps.

Section Issues.
Context (E : env) (C : config) (project : string).

(** X6.  An issue whose key is already marked is skipped: the step writes
    no file, asks for no write, marks nothing and does not count it. *)
Theorem downloaded_issue_is_skipped (s : state) (issues rest : list issue)
    (page_start : Z) (i : issue) :
  st_pc s = Processing issues page_start (i :: rest) →
  truthy (issue_key i) = true →
  is_downloaded project (key_of i) (st_checkpoint s) = true →
  step E C project s
  = State (st_gen s) (st_world s) (st_checkpoint s) (st_raw s) (st_writes s) (st_count s)
          (Processing issues page_start rest).
Proof.
  intros Hpc Hkey Hdown. unfold step. rewrite Hpc. unfold process_issue.
  fold (key_of i). by rewrite Hkey, Hdown.
Qed.

(** X7.  An issue without a key (absent, null or empty) is neither written
    nor marked, and yet it is counted among the saved issues. *)
Theorem keyless_issue_is_counted_not_saved (s : state) (issues rest : list issue)
    (page_start : Z) (i : issue) :
  st_pc s = Processing issues page_start (i :: rest) →
  truthy (issue_key i) = false →
  step E C project s
  = State (st_gen s) (st_world s) (st_checkpoint s) (st_raw s) (st_writes s)
          (st_count s + 1) (Processing issues page_start rest).
Proof.
  intros Hpc Hkey. unfold step. rewrite Hpc. unfold process_issue. rewrite Hkey. cbn.
  unfold save_raw_issue. by destruct (issue_key i) as [[|c k]|].
Qed.

(** X8.  When the write of a new issue fails, [save_raw_issue] swallows the
    failure and the loop goes on as after a success: the key is marked as
    downloaded and the issue is counted, although the write failed. *)
Theorem failed_write_is_still_marked (s : state) (issues rest : list issue)
    (page_start : Z) (i : issue) :
  st_pc s = Processing issues page_start (i :: rest) →
  truthy (issue_key i) = true →
  is_downloaded project (key_of i) (st_checkpoint s) = false →
  write_ok E (st_writes s) (key_of i) = false →
  let s' := step E C project s in
  is_downloaded project (key_of i) (st_checkpoint s') = true
  ∧ st_count s' = st_count s + 1
  ∧ st_pc s' = Processing issues page_start rest.
Proof.
  intros Hpc Hkey Hdown Hfail. cbv zeta. unfold step. rewrite Hpc. unfold process_issue.
  fold (key_of i). rewrite Hkey, Hdown. cbn.
  unfold save_raw_issue. unfold key_of in *.
  destruct (issue_key i) as [[|c k]|]; try done. cbn in *. rewrite Hfail. cbn.
  split; [|done].
  rewrite is_downloaded_keys_of, keys_of_mark_downloaded, decide_True by done.
  apply bool_decide_eq_true_2.
  destruct (bool_decide _) eqn:Hin; [by apply bool_decide_eq_true in Hin|].
  apply elem_of_app. right. by left.
Qed.

(** Every file of the directory is one that was there at the start, or has
    its key marked. *)
Definition stored_are_marked (raw0 : gmap string issue) (s : state) : Prop :=
  ∀ k i, st_raw s !! k = Some i →
         raw0 !! k = Some i ∨ k ∈ keys_of project (st_checkpoint s).

Lemma step_stored_are_marked raw0 s :
  stored_are_marked raw0 s → stored_are_marked raw0 (step E C project s).
Proof.
  intros Hinv. unfold step.
  destruct (st_pc s) as [|issues page_start [|i rest]| |e|e'|] eqn:Hpc; try done.
  - by destruct (pages_next _ _ _ _) as [[[[p|]|e|e'|] g] w].
  - intros k j. cbn. rewrite keys_of_set_last_start. apply Hinv.
  - unfold process_issue.
    destruct (truthy (issue_key i) && is_downloaded _ _ _); [done|].
    unfold save_raw_issue.
    assert (Hgrow : ∀ k, k ∈ keys_of project (st_checkpoint s) →
                         k ∈ keys_of project (mark_downloaded project (key_of i) (st_checkpoint s))).
    { intros k Hk. rewrite keys_of_mark_downloaded, decide_True by done.
      destruct (bool_decide _); [done|]. apply elem_of_app. by left. }
    assert (Hnew : key_of i ∈ keys_of project
                     (mark_downloaded project (key_of i) (st_checkpoint s))).
    { rewrite keys_of_mark_downloaded, decide_True by done.
      destruct (bool_decide _) eqn:Hin; [by apply bool_decide_eq_true in Hin|].
      apply elem_of_app. right. by left. }
    unfold key_of in *.
    destruct (issue_key i) as [[|c key]|] eqn:Hkey; cbn in *;
      try (intros k j; cbn; by apply Hinv).
    destruct (write_ok E (st_writes s) (String c key)); intros k j; cbn.
    + rewrite lookup_insert. destruct (decide (String c key = k)) as [<-|Hne].
      * intros _. by right.
      * intros Hk. destruct (Hinv k j Hk) as [?|?]; [by left|right; by apply Hgrow].
    + rewrite lookup_delete. destruct (decide (String c key = k)); [done|].
      intros Hk. destruct (Hinv k j Hk) as [?|?]; [by left|right; by apply Hgrow].
Qed.

(** X9.  Whatever a run stores it also marks: at every point of a run,
    each file of the raw directory either was there, with the same content,
    when the run started, or carries a key that the checkpoint lists as
    downloaded. *)
Theorem stored_issues_are_marked (s : state) (n : nat) :
  stored_are_marked (st_raw s) (run E C project n s).
Proof.
  assert (Hgen : ∀ n s', stored_are_marked (st_raw s) s' →
                         stored_are_marked (st_raw s) (run E C project n s')).
  { clear n. induction n as [|n IH]; intros s' Hs'; [done|].
    cbn. apply IH. by apply step_stored_are_marked. }
  apply Hgen. intros k i Hk. by left.
Qed.

(** X10.  A page whose issues are all marked already (a page fetched again
    after a restart) is passed over: nothing is written, marked or counted;
    only the page checkpoint is set. *)
Theorem downloaded_page_only_moves_the_offset (s : state) (issues rest : list issue)
    (page_start : Z) :
  st_pc s = Processing issues page_start rest →
  Forall (λ i, truthy (issue_key i) = true
               ∧ is_downloaded project (key_of i) (st_checkpoint s) = true) rest →
  process_page E C project s
  = State (st_gen s) (st_world s)
          (set_last_start project (page_start + len issues) (st_checkpoint s))
          (st_raw s) (st_writes s) (st_count s) Fetching.
Proof.
  intros Hpc Hall. unfold process_page. rewrite Hpc. rewrite run_S.
  assert (Hrun : run E C project (length rest) s
                 = State (st_gen s) (st_world s) (st_checkpoint s) (st_raw s)
                         (st_writes s) (st_count s) (Processing issues page_start [])).
  { clear -Hpc Hall. revert s Hpc Hall.
    induction rest as [|i rest IH]; intros s Hpc Hall.
    - cbn. destruct s. cbn in *. by rewrite Hpc.
    - apply Forall_cons in Hall as [[Hkey Hdown] Hall]. cbn [length run].
      rewrite (downloaded_issue_is_skipped s issues rest page_start i Hpc Hkey Hdown).
      by rewrite IH. }
  rewrite Hrun. unfold step. by cbn.
Qed.

End Issues.

Lemma downloaded_issue_is_skipped_witness :
  let s := State (fetch_issue_pages_for_project "TEST" 10 None 0) world0
             (mark_downloaded "TEST" "TEST-1" Missing) ∅ 0 0
             (Processing (take 1 test_issues) 0 (take 1 test_issues)) in
  step test_env test_config "TEST" s
  = State (st_gen s) (st_world s) (st_checkpoint s) (st_raw s) (st_writes s) (st_count s)
          (Processing (take 1 test_issues) 0 []).
Proof.
  intros s.
  apply (downloaded_issue_is_skipped test_env test_config "TEST" s
           (take 1 test_issues) [] 0 (test_issue 1)); by vm_compute.
Defined.

Lemma keyless_issue_is_counted_not_saved_witness :
  let s := State (fetch_issue_pages_for_project "TEST" 10 None 0) world0 Missing ∅ 0 0
             (Processing [Issue None "{}"] 0 [Issue None "{}"]) in
  step test_env test_config "TEST" s
  = State (st_gen s) (st_world s) Missing ∅ 0 1 (Processing [Issue None "{}"] 0 []).
Proof.
  intros s.
  apply (keyless_issue_is_counted_not_saved test_env test_config "TEST" s
           [Issue None "{}"] [] 0 (Issue None "{}")); reflexivity.
Defined.

(** A disk on which no write goes through. *)
Definition full_disk : env := Env (JiraProps.serves test_issues) (λ _ _, false).

Lemma failed_write_is_still_marked_witness :
  let s := State (fetch_issue_pages_for_project "TEST" 10 None 0) world0 Missing ∅ 0 0
             (Processing (take 1 test_issues) 0 (take 1 test_issues)) in
  let s' := step full_disk test_config "TEST" s in
  is_downloaded "TEST" "TEST-1" (st_checkpoint s') = true
  ∧ st_count s' = 1
  ∧ st_pc s' = Processing (take 1 test_issues) 0 [].
Proof.
  intros s.
  apply (failed_write_is_still_marked full_disk test_config "TEST" s
           (take 1 test_issues) [] 0 (test_issue 1)); by vm_compute.
Defined.

Lemma downloaded_page_only_moves_the_offset_witness :
  let f := mark_downloaded "TEST" "TEST-2" (mark_downloaded "TEST" "TEST-1" Missing) in
  let s := State (fetch_issue_pages_for_project "TEST" 10 None 0) world0 f ∅ 0 0
             (Processing (take 2 test_issues) 0 (take 2 test_issues)) in
  process_page test_env test_config "TEST" s
  = State (st_gen s) (st_world s) (set_last_start "TEST" (0 + 2) f) ∅ 0 0 Fetching.
Proof.
  intros f s.
  apply (downloaded_page_only_moves_the_offset test_env test_config "TEST" s
           (take 2 test_issues) (take 2 test_issues) 0); [reflexivity|].
  repeat constructor; by vm_compute.
Defined.

End CliExtra.

(** ** The retry loop and the generators, further *)
Module JiraExtra.
Import Jira JiraProps.

(** The outcomes that the loop answers by a sleep. *)
Definition retryable (o : get_outcome) : Prop :=
  match o with
  | RequestError _ => True
  | Got resp => status_code resp = 429 ∨ 500 ≤ status_code resp < 600
  end.

(** A 200 whose body parses to [data]. *)
Definition succeeds (o : get_outcome) (data : search_body) : Prop :=
  match o with
  | Got resp => status_code resp = 200 ∧ json resp = Some data
  | RequestError _ => False
  end.

Definition is_sleep (e : event) : bool :=
  match e with
  | EvSleep _ => true
  | EvGet _ => false
  end.

(** The number of [time.sleep] calls so far. *)
Definition sleeps (w : world) : nat := length (List.filter is_sleep (log w)).

(** The errors raised when the attempts are used up. *)
Definition exhausted (r : result search_body) : bool :=
  match r with
  | Raise MaxRetriesExceeded | Raise (NetworkError _) => true
  | _ => false
  end.

(** A [Retry-After] that [int] and [time.sleep] take: at most 4300 digits
    that name at most [10^9] seconds, or a date at most [10^9] seconds after
    any reading of the clock. *)
Definition modest_hint (E : env) (o : get_outcome) : Prop :=
  match o with
  | RequestError _ => True
  | Got resp =>
      ∀ ra, retry_after resp = Some ra →
        (isdigit ra = true → (String.length ra ≤ MAX_STR_DIGITS)%nat ∧ int ra ≤ 10 ^ 9)
        ∧ (∀ dt n, parsedate_to_datetime E ra = Some dt →
                   (dt - now E n <= 1000000000)%Q)
  end.

Lemma int_acc_nonneg s : ∀ acc, all_digits s = true → 0 ≤ acc → 0 ≤ int_acc acc s.
Proof.
  induction s as [|c s IH]; intros acc Hd Hacc; [done|].
  cbn in Hd. apply andb_prop in Hd as [Hc Hs]. cbn [int_acc].
  apply IH; [done|]. unfold is_digit in Hc. apply andb_prop in Hc as [Hlo _].
  apply Nat.leb_le in Hlo. lia.
Qed.

Section Loop.
Context (E : env) (self : JiraScraper) (rq : request).

Lemma sleeps_slept d cr w : sleeps (slept rq d cr w) = S (sleeps w).
Proof.
  unfold sleeps, slept. cbn. rewrite List.filter_app, length_app. cbn. lia.
Qed.

Lemma sleeps_answered w : sleeps (answered rq w) = sleeps w.
Proof.
  unfold sleeps, answered. cbn. rewrite List.filter_app, length_app. cbn. lia.
Qed.

Lemma sleeps_drawn cr w : sleeps (drawn rq cr w) = sleeps w.
Proof.
  unfold sleeps, drawn. cbn. rewrite List.filter_app, length_app. cbn. lia.
Qed.

(** A retryable outcome is answered by a sleep, unless [int] or
    [time.sleep] raises: then the call is over, with one more GET and no
    sleep. *)
Lemma loop_retryable a w :
  retryable (client_get E (gets w) rq) →
  (∃ err w', gets w' = S (gets w) ∧ sleeps w' = sleeps w
             ∧ ∀ fuel, _request_loop E self rq (S fuel) a w = (RaiseBuiltin err, w'))
  ∨ (∃ d cr, ∀ fuel,
       _request_loop E self rq (S fuel) a w
       = retry_or_raise E self rq fuel (a + 1) (client_get E (gets w) rq) (slept rq d cr w)).
Proof.
  assert (Hsleep : ∀ d cr,
    (∀ fuel, _request_loop E self rq (S fuel) a w
             = sleep_then E self rq fuel (a + 1) (client_get E (gets w) rq) d cr w) →
    (∃ err w', gets w' = S (gets w) ∧ sleeps w' = sleeps w
               ∧ ∀ fuel, _request_loop E self rq (S fuel) a w = (RaiseBuiltin err, w'))
    ∨ (∃ d cr, ∀ fuel,
         _request_loop E self rq (S fuel) a w
         = retry_or_raise E self rq fuel (a + 1) (client_get E (gets w) rq)
             (slept rq d cr w))).
  { intros d cr Heq. unfold sleep_then in Heq. destruct (sleep_raises d) as [err|].
    - left. exists err, (drawn rq cr w). split; [done|]. by rewrite sleeps_drawn.
    - right. by exists d, cr. }
  destruct (client_get E (gets w) rq) as [e|resp] eqn:Ho; cbn.
  - intros _. eapply Hsleep. intros fuel. by apply loop_fault.
  - intros [H429|H5].
    + destruct (retry_after_wait E resp (answered rq w)) as [[err|hint] w1] eqn:Hh.
      * left. exists err, (answered rq w). split; [done|]. rewrite sleeps_answered.
        split; [done|]. intros fuel. by eapply loop_429_int.
      * eapply Hsleep. intros fuel. by eapply loop_429.
    + eapply Hsleep. intros fuel. by apply loop_5xx.
Qed.

(** With waits that [time.sleep] takes, a retryable outcome is answered by
    a sleep. *)
Lemma loop_retryable_modest a w :
  unit_draws E → 0 ≤ backoff_factor self → 0 ≤ a < 10 ^ 10 →
  retryable (client_get E (gets w) rq) → modest_hint E (client_get E (gets w) rq) →
  ∃ d cr, ∀ fuel,
    _request_loop E self rq (S fuel) a w
    = retry_or_raise E self rq fuel (a + 1) (client_get E (gets w) rq) (slept rq d cr w).
Proof.
  intros Hu Hb Ha.
  assert (Hsleep : ∀ base cr,
    (0 <= base)%Q → (base <= 1000000000)%Q →
    (∀ fuel, _request_loop E self rq (S fuel) a w
             = sleep_then E self rq fuel (a + 1) (client_get E (gets w) rq)
                 (base + jitter E (a + 1) w) cr w) →
    ∃ d cr, ∀ fuel,
      _request_loop E self rq (S fuel) a w
      = retry_or_raise E self rq fuel (a + 1) (client_get E (gets w) rq) (slept rq d cr w)).
  { intros base cr H0 H1 Heq. exists (base + jitter E (a + 1) w)%Q, cr. intros fuel.
    rewrite Heq. unfold sleep_then.
    by rewrite (modest_wait_is_slept E (a + 1) w base Hu) by (done || lia). }
  destruct (backoff_is_modest self (a + 1)) as [Hb0 Hb1]; [done|lia|].
  destruct (client_get E (gets w) rq) as [e|resp] eqn:Ho; cbn.
  - intros _ _. eapply (Hsleep _ _ Hb0 Hb1). intros fuel. by apply loop_fault.
  - intros [H429|H5] Hmod.
    + assert (Hhint : ∃ hint w1, retry_after_wait E resp (answered rq w) = (inr hint, w1)
                      ∧ ∀ s, hint = Some s → (0 <= s)%Q ∧ (s <= 1000000000)%Q).
      { unfold retry_after_wait.
        destruct (retry_after resp) as [[|c ra]|] eqn:Hra;
          [by eexists _, _|..|by eexists _, _].
        destruct (Hmod _ eq_refl) as [Hdig Hdate].
        destruct (isdigit (String c ra)) eqn:Hd.
        - destruct Hdig as [Hlen Hint]; [done|].
          rewrite (proj2 (Nat.ltb_ge _ _) Hlen). eexists _, _. split; [done|].
          intros s [= <-]. split.
          + change 0%Q with (inject_Z 0). rewrite <- Zle_Qle.
            by apply int_acc_nonneg.
          + change 1000000000%Q with (inject_Z (10 ^ 9)). by rewrite <- Zle_Qle.
        - destruct (parsedate_to_datetime E (String c ra)) as [dt|] eqn:Hp;
            [|by eexists _, _].
          eexists _, _. split; [done|]. intros s [= <-].
          specialize (Hdate dt (clock_reads (answered rq w)) eq_refl).
          cbn [datetime_now fst].
          destruct (Q.max_spec 0 (dt - now E (clock_reads (answered rq w)))) as [[? ->]|[? ->]];
            split; lra. }
      destruct Hhint as (hint & w1 & Hh & Hrange).
      assert (Hbase : (0 <= default (inject_Z (backoff self (a + 1))) hint)%Q
                      ∧ (default (inject_Z (backoff self (a + 1))) hint <= 1000000000)%Q).
      { destruct hint as [s|]; [by apply Hrange|done]. }
      destruct Hbase as [H0 H1].
      eapply (Hsleep _ _ H0 H1). intros fuel. by eapply loop_429.
    + eapply (Hsleep _ _ Hb0 Hb1). intros fuel. by apply loop_5xx.
Qed.

Lemma loop_success fuel a w data :
  succeeds (client_get E (gets w) rq) data →
  _request_loop E self rq (S fuel) a w = (Return data, answered rq w).
Proof.
  destruct (client_get E (gets w) rq) as [e|resp] eqn:Ho; cbn; [done|].
  intros [H200 Hj]. cbn [_request_loop]. unfold get. rewrite Ho. cbn.
  by rewrite H200, Hj.
Qed.

Lemma loop_bad_json fuel a w resp :
  client_get E (gets w) rq = Got resp → status_code resp = 200 → json resp = None →
  _request_loop E self rq (S fuel) a w = (Raise InvalidJSON, answered rq w).
Proof.
  intros Ho H200 Hj. cbn [_request_loop]. unfold get. rewrite Ho. cbn.
  by rewrite H200, Hj.
Qed.

Lemma loop_other_status fuel a w resp :
  client_get E (gets w) rq = Got resp →
  status_code resp ≠ 200 → ¬ retryable (Got resp) →
  _request_loop E self rq (S fuel) a w
  = (Raise (HTTPStatus (status_code resp) (text resp)), answered rq w).
Proof.
  intros Ho H200 Hre. cbn in Hre. cbn [_request_loop]. unfold get. rewrite Ho. cbn.
  replace (status_code resp =? 200) with false by lia.
  unfold wait_for. replace (status_code resp =? 429) with false by lia.
  replace ((500 <=? status_code resp) && (status_code resp <? 600)) with false by lia.
  done.
Qed.

(** Transient failures followed by a success, inside the loop. *)
Lemma loop_recovers n :
  unit_draws E → 0 ≤ backoff_factor self → max_retries self ≤ 10 ^ 10 →
  ∀ fuel a w data,
  (n < fuel)%nat → 0 ≤ a →
  (n = 0%nat ∨ a + Z.of_nat n < max_retries self) →
  (∀ j, (j < n)%nat → retryable (client_get E (gets w + j) rq)
                      ∧ modest_hint E (client_get E (gets w + j) rq)) →
  succeeds (client_get E (gets w + n) rq) data →
  ∃ w', _request_loop E self rq fuel a w = (Return data, w')
        ∧ gets w' = (gets w + n + 1)%nat
        ∧ sleeps w' = (sleeps w + n)%nat.
Proof.
  intros Hu Hb HN.
  induction n as [|n IH]; intros fuel a w data Hfuel Ha Hmax Hretry Hok.
  - destruct fuel as [|fuel]; [lia|]. rewrite Nat.add_0_r in Hok.
    rewrite (loop_success fuel a w data Hok). exists (answered rq w).
    split; [done|]. rewrite sleeps_answered. cbn. lia.
  - destruct fuel as [|fuel]; [lia|].
    destruct Hmax as [?|Hmax]; [lia|].
    destruct (loop_retryable_modest a w Hu Hb) as (d & cr & Hstep); [lia|..].
    { specialize (Hretry 0%nat). rewrite Nat.add_0_r in Hretry. apply Hretry. lia. }
    { specialize (Hretry 0%nat). rewrite Nat.add_0_r in Hretry. apply Hretry. lia. }
    rewrite Hstep. unfold retry_or_raise.
    replace (max_retries self <=? a + 1) with false by lia.
    destruct (IH fuel (a + 1) (slept rq d cr w) data) as (w' & Heq & Hg & Hs).
    + lia.
    + lia.
    + right. lia.
    + intros j Hj. change (gets (slept rq d cr w)) with (S (gets w)).
      replace (S (gets w) + j)%nat with (gets w + S j)%nat by lia.
      apply Hretry. lia.
    + change (gets (slept rq d cr w)) with (S (gets w)).
      by replace (S (gets w) + n)%nat with (gets w + S n)%nat by lia.
    + exists w'. split; [done|]. rewrite Hg, Hs, sleeps_slept. cbn. lia.
Qed.

Lemma exhausted_exhaustion_error o : exhausted (Raise (exhaustion_error o)) = true.
Proof. by destruct o. Qed.

(** What every run of the loop satisfies, whatever the transport does. *)
Lemma loop_accounting fuel : ∀ a w,
  Z.max 1 (max_retries self - a) ≤ Z.of_nat fuel →
  let '(r, w') := _request_loop E self rq fuel a w in
  r ≠ OutOfFuel
  ∧ (gets w < gets w')%nat
  ∧ Z.of_nat (gets w') - Z.of_nat (gets w) ≤ Z.max 1 (max_retries self - a)
  ∧ (sleeps w' + (if exhausted r then 0 else 1) + gets w = sleeps w + gets w')%nat.
Proof.
  induction fuel as [|fuel IH]; intros a w Hfuel; [lia|].
  assert (Hretry : ∀ d cr,
    let '(r, w') := retry_or_raise E self rq fuel (a + 1) (client_get E (gets w) rq)
                      (slept rq d cr w) in
    r ≠ OutOfFuel
    ∧ (gets w < gets w')%nat
    ∧ Z.of_nat (gets w') - Z.of_nat (gets w) ≤ Z.max 1 (max_retries self - a)
    ∧ (sleeps w' + (if exhausted r then 0 else 1) + gets w = sleeps w + gets w')%nat).
  { intros d cr. set (w1 := slept _ _ _ _).
    assert (Hw1 : gets w1 = S (gets w) ∧ sleeps w1 = S (sleeps w)).
    { subst w1. by rewrite sleeps_slept. }
    destruct Hw1 as [Hg1 Hs1]. clearbody w1.
    unfold retry_or_raise. destruct (max_retries self <=? a + 1) eqn:Hlast.
    + rewrite exhausted_exhaustion_error. rewrite Hg1, Hs1.
      repeat split; [done|lia|lia|lia].
    + specialize (IH (a + 1) w1).
      destruct (_request_loop E self rq fuel (a + 1) w1) as [r w'].
      destruct IH as (Hr & Hg & Hb & Hs); [lia|].
      rewrite Hg1 in Hg, Hb, Hs. rewrite Hs1 in Hs.
      repeat split; [done|lia|lia|]. destruct (exhausted r); lia. }
  assert (Hdec : retryable (client_get E (gets w) rq)
                 ∨ ¬ retryable (client_get E (gets w) rq)).
  { destruct (client_get E (gets w) rq) as [e|resp]; cbn; [by left|].
    destruct (decide (status_code resp = 429 ∨ 500 ≤ status_code resp < 600));
      [by left|by right]. }
  destruct Hdec as [Hre|Hre].
  - destruct (loop_retryable a w Hre) as [(err & w' & Hg & Hs & Heq)|(d & cr & Heq)].
    + rewrite Heq. cbn [exhausted]. rewrite Hg, Hs. repeat split; [done|lia|lia|lia].
    + rewrite Heq. apply Hretry.
  - destruct (client_get E (gets w) rq) as [e|resp] eqn:Ho; [by destruct Hre|].
    destruct (decide (status_code resp = 200)) as [H200|H200].
    + destruct (json resp) as [data|] eqn:Hj.
      * rewrite (loop_success fuel a w data) by (by rewrite Ho).
        rewrite sleeps_answered. cbn. repeat split; [done|lia|lia|lia].
      * rewrite (loop_bad_json fuel a w resp Ho H200 Hj).
        rewrite sleeps_answered. cbn. repeat split; [done|lia|lia|lia].
    + rewrite (loop_other_status fuel a w resp Ho H200 Hre).
      rewrite sleeps_answered. cbn. repeat split; [done|lia|lia|lia].
Qed.

End Loop.

(** X11.  Transient failures followed by a success: when the first [n]
    attempts meet retryable outcomes (a network fault, a 429 or a 5xx), [n]
    being less than [max_retries], and the next attempt meets a 200 with a
    JSON body, [_request] returns that body after exactly [n + 1] calls of
    [client.get] and [n] sleeps, provided every wait is one that
    [time.sleep] takes: the backoff factor is not negative, [max_retries] is
    at most [10^10], and a [Retry-After] asks for [10^9] seconds at most.
    (A first attempt that succeeds needs nothing of [max_retries].) *)
Theorem request_returns_after_transient_failures (E : env) (self : JiraScraper)
    (rq : request) (w : world) (n : nat) (data : search_body) :
  unit_draws E → 0 ≤ backoff_factor self → max_retries self ≤ 10 ^ 10 →
  (n = 0%nat ∨ Z.of_nat n < max_retries self) →
  (∀ j, (j < n)%nat → retryable (client_get E (gets w + j) rq)
                      ∧ modest_hint E (client_get E (gets w + j) rq)) →
  succeeds (client_get E (gets w + n) rq) data →
  ∃ w', _request E self rq w = (Return data, w')
        ∧ gets w' = (gets w + n + 1)%nat
        ∧ sleeps w' = (sleeps w + n)%nat.
Proof.
  intros Hu Hb HN Hmax Hretry Hok. unfold _request.
  apply loop_recovers; [done|done|done| |lia|lia|done|done].
  unfold request_fuel. lia.
Qed.

(** The transport of [test_request_handles_429_then_success]: a 429 with
    [Retry-After: 0], then a 200. *)
Definition ok_body : search_body := SearchBody [] None.

Definition once_429 : env :=
  Env (λ n _, match n with
              | O => Got (Response 429 (Some "0") None "")
              | _ => Got (Response 200 None (Some ok_body) "")
              end)
      (λ _, 0%Q) (λ _, 0%Q) (λ _, None).

Lemma request_returns_after_transient_failures_witness :
  ∃ w', _request once_429 (Scraper 1 3 0) request0 world0 = (Return ok_body, w')
        ∧ gets w' = 2%nat ∧ sleeps w' = 1%nat.
Proof.
  apply (request_returns_after_transient_failures once_429 (Scraper 1 3 0) request0
           world0 1 ok_body).
  - intros k. split; by vm_compute.
  - cbn. lia.
  - cbn. lia.
  - right. cbn. lia.
  - intros j Hj. replace j with 0%nat by lia. cbn. split; [by left|].
    intros ra [= <-]. split.
    + intros _. split; [apply Nat.leb_le; by vm_compute|by vm_compute].
    + intros dt k [=].
  - cbn. done.
Defined.

(** X12.  Whatever the transport answers, a call of [_request] ends (it
    returns or raises), makes at least one and at most [max(1, max_retries)]
    calls of [client.get], and sleeps once after every call but the one that
    ended it, or after every call when it gives up with "Max retries
    exceeded" or "Network error". *)
Theorem request_attempts_are_bounded (E : env) (self : JiraScraper) (rq : request)
    (w : world) :
  let r := (_request E self rq w).1 in
  let w' := (_request E self rq w).2 in
  r ≠ OutOfFuel
  ∧ (gets w < gets w')%nat
  ∧ Z.of_nat (gets w') - Z.of_nat (gets w) ≤ Z.max 1 (max_retries self)
  ∧ (sleeps w' + (if exhausted r then 0 else 1) + gets w = sleeps w + gets w')%nat.
Proof.
  cbv zeta. unfold _request.
  pose proof (loop_accounting E self rq (request_fuel self) 0 w) as Hacc.
  destruct (_request_loop E self rq (request_fuel self) 0 w) as [r w']. cbn.
  destruct Hacc as (Hr & Hg & Hb & Hs); [unfold request_fuel; lia|].
  repeat split; [done|lia|lia|lia].
Qed.

(** *** The generators *)

(** The offset at which the generator asks next, and the total it checks
    that offset against before asking. *)
Definition pages_next_offset (g : pages_gen) : Z :=
  match pg_pc g with
  | PagesYielded issues => pg_current g + len issues
  | _ => pg_current g
  end.

Definition pages_seen_total (g : pages_gen) : option Z :=
  match pg_pc g with
  | PagesStart => None
  | _ => pg_total g
  end.

(** The number of issues yielded so far. *)
Definition pages_yielded (g : pages_gen) : Z :=
  match pg_pc g with
  | PagesYielded issues => pg_fetched g + len issues
  | _ => pg_fetched g
  end.

(** Pages that follow one another: each starts where the one before ended,
    none is empty, and none starts at or beyond the total that came with
    the page before. *)
Fixpoint consecutive (start : Z) (seen_total : option Z) (ps : list page) : Prop :=
  match ps with
  | [] => True
  | p :: ps' =>
      page_start p = start ∧ page_issues p ≠ []
      ∧ past_total seen_total start = false
      ∧ consecutive (start + len (page_issues p)) (page_total p) ps'
  end.

Definition total_len (ps : list page) : Z :=
  foldr (λ p n, len (page_issues p) + n) 0 ps.

Section Generators.
Context (E : env) (self : JiraScraper).

Lemma pages_fetch_page g w p g' w' :
  pages_fetch E self g w = (Return (Some p), g', w') →
  page_start p = pg_current g ∧ page_issues p ≠ []
  ∧ pg_pc g' = PagesYielded (page_issues p) ∧ pg_current g' = pg_current g
  ∧ pg_total g' = page_total p ∧ pg_fetched g' = pg_fetched g
  ∧ pg_max_issues g' = pg_max_issues g.
Proof.
  unfold pages_fetch. destruct (_request _ _ _ w) as [[data|e|e'|] w1]; [|done..].
  destruct (body_issues data) as [|i l] eqn:Hi; [done|]. intros [= <- <- <-]. cbn.
  repeat split; done.
Qed.

(** What a [next()] that yields tells about the frame before and after. *)
Lemma pages_next_page g w p g' w' :
  pages_next E self g w = (Return (Some p), g', w') →
  page_start p = pages_next_offset g ∧ page_issues p ≠ []
  ∧ past_total (pages_seen_total g) (pages_next_offset g) = false
  ∧ (pg_pc g = PagesStart ∨ cap_reached (pg_max_issues g) (pages_yielded g) = false)
  ∧ pg_pc g' = PagesYielded (page_issues p) ∧ pg_current g' = page_start p
  ∧ pg_total g' = page_total p ∧ pg_fetched g' = pages_yielded g
  ∧ pg_max_issues g' = pg_max_issues g.
Proof.
  unfold pages_next, pages_next_offset, pages_seen_total, pages_yielded.
  destruct (pg_pc g) as [|issues|] eqn:Hpc.
  - intros (Hs & Hne & Hy & Hc & Ht & Hf & Hm)%pages_fetch_page.
    rewrite Hs. split; [done|]. split; [done|]. split; [done|]. split; [by left|].
    split; [done|]. split; [congruence|]. by repeat split.
  - destruct (cap_reached _ _) eqn:Hcap; [done|]. destruct (past_total _ _) eqn:Hpast; [done|].
    intros (Hs & Hne & Hy & Hc & Ht & Hf & Hm)%pages_fetch_page.
    cbn in Hs, Hc, Hf, Hm. rewrite Hs. split; [done|]. split; [done|]. split; [done|].
    split; [by right|]. split; [done|]. split; [congruence|]. by repeat split.
  - done.
Qed.

Lemma pages_list_consecutive fuel : ∀ g w,
  consecutive (pages_next_offset g) (pages_seen_total g) (pages_list E self fuel g w).1.1.
Proof.
  induction fuel as [|fuel IH]; intros g w; [done|]. cbn [pages_list].
  destruct (pages_next E self g w) as [[[[p|]|e|e'|] g'] w'] eqn:Hn; try done.
  apply pages_next_page in Hn as (Hs & Hne & Hpast & _ & Hy & Hc & Ht & _).
  specialize (IH g' w').
  destruct (pages_list E self fuel g' w') as [[ps r] w'']. cbn in *.
  split; [done|]. split; [done|]. split; [done|].
  unfold pages_next_offset, pages_seen_total in IH. rewrite Hy, Hc, Ht in IH.
  by rewrite <- Hs.
Qed.

Lemma pages_list_under_cap m fuel : ∀ g w front last,
  pg_max_issues g = Some m → 1 ≤ m →
  (pg_pc g = PagesStart → pg_fetched g < m) →
  (pages_list E self fuel g w).1.1 = front ++ [last] →
  pages_yielded g + total_len front < m.
Proof.
  induction fuel as [|fuel IH]; intros g w front last Hm Hpos Hstart.
  { cbn. by destruct front. }
  cbn [pages_list].
  destruct (pages_next E self g w) as [[[[p|]|e|e'|] g'] w'] eqn:Hn;
    try (cbn; by destruct front).
  apply pages_next_page in Hn as (_ & _ & _ & Hcap & Hy & _ & _ & Hf & Hmax).
  assert (Hlt : pages_yielded g < m).
  { destruct Hcap as [Hpc|Hcap].
    - unfold pages_yielded. rewrite Hpc. by apply Hstart.
    - rewrite Hm in Hcap. cbn in Hcap. lia. }
  specialize (IH g' w').
  destruct (pages_list E self fuel g' w') as [[ps r] w'']. cbn in *.
  destruct front as [|q front]; cbn.
  - intros _. lia.
  - intros [= <- Hps]. specialize (IH front last).
    unfold pages_yielded in IH at 1. rewrite Hy, Hf in IH.
    assert (pages_yielded g + len (page_issues p) + total_len front < m);
      [|unfold total_len in *; lia].
    apply IH; [congruence|done|done|done].
Qed.

End Generators.

(** X13.  The pages that [fetch_issue_pages_for_project] yields follow one
    another: the first starts at [start_at], each next one starts where the
    one before ended (its offset plus the number of issues it held, not the
    page size asked for), no page is empty, and no page is asked for at or
    beyond the total reported with the page before. *)
Theorem pages_are_consecutive (E : env) (self : JiraScraper) (project_key : string)
    (page_size : Z) (max_issues : option Z) (start_at : Z) (fuel : nat) (w : world) :
  consecutive start_at None
    (pages_list E self fuel
       (fetch_issue_pages_for_project project_key page_size max_issues start_at) w).1.1.
Proof.
  apply (pages_list_consecutive E self fuel
           (fetch_issue_pages_for_project project_key page_size max_issues start_at) w).
Qed.

(** X14.  With a cap [max_issues = m >= 1] the page generator stops right
    after the page with which the count reaches [m]: the pages before the
    last one yielded hold fewer than [m] issues together.  (The last page
    is yielded whole, so the total can exceed [m].) *)
Theorem pages_stop_at_the_cap (E : env) (self : JiraScraper) (project_key : string)
    (page_size m start_at : Z) (fuel : nat) (w : world) (front : list page) (last : page) :
  1 ≤ m →
  (pages_list E self fuel
     (fetch_issue_pages_for_project project_key page_size (Some m) start_at) w).1.1
  = front ++ [last] →
  total_len front < m.
Proof.
  intros Hm Hps.
  pose proof (pages_list_under_cap E self m fuel
                (fetch_issue_pages_for_project project_key page_size (Some m) start_at)
                w front last eq_refl Hm) as Hcap.
  cbn in Hcap. apply Hcap; [intros _; lia|done].
Qed.

Lemma pages_stop_at_the_cap_witness :
  (pages_list (serves three_issues) (Scraper 30 5 2) 5
     (fetch_issue_pages_for_project "T" 1 (Some 2) 0) world0).1.1
  = [Page (take 1 three_issues) 0 (Some 3)] ++ [Page (take 1 (drop 1 three_issues)) 1 (Some 3)]
  ∧ total_len [Page (take 1 three_issues) 0 (Some 3)] < 2.
Proof.
  assert (Hps : (pages_list (serves three_issues) (Scraper 30 5 2) 5
                   (fetch_issue_pages_for_project "T" 1 (Some 2) 0) world0).1.1
                = [Page (take 1 three_issues) 0 (Some 3)]
                  ++ [Page (take 1 (drop 1 three_issues)) 1 (Some 3)]) by (by vm_compute).
  split; [exact Hps|].
  apply (pages_stop_at_the_cap (serves three_issues) (Scraper 30 5 2) "T" 1 2 0 5 world0
           _ _ ltac:(lia) Hps).
Defined.

End JiraExtra.

(** ** The generators, further *)
Module GeneratorExtra.
Import Jira JiraProps JiraExtra.

(** The number of issues that the issue generator has counted once it is
    resumed. *)
Definition issues_counted (g : issues_gen) : Z :=
  match ig_pc g with
  | IssuesYielded _ _ => ig_fetched g + 1
  | _ => ig_fetched g
  end.

Section Generators.
Context (E : env) (self : JiraScraper).

Lemma issues_fetch_issue g w i g' w' :
  issues_fetch E self g w = (Return (Some i), g', w') →
  (∃ issues rest, ig_pc g' = IssuesYielded issues rest)
  ∧ ig_fetched g' = ig_fetched g ∧ ig_max_issues g' = ig_max_issues g.
Proof.
  unfold issues_fetch. destruct (_request _ _ _ w) as [[data|e|e'|] w1]; [|done..].
  destruct (body_issues data) as [|j l] eqn:Hi; [done|]. intros [= <- <- <-]. cbn.
  split; [by eexists _, _|done].
Qed.

Lemma issues_next_issue g w i g' w' :
  issues_next E self g w = (Return (Some i), g', w') →
  (∃ issues rest, ig_pc g' = IssuesYielded issues rest)
  ∧ ig_fetched g' = issues_counted g ∧ ig_max_issues g' = ig_max_issues g
  ∧ (ig_pc g = IssuesStart ∨ cap_reached (ig_max_issues g) (issues_counted g) = false).
Proof.
  unfold issues_next, issues_counted. destruct (ig_pc g) as [|issues rest|] eqn:Hpc.
  - intros (Hy & Hf & Hm)%issues_fetch_issue. split; [done|]. split; [done|].
    split; [done|by left].
  - destruct (cap_reached _ _) eqn:Hcap; [done|]. destruct rest as [|j rest].
    + destruct (past_total _ _); [done|].
      intros (Hy & Hf & Hm)%issues_fetch_issue. cbn in Hf, Hm.
      split; [done|]. split; [done|]. split; [done|by right].
    + intros [= <- <- <-]. cbn. split; [by eexists _, _|]. split; [done|].
      split; [done|by right].
  - done.
Qed.

Lemma issues_list_under_cap m fuel : ∀ g w,
  ig_max_issues g = Some m → 1 ≤ m →
  (ig_pc g = IssuesStart → ig_fetched g < m) →
  Z.of_nat (length (issues_list E self fuel g w).1.1) ≤ Z.max 0 (m - issues_counted g).
Proof.
  induction fuel as [|fuel IH]; intros g w Hm Hpos Hstart; [cbn; lia|].
  cbn [issues_list].
  destruct (issues_next E self g w) as [[[[i|]|e|e'|] g'] w'] eqn:Hn; try (cbn; lia).
  apply issues_next_issue in Hn as ((issues & rest & Hy) & Hf & Hmax & Hcap).
  assert (Hlt : issues_counted g < m).
  { destruct Hcap as [Hpc|Hcap].
    - unfold issues_counted. rewrite Hpc. by apply Hstart.
    - rewrite Hm in Hcap. cbn in Hcap. lia. }
  specialize (IH g' w').
  destruct (issues_list E self fuel g' w') as [[l r] w'']. cbn in *.
  unfold issues_counted in IH at 1. rewrite Hy, Hf in IH.
  assert (Z.of_nat (length l) ≤ Z.max 0 (m - (issues_counted g + 1))); [|lia].
  apply IH; [congruence|done|done].
Qed.

(** After a [next()] that did not yield, the frame is finished. *)
Lemma pages_next_done g w r g' w' :
  pages_next E self g w = (r, g', w') →
  (∀ p, r ≠ Return (Some p)) → r ≠ OutOfFuel →
  pg_pc g' = PagesDone.
Proof.
  unfold pages_next.
  assert (Hfetch : ∀ g0, pages_fetch E self g0 w = (r, g', w') →
            (∀ p, r ≠ Return (Some p)) → r ≠ OutOfFuel → pg_pc g' = PagesDone).
  { intros g0. unfold pages_fetch.
    destruct (_request _ _ _ w) as [[data|e|e'|] w1].
    - destruct (body_issues data) as [|i l].
      + by intros [= <- <- <-].
      + intros [= <- <- <-] Hr. by destruct (Hr (Page (i :: l) (pg_current g0)
                                                     (get_total data (pg_total g0)))).
    - by intros [= <- <- <-].
    - by intros [= <- <- <-].
    - by intros [= <- <- <-]. }
  destruct (pg_pc g) as [|issues|] eqn:Hpc.
  - apply Hfetch.
  - destruct (cap_reached _ _); [by intros [= <- <- <-]|].
    destruct (past_total _ _); [by intros [= <- <- <-]|]. apply Hfetch.
  - by intros [= <- <- <-].
Qed.

End Generators.

(** X15.  With a cap [max_issues = m >= 1], [fetch_issues_for_project]
    never yields more than [m] issues, however the pages fall. *)
Theorem issues_never_exceed_the_cap (E : env) (self : JiraScraper) (project_key : string)
    (page_size m : Z) (fuel : nat) (w : world) :
  1 ≤ m →
  Z.of_nat (length (issues_list E self fuel
                      (fetch_issues_for_project project_key page_size (Some m)) w).1.1) ≤ m.
Proof.
  intros Hm.
  pose proof (issues_list_under_cap E self m fuel
                (fetch_issues_for_project project_key page_size (Some m)) w eq_refl Hm)
    as Hcap.
  cbn in Hcap. etrans; [apply Hcap; intros _; lia|]. lia.
Qed.

Lemma issues_never_exceed_the_cap_witness :
  (issues_list (serves three_issues) (Scraper 30 5 2) 9
     (fetch_issues_for_project "T" 2 (Some 1)) world0).1.1 = take 1 three_issues
  ∧ Z.of_nat (length (issues_list (serves three_issues) (Scraper 30 5 2) 9
                        (fetch_issues_for_project "T" 2 (Some 1)) world0).1.1) ≤ 1.
Proof.
  split; [by vm_compute|].
  apply (issues_never_exceed_the_cap (serves three_issues) (Scraper 30 5 2) "T" 2 1 9 world0).
  lia.
Defined.

(** X16.  The page generator cannot be restarted: once a [next()] has
    ended it, by [StopIteration] or by an exception of [_request], every
    later [next()] stops at once, without a request and without a change
    to the frame. *)
Theorem finished_generator_stays_finished (E : env) (self : JiraScraper) (g : pages_gen)
    (w : world) (r : result (option page)) (g' : pages_gen) (w' : world) :
  pages_next E self g w = (r, g', w') →
  (∀ p, r ≠ Return (Some p)) → r ≠ OutOfFuel →
  ∀ w2, pages_next E self g' w2 = (Return None, g', w2).
Proof.
  intros Hn Hr Hf w2. unfold pages_next.
  by rewrite (pages_next_done E self g w r g' w' Hn Hr Hf).
Qed.

(** A server that has nothing. *)
Definition empty_project : env := serves [].

Lemma finished_generator_stays_finished_witness :
  ∃ g', pages_next empty_project (Scraper 30 5 2)
          (fetch_issue_pages_for_project "T" 2 None 0) world0
        = (Return None, g', World 1 0 0 [EvGet (Request search_url "T" 0 2)])
        ∧ ∀ w2, pages_next empty_project (Scraper 30 5 2) g' w2 = (Return None, g', w2).
Proof.
  eexists. split; [by vm_compute|].
  eapply (finished_generator_stays_finished empty_project (Scraper 30 5 2)
            (fetch_issue_pages_for_project "T" 2 None 0) world0 (Return None)).
  - vm_compute. reflexivity.
  - done.
  - done.
Defined.

(** The frame of the issue generator that stands where the page generator
    stands: before its first request, at the end of a page, or finished. *)
Definition issues_frame_of (g : pages_gen) (fetched : Z) : issues_gen :=
  IssuesGen (pg_project g) (pg_page_size g) None (pg_total g) fetched (pg_current g)
    (match pg_pc g with
     | PagesStart => IssuesStart
     | PagesYielded issues => IssuesYielded issues []
     | PagesDone => IssuesDone
     end).

Section Flatten.
Context (E : env) (self : JiraScraper).

(** Inside a page the issue generator yields what is left of it, without a
    request. *)
Lemma issues_list_rest rest : ∀ p sz tot f st issues fuel w,
  issues_list E self (length rest + fuel)
    (IssuesGen p sz None tot f st (IssuesYielded issues rest)) w
  = let '(tail, r, w') :=
      issues_list E self fuel
        (IssuesGen p sz None tot (f + len rest) st (IssuesYielded issues [])) w in
    (rest ++ tail, r, w').
Proof.
  induction rest as [|j rest IH]; intros p sz tot f st issues fuel w.
  - cbn [length Nat.add app]. unfold len. cbn [length Z.of_nat]. rewrite Z.add_0_r.
    by destruct (issues_list _ _ _ _ _) as [[tail r] w'].
  - cbn [length Nat.add issues_list]. unfold issues_next. cbn.
    unfold issues_set. cbn. rewrite IH.
    replace (f + 1 + len rest) with (f + len (j :: rest)) by (unfold len; cbn [length]; lia).
    by destruct (issues_list _ _ _ _ _) as [[tail r] w'].
Qed.

(** One page of the page generator is that many issues of the issue
    generator. *)
Lemma issues_list_page g w p g' w1 f :
  pg_max_issues g = None →
  pages_next E self g w = (Return (Some p), g', w1) →
  ∃ f', ∀ fuel,
    issues_list E self (length (page_issues p) + fuel) (issues_frame_of g f) w
    = let '(tail, r, w') := issues_list E self fuel (issues_frame_of g' f') w1 in
      (page_issues p ++ tail, r, w').
Proof.
  destruct g as [pr sz mi tot fe cur pc]. cbn. intros ->.
  assert (Hfetch : ∀ tot fe fe' cur pc ipc,
    pages_fetch E self (PagesGen pr sz None tot fe cur pc) w = (Return (Some p), g', w1) →
    ∃ f', (∀ fuel, issues_list E self (length (page_issues p) + fuel)
                     (IssuesGen pr sz None tot fe' cur IssuesStart) w
                   = (let '(tail, r, w') := issues_list E self fuel (issues_frame_of g' f') w1 in
                      (page_issues p ++ tail, r, w')))
        ∧ issues_fetch E self (IssuesGen pr sz None tot fe' cur ipc) w
          = issues_fetch E self (IssuesGen pr sz None tot fe' cur IssuesStart) w).
  { intros tot0 fe0 fe' cur0 pc0 ipc. unfold pages_fetch, issues_fetch. cbn.
    destruct (_request E self _ w) as [[data|e|e'|] w2] eqn:Hreq; [|done..].
    destruct (body_issues data) as [|i rest] eqn:Hi; [done|].
    intros [= <- <- <-]. cbn [page_issues].
    exists (fe' + len rest). split; [|done]. intros fuel.
    cbn [length Nat.add issues_list]. unfold issues_next, issues_fetch. cbn.
    rewrite Hreq, Hi. unfold issues_set. cbn.
    rewrite issues_list_rest. unfold issues_frame_of, pages_set. cbn.
    by destruct (issues_list _ _ _ _ _) as [[tail r] w']. }
  unfold pages_next. cbn. destruct pc as [|issues|].
  - intros Hf. destruct (Hfetch tot fe f cur PagesStart IssuesStart Hf) as (f' & Hl & _).
    by exists f'.
  - destruct (past_total tot (cur + len issues)) eqn:Hpast; [done|].
    intros Hf.
    destruct (Hfetch tot (fe + len issues) (f + 1) (cur + len issues)
                (PagesYielded issues) (IssuesYielded issues []) Hf) as (f' & Hl & Heq).
    exists f'. intros fuel. rewrite <- Hl. unfold issues_frame_of. cbn.
    destruct (page_issues p) as [|i rest] eqn:Hp.
    { apply pages_fetch_page in Hf as (_ & Hne & _). by rewrite Hp in Hne. }
    cbn [length Nat.add issues_list]. unfold issues_next. cbn.
    rewrite Hpast. unfold issues_set. cbn. by rewrite Heq.
  - done.
Qed.

(** The end of the page generator is the end of the issue generator. *)
Lemma issues_list_end g w r g' w1 f fuel :
  pg_max_issues g = None →
  pages_next E self g w = (r, g', w1) →
  (∀ p, r ≠ Return (Some p)) →
  issues_list E self (S fuel) (issues_frame_of g f) w
  = ([], match r with
         | Return _ => Return tt
         | Raise e => Raise e
         | RaiseBuiltin e => RaiseBuiltin e
         | OutOfFuel => OutOfFuel
         end, w1).
Proof.
  destruct g as [pr sz mi tot fe cur pc]. cbn. intros ->.
  assert (Hfetch : ∀ tot fe fe' cur pc ipc,
    pages_fetch E self (PagesGen pr sz None tot fe cur pc) w = (r, g', w1) →
    (∀ p, r ≠ Return (Some p)) →
    ∃ gi, issues_fetch E self (IssuesGen pr sz None tot fe' cur ipc) w
          = (match r with
             | Return _ => Return None
             | Raise e => Raise e
             | RaiseBuiltin e => RaiseBuiltin e
             | OutOfFuel => OutOfFuel
             end, gi, w1)).
  { intros tot0 fe0 fe' cur0 pc0 ipc. unfold pages_fetch, issues_fetch. cbn.
    destruct (_request E self _ w) as [[data|e|e'|] w2].
    - destruct (body_issues data) as [|i rest] eqn:Hi.
      + intros [= <- <- <-] _. by eexists.
      + intros [= <- <- <-] Hr. by destruct (Hr (Page (i :: rest) cur0 (get_total data tot0))).
    - intros [= <- <- <-] _. by eexists.
    - intros [= <- <- <-] _. by eexists.
    - intros [= <- <- <-] _. by eexists. }
  unfold pages_next, issues_frame_of. cbn. destruct pc as [|issues|].
  - intros Hf Hr. destruct (Hfetch tot fe f cur PagesStart IssuesStart Hf Hr) as (gi & Hi).
    cbn [issues_list]. unfold issues_next. cbn. rewrite Hi. by destruct r as [[?|]|?|?|].
  - destruct (past_total tot (cur + len issues)) eqn:Hpast.
    + intros [= <- <- <-] _. cbn [issues_list]. unfold issues_next. cbn. by rewrite Hpast.
    + intros Hf Hr.
      destruct (Hfetch tot (fe + len issues) (f + 1) (cur + len issues)
                  (PagesYielded issues) (IssuesYielded issues []) Hf Hr) as (gi & Hi).
      cbn [issues_list]. unfold issues_next. cbn. rewrite Hpast.
      unfold issues_set. cbn. rewrite Hi. by destruct r as [[?|]|?|?|].
  - intros [= <- <- <-] _. done.
Qed.

Lemma issues_list_flatten fuel : ∀ g w f ps r w',
  pg_max_issues g = None →
  pages_list E self fuel g w = (ps, r, w') → r ≠ OutOfFuel →
  ∃ fuel', issues_list E self fuel' (issues_frame_of g f) w
           = (mjoin (page_issues <$> ps), r, w').
Proof.
  induction fuel as [|fuel IH]; intros g w f ps r w' Hmax; [by intros [= <- <- <-]|].
  cbn [pages_list].
  destruct (pages_next E self g w) as [[r1 g1] w1] eqn:Hn.
  destruct r1 as [[p|]|e|e'|].
  - destruct (pages_list E self fuel g1 w1) as [[ps1 r2] w2] eqn:Hl.
    intros [= <- <- <-] Hr.
    assert (Hmax1 : pg_max_issues g1 = None).
    { apply pages_next_page in Hn. destruct Hn as (_ & _ & _ & _ & _ & _ & _ & _ & Hm).
      congruence. }
    destruct (issues_list_page g w p g1 w1 f Hmax Hn) as (f' & Hpage).
    destruct (IH g1 w1 f' ps1 r2 w2 Hmax1 Hl Hr) as (fuel2 & Hrest).
    exists (length (page_issues p) + fuel2)%nat.
    rewrite Hpage, Hrest. by rewrite fmap_cons.
  - intros [= <- <- <-] _. exists 1%nat.
    by rewrite (issues_list_end g w (Return None) g1 w1 f 0 Hmax Hn).
  - intros [= <- <- <-] _. exists 1%nat.
    by rewrite (issues_list_end g w (Raise e) g1 w1 f 0 Hmax Hn).
  - intros [= <- <- <-] _. exists 1%nat.
    by rewrite (issues_list_end g w (RaiseBuiltin e') g1 w1 f 0 Hmax Hn).
  - by intros [= <- <- <-].
Qed.

End Flatten.
(** X17.  Without a cap the two generators walk the collection alike: when
    the page generator started at offset 0 runs to its end, by exhaustion or
    by an exception, the issue generator yields in the same world exactly
    the issues of those pages, page after page and in order, and ends the
    same way in the same world (so it made the same requests). *)
Theorem issues_are_the_pages_flattened (E : env) (self : JiraScraper)
    (project_key : string) (page_size : Z) (fuel : nat) (w : world)
    (ps : list page) (r : result unit) (w' : world) :
  pages_list E self fuel (fetch_issue_pages_for_project project_key page_size None 0) w
  = (ps, r, w') →
  r ≠ OutOfFuel →
  ∃ fuel', issues_list E self fuel' (fetch_issues_for_project project_key page_size None) w
           = (mjoin (page_issues <$> ps), r, w').
Proof.
  intros Hps Hr.
  by apply (issues_list_flatten E self fuel
              (fetch_issue_pages_for_project project_key page_size None 0) w 0 ps r w').
Qed.

Lemma issues_are_the_pages_flattened_witness :
  ∃ fuel', issues_list (serves three_issues) (Scraper 30 5 2) fuel'
             (fetch_issues_for_project "T" 2 None) world0
           = (three_issues, Return tt,
              World 2 0 0 [EvGet (Request search_url "T" 0 2);
                           EvGet (Request search_url "T" 2 2)]).
Proof.
  apply (issues_are_the_pages_flattened (serves three_issues) (Scraper 30 5 2) "T" 2 5
           world0 [Page (take 2 three_issues) 0 (Some 3);
                   Page (drop 2 three_issues) 2 (Some 3)]).
  - by vm_compute.
  - done.
Defined.

End GeneratorExtra.

(** ** The cap of 0 *)
Module CapProps.
Import Jira JiraProps JiraExtra GeneratorExtra.

Section Serves.
Context (all : list issue) (self : JiraScraper).

(** What the server of [all] answers a request with. *)
Definition served (rq : request) : search_body :=
  SearchBody (take (Z.to_nat (req_maxResults rq)) (drop (Z.to_nat (req_startAt rq)) all))
             (Some (Some (len all))).

Lemma request_serves rq w :
  _request (serves all) self rq w = (Return (served rq), answered rq w).
Proof.
  unfold _request.
  assert (Hfuel : ∃ n, request_fuel self = S n).
  { unfold request_fuel. exists (pred (Z.to_nat (Z.max 1 (max_retries self)))). lia. }
  destruct Hfuel as [n ->]. by apply loop_success.
Qed.

(** The frame is about to ask at offset [c]. *)
Definition asks_at (g : pages_gen) (c : Z) : Prop :=
  (pg_pc g = PagesStart ∧ c = pg_current g)
  ∨ (∃ issues, pg_pc g = PagesYielded issues ∧ c = pg_current g + len issues
               ∧ pg_total g = Some (len all)).

Lemma pages_fetch_serves g w :
  pg_max_issues g = None → 1 ≤ pg_page_size g → 0 ≤ pg_current g →
  ((length all ≤ Z.to_nat (pg_current g))%nat
   ∧ ∃ g' w', pages_fetch (serves all) self g w = (Return None, g', w'))
  ∨ ((Z.to_nat (pg_current g) < length all)%nat
     ∧ ∃ issues g' w',
         pages_fetch (serves all) self g w
         = (Return (Some (Page issues (pg_current g) (Some (len all)))), g', w')
         ∧ pg_max_issues g' = None ∧ pg_page_size g' = pg_page_size g
         ∧ asks_at g' (pg_current g + len issues)
         ∧ issues ++ drop (Z.to_nat (pg_current g + len issues)) all
           = drop (Z.to_nat (pg_current g)) all
         ∧ (Z.to_nat (pg_current g) < Z.to_nat (pg_current g + len issues))%nat).
Proof.
  intros Hcap Hsize Hcur. unfold pages_fetch. rewrite request_serves.
  cbn [served body_issues req_maxResults req_startAt get_total body_total].
  set (rest := drop (Z.to_nat (pg_current g)) all).
  assert (Hrest : length rest = (length all - Z.to_nat (pg_current g))%nat).
  { subst rest. by rewrite length_drop. }
  destruct (take (Z.to_nat (pg_page_size g)) rest) as [|i issues] eqn:Htake.
  - left. split; [|by eexists _, _].
    assert (Hlen : length (take (Z.to_nat (pg_page_size g)) rest) = 0%nat) by by rewrite Htake.
    rewrite length_take in Hlen. lia.
  - right.
    assert (Hlen : length (take (Z.to_nat (pg_page_size g)) rest) = S (length issues))
      by by rewrite Htake.
    rewrite length_take in Hlen.
    split; [lia|]. eexists _, _, _. split; [reflexivity|].
    split; [done|]. split; [done|]. split; [|split].
    + right. exists (i :: issues). done.
    + rewrite <- Htake. unfold len. rewrite Htake.
      replace (Z.to_nat (pg_current g + Z.of_nat (length (i :: issues))))
        with (Z.to_nat (pg_current g) + length (i :: issues))%nat by lia.
      rewrite <- drop_drop. fold rest. rewrite <- Htake.
      destruct (decide (Z.to_nat (pg_page_size g) ≤ length rest)%nat) as [Hle|Hgt].
      * rewrite length_take, Nat.min_l by done. apply take_drop.
      * rewrite take_ge by lia. rewrite drop_all. by rewrite app_nil_r.
    + unfold len. cbn [length]. lia.
Qed.

(** Without a cap, or with the cap at 0, the page generator walks the
    served collection from where it stands to its end. *)
Lemma pages_list_serves fuel : ∀ g w c,
  pg_max_issues g = None → 1 ≤ pg_page_size g → 0 ≤ c → asks_at g c →
  (length (drop (Z.to_nat c) all) + 2 ≤ fuel)%nat →
  ∃ ps w', pages_list (serves all) self fuel g w = (ps, Return tt, w')
           ∧ mjoin (page_issues <$> ps) = drop (Z.to_nat c) all.
Proof.
  induction fuel as [|fuel IH]; intros g w c Hcap Hsize Hc Hat Hfuel; [lia|].
  assert (Hfetch : ∀ g0, pg_max_issues g0 = None → pg_page_size g0 = pg_page_size g →
                         pg_current g0 = c →
    ∃ ps w', match pages_fetch (serves all) self g0 w with
             | (Return (Some p), g, w) =>
                 let '(ps, r, w) := pages_list (serves all) self fuel g w in (p :: ps, r, w)
             | (Return None, _, w) => ([], Return tt, w)
             | (Raise e, _, w) => ([], Raise e, w)
             | (RaiseBuiltin e, _, w) => ([], RaiseBuiltin e, w)
             | (OutOfFuel, _, w) => ([], OutOfFuel, w)
             end = (ps, Return tt, w')
             ∧ mjoin (page_issues <$> ps) = drop (Z.to_nat c) all).
  { intros g0 Hcap0 Hsize0 Hcur0.
    destruct (pages_fetch_serves g0 w) as
      [(Hend & g' & w' & ->)|(Hlt & issues & g' & w' & -> & Hcap' & Hsize' & Hat' & Happ & Hadv)];
      [done|lia|lia|..].
    - exists [], w'. split; [done|]. rewrite Hcur0 in Hend. by rewrite drop_ge.
    - rewrite Hcur0 in *.
      destruct (IH g' w' (c + len issues)) as (ps & w2 & Hl & Hj);
        [done|lia|unfold len; lia|done|..].
      { rewrite !length_drop in *. lia. }
      rewrite Hl. exists (Page issues c (Some (len all)) :: ps), w2. split; [done|].
      rewrite fmap_cons.
      change (issues ++ mjoin (page_issues <$> ps) = drop (Z.to_nat c) all).
      by rewrite Hj. }
  cbn [pages_list]. unfold pages_next.
  destruct Hat as [[Hpc Hcur]|(issues & Hpc & Hcur & Htot)]; rewrite Hpc.
  - by apply Hfetch.
  - rewrite Hcap. cbn [cap_reached]. rewrite Htot. cbn [past_total]. rewrite <- Hcur.
    destruct (len all <=? c) eqn:Hpast.
    + exists [], w. split; [done|]. rewrite drop_ge; [done|]. unfold len in Hpast. lia.
    + by apply Hfetch.
Qed.

End Serves.

(** C10.  With [max_issues=0] both generators yield exactly what they yield
    with [max_issues=None], in every world and however far they are run: the
    cap test [max_issues and fetched >= max_issues] is false for 0.  So the
    generator does not stop at zero records: from a server that holds the
    collection [all] and serves it in pages of [page_size >= 1], both
    generators, run with the cap at 0, yield the whole of [all], in order,
    and then stop. *)
Theorem max_issues_zero_is_no_cap (E : env) (self : JiraScraper) (project_key : string)
    (page_size start_at : Z) (fuel : nat) (w : world) :
  (pages_list E self fuel (fetch_issue_pages_for_project project_key page_size (Some 0) start_at) w
   = pages_list E self fuel (fetch_issue_pages_for_project project_key page_size None start_at) w
   ∧ issues_list E self fuel (fetch_issues_for_project project_key page_size (Some 0)) w
     = issues_list E self fuel (fetch_issues_for_project project_key page_size None) w)
  ∧ ∀ all : list issue, 1 ≤ page_size →
      (∃ ps w', pages_list (serves all) self (length all + 2)
                  (fetch_issue_pages_for_project project_key page_size (Some 0) 0) w
                = (ps, Return tt, w')
                ∧ mjoin (page_issues <$> ps) = all)
      ∧ (∃ n w', issues_list (serves all) self n
                   (fetch_issues_for_project project_key page_size (Some 0)) w
                 = (all, Return tt, w')).
Proof.
  split.
  { split.
    - by rewrite pages_list_cap_zero.
    - by rewrite issues_list_cap_zero. }
  intros all Hsize.
  destruct (pages_list_serves all self (length all + 2)
              (fetch_issue_pages_for_project project_key page_size None 0) w 0)
    as (ps & w' & Hl & Hj);
    [reflexivity|exact Hsize|lia|by left|cbn [Z.to_nat]; rewrite drop_0; lia|].
  cbn [Z.to_nat] in Hj. rewrite drop_0 in Hj. split.
  - exists ps, w'. split; [|done]. by rewrite pages_list_cap_zero.
  - destruct (issues_list_flatten (serves all) self (length all + 2)
                (fetch_issue_pages_for_project project_key page_size None 0) w 0
                ps (Return tt) w') as (n & Hn); [done|done|done|].
    exists n, w'. rewrite issues_list_cap_zero by done. rewrite Hj in Hn. exact Hn.
Qed.

(** Three issues served two per page: with the cap at 0 they all come out,
    in two pages; with the cap at 1 the generators stop after the first
    page, respectively the first issue. *)
Lemma max_issues_zero_is_no_cap_witness :
  (∃ ps w', pages_list (serves three_issues) (Scraper 30 5 2) 5
              (fetch_issue_pages_for_project "T" 2 (Some 0) 0) world0
            = (ps, Return tt, w')
            ∧ mjoin (page_issues <$> ps) = three_issues)
  ∧ (∃ n w', issues_list (serves three_issues) (Scraper 30 5 2) n
               (fetch_issues_for_project "T" 2 (Some 0)) world0
             = (three_issues, Return tt, w'))
  ∧ (pages_list (serves three_issues) (Scraper 30 5 2) 5
       (fetch_issue_pages_for_project "T" 2 (Some 0) 0) world0).1.1
    = [Page (take 2 three_issues) 0 (Some 3); Page (drop 2 three_issues) 2 (Some 3)]
  ∧ (pages_list (serves three_issues) (Scraper 30 5 2) 5
       (fetch_issue_pages_for_project "T" 2 (Some 1) 0) world0).1.1
    = [Page (take 2 three_issues) 0 (Some 3)]
  ∧ (issues_list (serves three_issues) (Scraper 30 5 2) 5
       (fetch_issues_for_project "T" 2 (Some 1)) world0).1.1
    = take 1 three_issues.
Proof.
  destruct (max_issues_zero_is_no_cap (serves three_issues) (Scraper 30 5 2) "T" 2 0 5 world0)
    as [_ Hall].
  destruct (Hall three_issues) as [Hpages Hissues]; [lia|].
  split; [exact Hpages|]. split; [exact Hissues|].
  split; [by vm_compute|]. split; by vm_compute.
Defined.

End CapProps.

(** ** The module lock, further *)
Module LockingExtra.
Import Checkpoint Locking LockingProps.

(** The lock is held by a thread that exists. *)
Definition lock_owned (s : sys) : Prop :=
  ∀ h, sys_lock s = Some h → is_Some (sys_threads s !! h).

Lemma init_lock_owned f ops : lock_owned (init f ops).
Proof. by intros h. Qed.

Lemma insert_keeps_threads (ts : list thread) i t h :
  is_Some (ts !! h) → is_Some (<[i := t]> ts !! h).
Proof.
  intros Hh. apply lookup_lt_is_Some. rewrite length_insert.
  by apply lookup_lt_is_Some.
Qed.

Lemma tstep_lock_owned i s s' : lock_owned s → tstep i s = Some s' → lock_owned s'.
Proof.
  intros Hinv. unfold tstep.
  destruct (sys_threads s !! i) as [[o|data|data| |]|] eqn:Hi; try done.
  - intros [= <-] h Hh. cbn in *. by apply insert_keeps_threads, Hinv.
  - destruct (sys_lock s) as [h0|] eqn:Hlock; [done|].
    intros [= <-] h [= <-]. cbn. apply insert_keeps_threads. by rewrite Hi.
  - intros [= <-] h Hh. cbn in *. by apply insert_keeps_threads, Hinv.
  - intros [= <-] h Hh. done.
Qed.

Lemma exec_lock_owned sched : ∀ s s',
  lock_owned s → exec sched s = Some s' → lock_owned s'.
Proof.
  induction sched as [|i sched IH]; intros s s' Hinv; cbn.
  - by intros [= <-].
  - destruct (tstep i s) as [s1|] eqn:Hstep; [|done].
    apply IH. by eapply tstep_lock_owned.
Qed.

(** X18.  The lock cannot deadlock the calls: in every state that calls of
    [mark_downloaded] and [set_last_start] can reach, as long as one of
    them has not returned some thread can take a step. *)
Theorem mutating_calls_never_deadlock (f : file) (ops : list op) (sched : list nat)
    (s : sys) (i : nat) (t : thread) :
  exec sched (init f ops) = Some s →
  sys_threads s !! i = Some t → t ≠ Returned →
  ∃ j s', tstep j s = Some s'.
Proof.
  intros Hexec Hi Ht.
  assert (Hex : write_exclusive s).
  { eapply exec_exclusive; [apply init_exclusive|exact Hexec]. }
  assert (Hown : lock_owned s).
  { eapply exec_lock_owned; [apply init_lock_owned|exact Hexec]. }
  destruct (sys_lock s) as [h|] eqn:Hlock.
  - (* the holder is inside [with _LOCK] and can go on *)
    destruct (Hown h Hlock) as [th Hh].
    destruct (Hex h th Hh) as [_ Hcrit]. specialize (Hcrit Hlock).
    exists h. unfold tstep. rewrite Hh.
    destruct th; try done; by eexists.
  - (* the lock is free: the thread that has not returned can go on *)
    exists i. unfold tstep. rewrite Hi, Hlock.
    destruct t; try done; by eexists.
Qed.

Lemma mutating_calls_never_deadlock_witness :
  ∃ s, exec [0; 1; 0]%nat two_marks = Some s ∧ ∃ j s', tstep j s = Some s'.
Proof.
  eexists. split; [reflexivity|].
  eapply (mutating_calls_never_deadlock Missing
            [MarkDownloaded "P" "A"; MarkDownloaded "P" "B"] [0; 1; 0]%nat _ 1%nat).
  - reflexivity.
  - reflexivity.
  - done.
Defined.

(** What a call does to the file when nothing comes in between. *)
Definition perform (o : op) (f : file) : file :=
  match o with
  | MarkDownloaded project issue_key => mark_downloaded project issue_key f
  | SetLastStart project start_at => set_last_start project start_at f
  end.

(** One call after the other: thread 0 from start to end, then thread 1,
    and so on. *)
Definition serial (first n : nat) : list nat :=
  flat_map (λ i, [i; i; i; i]) (seq first n).

Lemma exec_serial ops : ∀ f before,
  exec (serial (length before) (length ops))
       (Sys f None (before ++ (Called <$> ops)))
  = Some (Sys (foldl (λ f o, perform o f) f ops) None
              (before ++ replicate (length ops) Returned)).
Proof.
  induction ops as [|o ops IH]; intros f before; [done|].
  cbn [length seq serial flat_map app fmap list_fmap].
  change (flat_map _ (seq (S (length before)) (length ops)))
    with (serial (S (length before)) (length ops)).
  assert (Hat : ∀ (t : thread) (rest : list thread),
            (before ++ t :: rest) !! length before = Some t).
  { intros t rest. by rewrite lookup_app_r, Nat.sub_diag. }
  assert (Hset : ∀ (t t' : thread) (rest : list thread),
            <[length before := t']> (before ++ t :: rest) = before ++ t' :: rest).
  { intros t t' rest. rewrite insert_app_r_alt by done. by rewrite Nat.sub_diag. }
  cbn [exec]. unfold tstep at 1. cbn. rewrite Hat, Hset.
  unfold tstep at 1. cbn. rewrite Hat, Hset.
  unfold tstep at 1. cbn. rewrite Hat, Hset.
  unfold tstep at 1. cbn. rewrite Hat, Hset.
  specialize (IH (perform o f) (before ++ [Returned])).
  rewrite length_app in IH. cbn in IH. rewrite Nat.add_1_r in IH.
  rewrite <- !app_assoc in IH. cbn in IH.
  assert (Hf : save_checkpoint (mutate o (load_checkpoint f)) f = perform o f)
    by (by destruct o).
  rewrite Hf. exact IH.
Qed.

(** X19.  Calls that do not overlap lose nothing: when the calls run one
    after the other, each from its read to the release of the lock, every
    thread returns, the lock ends free, and the file holds what the calls
    applied in that order give. *)
Theorem serial_calls_compose (f : file) (ops : list op) :
  exec (serial 0 (length ops)) (init f ops)
  = Some (Sys (foldl (λ f o, perform o f) f ops) None (replicate (length ops) Returned)).
Proof. apply (exec_serial ops f []). Qed.

End LockingExtra.

(** ** The document transformer, further *)
Module TransformExtra.
Import Transform TransformProps.
Local Open Scope N_scope.

(** White space in a text is single spaces only: every white space
    character is U+0020 and is followed by a character that is not white
    space (or by nothing). *)
Fixpoint single_spaced (s : str) : Prop :=
  match s with
  | [] => True
  | c :: s' =>
      (isspace c = true → c = SPACE ∧ ∀ d, head s' = Some d → isspace d = false)
      ∧ single_spaced s'
  end.

(** Neither starts nor ends with white space. *)
Definition trimmed (s : str) : Prop :=
  (∀ c, head s = Some c → isspace c = false) ∧ (∀ c, last s = Some c → isspace c = false).

Lemma islinebreak_isspace c : islinebreak c = true → isspace c = true ∧ c ≠ SPACE.
Proof.
  unfold islinebreak, isspace, SPACE.
  rewrite !orb_true_iff, !andb_true_iff, !N.leb_le, !N.eqb_eq. lia.
Qed.

Lemma sub_spaces_single_spaced s : ∀ in_run,
  single_spaced (sub_spaces in_run s)
  ∧ (in_run = true → ∀ d, head (sub_spaces in_run s) = Some d → isspace d = false).
Proof.
  induction s as [|c s IH]; intros in_run; [done|]. cbn [sub_spaces].
  destruct (isspace c) eqn:Hc.
  - destruct in_run.
    + apply IH.
    + destruct (IH true) as [Hs Hh]. split; [|done]. cbn. split; [|done].
      intros _. split; [done|]. by apply Hh.
  - destruct (IH false) as [Hs _]. split.
    + cbn. split; [|done]. intros Hc'. congruence.
    + intros _ d [= <-]. done.
Qed.

Lemma single_spaced_app a b : single_spaced (a ++ b) → single_spaced a ∧ single_spaced b.
Proof.
  induction a as [|c a IH]; [done|]. cbn. intros [Hc Hab].
  destruct (IH Hab) as [Ha Hb]. split; [|done]. split; [|done].
  intros Hsp. destruct (Hc Hsp) as [-> Hd]. split; [done|].
  intros d Hh. apply Hd. by destruct a.
Qed.

Lemma single_spaced_strip s : single_spaced s → single_spaced (strip s).
Proof.
  intros Hs. unfold strip.
  destruct (lstrip_suffix s) as (k1 & Hk1 & _).
  destruct (rstrip_prefix (lstrip s)) as (k2 & Hk2 & _).
  rewrite Hk1 in Hs. apply single_spaced_app in Hs as [_ Hs].
  rewrite Hk2 in Hs. by apply single_spaced_app in Hs as [Hs _].
Qed.

(** X20.  On the structured-tree path the text that comes out, whatever
    the tree, holds no white space but single spaces: no newline, no tab,
    no two spaces in a row, and neither a leading nor a trailing space. *)
Theorem tree_text_is_single_spaced (node : json) (t : str) :
  _adf_to_text node = Some t → single_spaced t ∧ trimmed t.
Proof.
  unfold _adf_to_text. destruct (_walk node) as [parts|]; [|done].
  intros [= <-]. split.
  - apply single_spaced_strip, sub_spaces_single_spaced.
  - split; intros c; apply strip_trimmed.
Qed.

Lemma tree_text_is_single_spaced_witness :
  single_spaced (py "Hi there") ∧ trimmed (py "Hi there").
Proof.
  apply (tree_text_is_single_spaced (JDict hi_there)). by vm_compute.
Defined.

Lemma single_spaced_no_linebreak s :
  single_spaced s → Forall (λ c, islinebreak c = false) s.
Proof.
  induction s as [|c s IH]; [done|]. cbn. intros [Hc Hs].
  constructor; [|by apply IH].
  destruct (islinebreak c) eqn:Hlb; [|done].
  apply islinebreak_isspace in Hlb as [Hsp Hne]. by destruct (Hc Hsp).
Qed.

Lemma splitlines_from_one_line s : ∀ line,
  Forall (λ c, islinebreak c = false) s →
  splitlines_from line s = match line ++ s with [] => [] | l => [l] end.
Proof.
  induction s as [|c s IH]; intros line Hs.
  - cbn. rewrite app_nil_r. by destruct line.
  - apply Forall_cons in Hs as [Hc Hs]. cbn [splitlines_from]. rewrite Hc.
    rewrite IH by done. by rewrite <- app_assoc.
Qed.

Lemma lstrip_id s : (∀ c, head s = Some c → isspace c = false) → lstrip s = s.
Proof. destruct s as [|c s]; [done|]. cbn. intros Hc. by rewrite (Hc c eq_refl). Qed.

Lemma strip_id s : trimmed s → strip s = s.
Proof.
  intros [Hh Hl]. unfold strip. rewrite (lstrip_id s Hh). unfold rstrip.
  rewrite lstrip_id; [apply reverse_involutive|].
  intros c. rewrite head_reverse. apply Hl.
Qed.

(** A text in single spaces is its own only paragraph. *)
Lemma paragraphs_of_single_spaced t :
  t ≠ [] → single_spaced t → trimmed t → paragraphs_of t = [t].
Proof.
  intros Hne Hs Ht. unfold paragraphs_of, splitlines.
  rewrite splitlines_from_one_line by (by apply single_spaced_no_linebreak).
  cbn [app]. destruct t as [|c t]; [done|].
  cbn [fmap list_fmap]. rewrite (strip_id _ Ht).
  by rewrite filter_cons_True.
Qed.

(** X21.  The short summary of a description that came through the
    structured-tree path is the whole description, whenever that has at
    most 200 characters: it is one line and already stripped. *)
Theorem tree_description_is_its_summary (node : json) (t : str) :
  _adf_to_text node = Some t →
  (length t ≤ 200)%nat →
  extract_short_summary t MAX_CHARS = t.
Proof.
  intros Ht Hlen. destruct (tree_text_is_single_spaced node t Ht) as [Hs Htr].
  unfold extract_short_summary. destruct t as [|c t]; [done|].
  rewrite paragraphs_of_single_spaced by done.
  unfold MAX_CHARS. by replace (Z.of_nat (length (c :: t)) <=? 200)%Z with true by lia.
Qed.

Lemma tree_description_is_its_summary_witness :
  extract_short_summary (py "Hi there") MAX_CHARS = py "Hi there".
Proof.
  apply (tree_description_is_its_summary (JDict hi_there)); [by vm_compute|].
  vm_compute. lia.
Defined.

Lemma sub_spaces_id s : ∀ in_run,
  single_spaced s →
  (in_run = true → ∀ d, head s = Some d → isspace d = false) →
  sub_spaces in_run s = s.
Proof.
  induction s as [|c s IH]; intros in_run Hs Hrun; [done|].
  cbn in Hs. destruct Hs as [Hc Hs]. cbn [sub_spaces].
  destruct (isspace c) eqn:Hsp.
  - destruct (Hc eq_refl) as [-> Hd]. destruct in_run.
    + specialize (Hrun eq_refl SPACE eq_refl). congruence.
    + f_equal. by apply IH.
  - f_equal. by apply IH.
Qed.

(** X22.  The normalization of the tree path is idempotent: the text it
    gives, handed back as a string node, comes out unchanged. *)
Theorem tree_text_is_a_fixed_point (node : json) (t : str) :
  _adf_to_text node = Some t → _adf_to_text (JStr t) = Some t.
Proof.
  intros Ht. destruct (tree_text_is_single_spaced node t Ht) as [Hs Htr].
  unfold _adf_to_text. change (_walk (JStr t)) with (Some [t]). cbv beta iota.
  change (mjoin [t]) with (t ++ []). rewrite app_nil_r.
  rewrite sub_spaces_id by done. by rewrite strip_id.
Qed.

Lemma tree_text_is_a_fixed_point_witness :
  _adf_to_text (JStr (py "Hi there")) = Some (py "Hi there").
Proof.
  apply (tree_text_is_a_fixed_point (JDict hi_there)). by vm_compute.
Defined.

End TransformExtra.

(** ** The markup path *)
Module MarkupExtra.
Import Transform TransformProps TransformExtra.
Local Open Scope N_scope.

(** The number of newlines a text starts with. *)
Fixpoint leading_newlines (s : str) : nat :=
  match s with
  | c :: s' => if c =? NL then S (leading_newlines s') else 0
  | [] => 0
  end.

Lemma sub_newlines_leading s : ∀ run,
  (leading_newlines (sub_newlines run s) + run `min` 2 ≤ 2)%nat.
Proof.
  induction s as [|c s IH]; intros run; [cbn; lia|]. cbn [sub_newlines].
  destruct (c =? NL) eqn:Hc.
  - destruct (run <? 2)%nat eqn:Hr.
    + apply Nat.ltb_lt in Hr. cbn [leading_newlines]. rewrite N.eqb_refl.
      specialize (IH (S run)). lia.
    + apply Nat.ltb_ge in Hr. specialize (IH (S run)). lia.
  - cbn [leading_newlines]. rewrite Hc. lia.
Qed.

Lemma sub_newlines_no_triple s : ∀ run l1 l2,
  sub_newlines run s ≠ l1 ++ [NL; NL; NL] ++ l2.
Proof.
  induction s as [|c s IH]; intros run l1 l2; [by destruct l1|]. cbn [sub_newlines].
  destruct (c =? NL) eqn:Hc.
  - destruct (run <? 2)%nat eqn:Hr; [|apply IH].
    destruct l1 as [|d l1]; cbn.
    + intros [= Heq]. pose proof (sub_newlines_leading s (S run)) as Hlead.
      rewrite Heq in Hlead. cbn in Hlead. lia.
    + intros [= _ Heq]. by apply (IH (S run) l1 l2).
  - destruct l1 as [|d l1]; cbn.
    + intros [= -> _]. by rewrite N.eqb_refl in Hc.
    + intros [= _ Heq]. by apply (IH 0%nat l1 l2).
Qed.

Lemma sub_newlines_again s : ∀ run,
  sub_newlines (run `min` 2) (sub_newlines run s) = sub_newlines run s.
Proof.
  induction s as [|c s IH]; intros run; [done|]. cbn [sub_newlines].
  destruct (c =? NL) eqn:Hc.
  - destruct (run <? 2)%nat eqn:Hr.
    + apply Nat.ltb_lt in Hr. cbn [sub_newlines]. rewrite N.eqb_refl.
      replace (run `min` 2)%nat with run by lia.
      replace (run <? 2)%nat with true by (symmetry; by apply Nat.ltb_lt).
      f_equal. specialize (IH (S run)). by replace (S run `min` 2)%nat with (S run) in IH by lia.
    + apply Nat.ltb_ge in Hr. specialize (IH (S run)).
      replace (S run `min` 2)%nat with 2%nat in IH by lia.
      by replace (run `min` 2)%nat with 2%nat by lia.
  - cbn [sub_newlines]. rewrite Hc. f_equal. apply (IH 0%nat).
Qed.

(** X23.  On the markup path, whatever text the HTML library hands back,
    the result never has three newlines in a row (so never more than one
    blank line between two lines), and collapsing its newlines once more
    changes nothing. *)
Theorem markup_text_has_single_blank_lines (get_text : str → str → str) (html : str) :
  (∀ l1 l2, markup_to_text get_text html ≠ l1 ++ [NL; NL; NL] ++ l2)
  ∧ sub_newlines 0 (markup_to_text get_text html) = markup_to_text get_text html.
Proof.
  unfold markup_to_text. split.
  - intros l1 l2. apply sub_newlines_no_triple.
  - apply (sub_newlines_again _ 0%nat).
Qed.

End MarkupExtra.

(** ** The summary and the question-and-answer pair *)
Module SummaryExtra.
Import Transform TransformProps TransformExtra.
Local Open Scope N_scope.

Lemma rsplit_space_head_prefix s : rsplit_space_head s `prefix_of` s.
Proof.
  unfold rsplit_space_head. destruct (before_last_space s) as [p|] eqn:Hp; [|done].
  cbn. apply before_last_space_Some in Hp as (word & -> & _). by apply prefix_app_r.
Qed.

(** At a line boundary, reading goes on after it, or after the LF that
    follows a CR. *)
Lemma splitlines_from_break line c s :
  islinebreak c = true →
  splitlines_from line (c :: s) = line :: splitlines_from [] s
  ∨ ∃ s', s = 10 :: s' ∧ splitlines_from line (c :: s) = line :: splitlines_from [] s'.
Proof.
  intros Hc. cbn [splitlines_from]. rewrite Hc.
  repeat case_match; subst; eauto.
Qed.

Lemma splitlines_from_no_linebreak n : ∀ s line,
  (length s < n)%nat →
  Forall (λ c, islinebreak c = false) line →
  Forall (Forall (λ c, islinebreak c = false)) (splitlines_from line s).
Proof.
  induction n as [|n IH]; intros s line Hn Hline; [lia|].
  destruct s as [|c s].
  - cbn. destruct line; [done|]. by constructor.
  - cbn [length] in Hn. destruct (islinebreak c) eqn:Hc.
    + destruct (splitlines_from_break line c s Hc) as [->|(s' & -> & ->)].
      * constructor; [done|]. apply IH; [lia|done].
      * constructor; [done|]. apply IH; [cbn [length] in Hn; lia|done].
    + cbn [splitlines_from]. rewrite Hc. apply IH; [lia|].
      apply Forall_app. split; [done|]. by repeat constructor.
Qed.

Lemma Forall_strip (P : N → Prop) s : Forall P s → Forall P (strip s).
Proof.
  intros Hs. unfold strip.
  destruct (lstrip_suffix s) as (k1 & Hk1 & _).
  destruct (rstrip_prefix (lstrip s)) as (k2 & Hk2 & _).
  rewrite Hk1 in Hs. apply Forall_app in Hs as [_ Hs].
  rewrite Hk2 in Hs. by apply Forall_app in Hs as [Hs _].
Qed.

(** The paragraphs are single lines. *)
Lemma paragraphs_of_no_linebreak text :
  Forall (Forall (λ c, islinebreak c = false)) (paragraphs_of text).
Proof.
  unfold paragraphs_of, splitlines.
  pose proof (splitlines_from_no_linebreak (S (length text)) text []) as Hl.
  specialize (Hl ltac:(lia) ltac:(constructor)).
  apply Forall_forall. intros p [Hne Hp]%list_elem_of_filter.
  apply list_elem_of_fmap in Hp as (l & -> & Hin).
  apply Forall_strip. by eapply Forall_forall in Hl.
Qed.

(** X24.  The short summary is short and, when the text has a non-blank
    line, is one line: [extract_short_summary] with the default limit never
    returns more than 203 characters (200 and the ellipsis), and what it
    returns holds no line boundary unless the text is made of blank lines
    only. *)
Theorem short_summary_is_short (text : str) :
  (length (extract_short_summary text MAX_CHARS) ≤ 203)%nat
  ∧ (paragraphs_of text ≠ [] →
     Forall (λ c, islinebreak c = false) (extract_short_summary text MAX_CHARS)).
Proof.
  unfold extract_short_summary, MAX_CHARS.
  change (slice_to 200) with (take (A := N) 200).
  pose proof (paragraphs_of_no_linebreak text) as Hlines.
  destruct text as [|c text]; [split; [cbn; lia|done]|].
  destruct (paragraphs_of (c :: text)) as [|first rest].
  - split; [rewrite length_take; lia|done].
  - apply Forall_cons in Hlines as [Hfirst _].
    destruct (Z.of_nat (length first) <=? 200)%Z eqn:Hlen.
    + split; [lia|done].
    + pose proof (rsplit_space_head_prefix (take 200 first)) as Hpre.
      split.
      * rewrite length_app. apply prefix_length in Hpre. rewrite length_take in Hpre.
        cbn. lia.
      * intros _. apply Forall_app. split; [|by vm_compute; repeat constructor].
        destruct Hpre as [k Hk].
        assert (Htake : Forall (λ c, islinebreak c = false) (take 200 first))
          by (by apply Forall_take).
        rewrite Hk in Htake. by apply Forall_app in Htake as [Htake _].
Qed.

Lemma short_summary_is_short_witness :
  (length (extract_short_summary long_line MAX_CHARS) ≤ 203)%nat
  ∧ Forall (λ c, islinebreak c = false) (extract_short_summary long_line MAX_CHARS).
Proof.
  destruct (short_summary_is_short long_line) as [Hlen Hline].
  split; [exact Hlen|]. apply Hline. by vm_compute.
Defined.

(** [derive_qna]: no pair unless both the title and the description are
    non-empty; the question is the stripped title, the answer the first
    paragraph of the description, [""] when it has none. *)
Definition derive_qna (title description : str) : list (str * str) :=
  match title, description with
  | [], _ | _, [] => []
  | _, _ =>
      let paragraphs := paragraphs_of description in
      let answer := default [] (head paragraphs) in
      [(strip title, answer)]
  end.

(** X25.  [derive_qna] gives no pair when the title or the description is
    empty, and exactly one otherwise.  Its question is the title stripped
    of surrounding white space; its answer, unless empty, is the first
    stripped non-blank line of the description, which is also the short
    summary of the description whenever it has at most 200 characters. *)
Theorem qna_pairs_title_and_first_paragraph (title description : str) :
  (title = [] ∨ description = [] → derive_qna title description = [])
  ∧ (title ≠ [] → description ≠ [] →
     ∃ answer, derive_qna title description = [(strip title, answer)]
       ∧ (answer = [] ↔ first_nonblank_line description = None)
       ∧ (answer ≠ [] →
          (strip <$> first_nonblank_line description = Some answer)
          ∧ ((length answer ≤ 200)%nat →
             extract_short_summary description MAX_CHARS = answer))).
Proof.
  split.
  - intros [->| ->]; [done|by destruct title].
  - intros Ht Hd. destruct title as [|tc title]; [done|].
    destruct description as [|dc description]; [done|].
    exists (default [] (head (paragraphs_of (dc :: description)))). split; [done|].
    pose proof (paragraphs_first_line (splitlines (dc :: description))) as Hhead.
    fold (paragraphs_of (dc :: description)) in Hhead.
    fold (first_nonblank_line (dc :: description)) in Hhead.
    unfold extract_short_summary.
    destruct (paragraphs_of (dc :: description)) as [|first rest] eqn:Hp.
    + cbn in Hhead |- *. split; [|done].
      split; [|done]. intros _. by destruct (first_nonblank_line _).
    + cbn in Hhead |- *.
      assert (Hfirst : first ≠ []).
      { assert (Hin : first ∈ paragraphs_of (dc :: description)) by (rewrite Hp; by left).
        unfold paragraphs_of in Hin. by apply list_elem_of_filter in Hin as [? _]. }
      split.
      * split; [done|]. intros Hnone. by rewrite Hnone in Hhead.
      * intros _. split; [done|]. intros Hlen. unfold MAX_CHARS.
        by replace (Z.of_nat (length first) <=? 200)%Z with true by lia.
Qed.

Lemma qna_pairs_title_and_first_paragraph_witness :
  derive_qna [] (py "text") = []
  ∧ derive_qna (py " Build fails ") (py " hello " ++ [NL] ++ py "world")
    = [(py "Build fails", py "hello")]
  ∧ extract_short_summary (py " hello " ++ [NL] ++ py "world") MAX_CHARS = py "hello".
Proof.
  split; [|split].
  - apply (qna_pairs_title_and_first_paragraph [] (py "text")). by left.
  - by vm_compute.
  - destruct (qna_pairs_title_and_first_paragraph (py " Build fails ")
                (py " hello " ++ [NL] ++ py "world")) as [_ Hpair].
    destruct Hpair as (answer & Hq & _ & Hsum); [done|done|].
    assert (Ha : answer = py "hello") by (vm_compute; vm_compute in Hq; congruence).
    subst answer. apply Hsum; [done|]. vm_compute. lia.
Defined.

End SummaryExtra.

(** ** The keyword labels *)
Module LabelsExtra.
Import Transform.
Local Open Scope N_scope.

(** The table [KEYWORD_LABELS], in the order of the source. *)
Definition KEYWORD_LABELS : list (str * list str) :=
  [(py "performance", [py "memory"; py "OOM"; py "latency"; py "throughput"]);
   (py "security", [py "vulnerability"; py "xss"; py "csrf"; py "exploit"; py "security"]);
   (py "build", [py "build"; py "maven"; py "gradle"; py "compile"; py "dependency"])].

(** [s.startswith(p)] *)
Fixpoint startswith (p s : str) : bool :=
  match p, s with
  | [], _ => true
  | _ :: _, [] => false
  | a :: p', b :: s' => (a =? b) && startswith p' s'
  end.

(** [needle in s], on strings. *)
Fixpoint contains (s needle : str) : bool :=
  startswith needle s
  || match s with
     | [] => false
     | _ :: s' => contains s' needle
     end.

Section Labels.
(** [str.lower], a method of the standard library. *)
Variable lower : str → str.

Definition matches (text_low : str) (entry : str * list str) : bool :=
  existsb (λ kw, contains text_low (lower kw)) entry.2.

Definition infer_keyword_labels (text : str) : list str :=
  match text with
  | [] => []
  | _ => let text_low := lower text in
         fst <$> List.filter (matches text_low) KEYWORD_LABELS
  end.

Lemma startswith_spec p : ∀ s, startswith p s = true ↔ ∃ b, s = p ++ b.
Proof.
  induction p as [|a p IH]; intros s; cbn.
  - split; [by exists s|done].
  - destruct s as [|c s]; [split; [done|by intros [b ?]]|].
    rewrite andb_true_iff, N.eqb_eq, IH. split.
    + intros [-> [b ->]]. by exists b.
    + intros [b [= -> ->]]. split; [done|by exists b].
Qed.

(** [in] is the substring test. *)
Lemma contains_spec s : ∀ needle, contains s needle = true ↔ ∃ a b, s = a ++ needle ++ b.
Proof.
  induction s as [|c s IH]; intros needle; cbn; rewrite orb_true_iff.
  - rewrite startswith_spec. split.
    + intros [[b Hb]|?]; [|done]. by exists [], b.
    + intros (a & b & Hab). left. destruct a; [by exists b|done].
  - rewrite startswith_spec, IH. split.
    + intros [[b Hb]|(a & b & ->)]; [by exists [], b|by exists (c :: a), b].
    + intros (a & b & Hab). destruct a as [|d a]; [left; by exists b|].
      right. injection Hab as -> ->. by exists a, b.
Qed.

(** X26.  [infer_keyword_labels] gives no label for the empty text.  For
    any other text it gives the labels of the table, in the order of the
    table and each at most once, that have a keyword whose lower-cased form
    occurs in the lower-cased text as a substring. *)
Theorem labels_follow_the_table (text : str) :
  (text = [] → infer_keyword_labels text = [])
  ∧ infer_keyword_labels text `sublist_of` [py "performance"; py "security"; py "build"]
  ∧ (text ≠ [] → ∀ label,
       label ∈ infer_keyword_labels text
       ↔ ∃ keywords kw a b,
           (label, keywords) ∈ KEYWORD_LABELS ∧ kw ∈ keywords
           ∧ lower text = a ++ lower kw ++ b).
Proof.
  split; [by intros ->|]. split.
  - unfold infer_keyword_labels. destruct text as [|c text]; [apply sublist_nil_l|].
    cbn [KEYWORD_LABELS List.filter].
    repeat (destruct (matches _ _));
      cbn; repeat (first [apply sublist_skip | apply sublist_cons | apply sublist_nil_l ]).
  - intros Hne label. unfold infer_keyword_labels. destruct text as [|c text]; [done|].
    rewrite list_elem_of_fmap. split.
    + intros ([l keywords] & -> & Hin). rewrite list_elem_of_In in Hin.
      apply List.filter_In in Hin as [Hin Hm]. unfold matches in Hm.
      apply existsb_exists in Hm as (kw & Hkw & Hc).
      apply contains_spec in Hc as (a & b & Hab).
      exists keywords, kw, a, b. by rewrite !list_elem_of_In.
    + intros (keywords & kw & a & b & Hin & Hkw & Hab).
      exists (label, keywords). split; [done|].
      rewrite list_elem_of_In. apply List.filter_In. split; [by apply list_elem_of_In|].
      unfold matches. apply existsb_exists. exists kw.
      split; [by apply list_elem_of_In|]. apply contains_spec. by exists a, b.
Qed.

End Labels.

(** Lower-casing restricted to the letters A to Z, enough for ASCII text. *)
Definition ascii_lower (s : str) : str :=
  (λ c, if (65 <=? c) && (c <=? 90) then c + 32 else c) <$> s.

Lemma labels_follow_the_table_witness :
  infer_keyword_labels ascii_lower (py "Maven build hits OOM") = [py "performance"; py "build"]
  ∧ py "build" ∈ infer_keyword_labels ascii_lower (py "Maven build hits OOM")
  ∧ py "security" ∉ infer_keyword_labels ascii_lower (py "Maven build hits OOM").
Proof.
  split; [by vm_compute|].
  destruct (labels_follow_the_table ascii_lower (py "Maven build hits OOM")) as (_ & _ & Hiff).
  split.
  - apply Hiff; [done|].
    exists [py "build"; py "maven"; py "gradle"; py "compile"; py "dependency"],
      (py "maven"), [], (py " build hits oom").
    split; [|split; [|by vm_compute]].
    + do 2 right. by left.
    + right. by left.
  - replace (infer_keyword_labels ascii_lower (py "Maven build hits OOM"))
      with [py "performance"; py "build"] by (by vm_compute).
    intros Hin. vm_compute in Hin.
    repeat (apply elem_of_cons in Hin as [Hin|Hin]; [discriminate Hin|]).
    by apply elem_of_nil in Hin.
Defined.

End LabelsExtra.

(** ** The walk over a structured tree *)
Module WalkExtra.
Import Transform TransformProps.
Local Open Scope N_scope.

(** The two loops of [_walk], over a function for the elements. *)
Definition walk_all_with (walk : json → option (list str)) : list json → option (list str) :=
  fix walk_all (l : list json) : option (list str) :=
    match l with
    | [] => Some []
    | c :: l' =>
        match walk c with
        | Some a => match walk_all l' with
                    | Some b => Some (a ++ b)
                    | None => None
                    end
        | None => None
        end
    end.

Definition content_with (walk : json → option (list str))
  : list (str * json) → option (list str) :=
  fix find (m : list (str * json)) : option (list str) :=
    match m with
    | [] => Some []
    | (k, v) :: m' =>
        if bool_decide (k = py "content") then
          match v with
          | JList l => walk_all_with walk l
          | JStr s => Some ((λ c, [c]) <$> s)
          | JDict cm => Some (fst <$> cm)
          | JNull | JAtom _ => None
          end
        else find m'
    end.

Lemma _walk_list l : _walk (JList l) = walk_all_with _walk l.
Proof. reflexivity. Qed.

Lemma _walk_dict members :
  _walk (JDict members)
  = match lookup_member (py "text") members with
    | Some (JStr t) => Some [t]
    | _ => match content_with _walk members with
           | Some parts => Some (parts ++ (if is_block members then [[NL]] else []))
           | None => None
           end
    end.
Proof. reflexivity. Qed.

(** Induction on a JSON value, with the property at hand for the elements
    of a list and the values of an object. *)
Lemma json_nested_ind (P : json → Prop) :
  P JNull → (∀ s, P (JStr s)) →
  (∀ l, Forall P l → P (JList l)) →
  (∀ members, Forall (λ kv, P kv.2) members → P (JDict members)) →
  (∀ repr, P (JAtom repr)) →
  ∀ n, P n.
Proof.
  intros Hnull Hstr Hlist Hdict Hatom. fix IH 1. intros [ | s | l | members | repr].
  - exact Hnull.
  - apply Hstr.
  - apply Hlist. induction l as [|c l IHl]; constructor; [apply IH|exact IHl].
  - apply Hdict. induction members as [|[k v] m IHm]; constructor; [apply IH|exact IHm].
  - apply Hatom.
Qed.

(** Whether a member can be walked: a member named ["content"] must not
    be null, a number or a boolean. *)
Definition member_ok (ok : json → bool) (kv : str * json) : bool :=
  match kv.2 with
  | JNull | JAtom _ => negb (bool_decide (kv.1 = py "content"))
  | _ => ok kv.2
  end.

(** No member named ["content"], anywhere in the tree, is null, a number
    or a boolean. *)
Fixpoint contents_iterable (n : json) : bool :=
  match n with
  | JList l => forallb contents_iterable l
  | JDict members => forallb (member_ok contents_iterable) members
  | _ => true
  end.

Lemma walk_all_total l :
  Forall (λ n, contents_iterable n = true → is_Some (_walk n)) l →
  forallb contents_iterable l = true →
  is_Some (walk_all_with _walk l).
Proof.
  induction l as [|c l IH]; intros Hall Hok; [by eexists|].
  apply Forall_cons in Hall as [Hc Hall].
  cbn [forallb] in Hok. apply andb_true_iff in Hok as [Hokc Hokl].
  cbn [walk_all_with]. destruct (Hc Hokc) as [a ->].
  destruct (IH Hall Hokl) as [b Hb]. fold (walk_all_with _walk) in *. by rewrite Hb.
Qed.

Lemma content_total members :
  Forall (λ kv, contents_iterable kv.2 = true → is_Some (_walk kv.2)) members →
  forallb (member_ok contents_iterable) members = true →
  is_Some (content_with _walk members).
Proof.
  induction members as [|[k v] m IH]; intros Hall Hok; [by eexists|].
  apply Forall_cons in Hall as [Hv Hall].
  cbn [forallb] in Hok. apply andb_true_iff in Hok as [Hokv Hokm].
  cbn [content_with]. destruct (bool_decide (k = py "content")) eqn:Hk.
  - unfold member_ok in Hokv. cbn [fst snd] in Hokv, Hv.
    destruct v as [ | s | l | cm | r].
    + by rewrite Hk in Hokv.
    + by eexists.
    + specialize (Hv Hokv). rewrite _walk_list in Hv. exact Hv.
    + by eexists.
    + by rewrite Hk in Hokv.
  - fold (content_with _walk) in *. by apply IH.
Qed.

Lemma walk_total n : contents_iterable n = true → is_Some (_walk n).
Proof.
  induction n as [ | s | l Hl | members Hm | repr] using json_nested_ind; intros Hok.
  - by eexists.
  - by eexists.
  - rewrite _walk_list. by apply walk_all_total.
  - rewrite _walk_dict.
    destruct (content_total members Hm Hok) as [parts ->].
    destruct (lookup_member (py "text") members) as [[ | t | | | ]|]; by eexists.
  - by eexists.
Qed.

(** The first member named ["content"], as [_walk] finds it. *)
Lemma content_unwalkable walk members v :
  lookup_member (py "content") members = Some v →
  (v = JNull ∨ ∃ repr, v = JAtom repr) →
  content_with walk members = None.
Proof.
  unfold lookup_member. induction members as [|[k w] m IH]; [done|].
  cbn [List.find content_with fst]. destruct (bool_decide (k = py "content")).
  - cbn. intros [= ->]. by intros [->|[repr ->]].
  - fold (content_with walk). apply IH.
Qed.

(** X27.  [_adf_to_text] returns a text for every tree in which no
    ["content"] member is null, a number or a boolean.  And it raises
    (the loop over ['content'] meets a value that cannot be iterated) for
    a node that has such a ["content"] and no string ["text"]. *)
Theorem tree_walk_fails_only_on_bad_content :
  (∀ node, contents_iterable node = true → is_Some (_adf_to_text node))
  ∧ (∀ members v,
       lookup_member (py "content") members = Some v →
       (v = JNull ∨ ∃ repr, v = JAtom repr) →
       (∀ t, lookup_member (py "text") members ≠ Some (JStr t)) →
       _adf_to_text (JDict members) = None).
Proof.
  split.
  - intros node Hok. unfold _adf_to_text. destruct (walk_total node Hok) as [parts ->].
    by eexists.
  - intros members v Hc Hv Ht. unfold _adf_to_text. rewrite _walk_dict.
    rewrite (content_unwalkable _walk members v Hc Hv).
    destruct (lookup_member (py "text") members) as [[ | t | | | ]|]; try done.
    by destruct (Ht t).
Qed.

Lemma tree_walk_fails_only_on_bad_content_witness :
  is_Some (_adf_to_text (JDict hi_there))
  ∧ _adf_to_text (JDict [(py "type", JStr (py "paragraph")); (py "content", JNull)]) = None.
Proof.
  destruct tree_walk_fails_only_on_bad_content as [Hgood Hbad].
  split.
  - apply Hgood. by vm_compute.
  - apply (Hbad _ JNull); [by vm_compute|by left|].
    intros t. by vm_compute.
Defined.

End WalkExtra.

(** ** The raw directory and the first request of a run *)
Module ResumeExtra.
Import Jira Checkpoint Cli JiraProps JiraExtra CliProps.

(** X28.  [save_raw_issue] touches one file at most, the one named after
    the key of the issue: every other file of the directory is left as it
    was; an issue without a key changes nothing and asks for no write; and
    after a write that went through the file holds the issue. *)
Theorem save_raw_issue_touches_one_file (E : env) (i : issue) (raw : gmap string issue)
    (writes : nat) :
  let raw' := (save_raw_issue E i raw writes).1 in
  let writes' := (save_raw_issue E i raw writes).2 in
  (∀ k, k ≠ key_of i → raw' !! k = raw !! k)
  ∧ (truthy (issue_key i) = false → raw' = raw ∧ writes' = writes)
  ∧ (truthy (issue_key i) = true → write_ok E writes (key_of i) = true →
     raw' !! key_of i = Some i ∧ writes' = S writes).
Proof.
  cbv zeta. unfold save_raw_issue, key_of.
  destruct (issue_key i) as [[|c key]|]; cbn.
  - repeat split; done.
  - destruct (write_ok E writes (String c key)) eqn:Hok; cbn.
    + split; [|split; [done|]].
      * intros k Hk. by rewrite lookup_insert_ne.
      * intros _ _. by rewrite lookup_insert_eq.
    + split; [|split; [done|done]].
      intros k Hk. by rewrite lookup_delete_ne.
  - repeat split; done.
Qed.

Lemma save_raw_issue_touches_one_file_witness :
  (save_raw_issue test_env (test_issue 11) test_raw 0).1 !! "TEST-11" = Some (test_issue 11)
  ∧ (save_raw_issue test_env (test_issue 11) test_raw 0).1 !! "TEST-1" = test_raw !! "TEST-1"
  ∧ (save_raw_issue test_env (Issue (Some "") "{}") test_raw 0).1 = test_raw.
Proof.
  destruct (save_raw_issue_touches_one_file test_env (test_issue 11) test_raw 0)
    as (Hother & _ & Hsaved).
  destruct (save_raw_issue_touches_one_file test_env (Issue (Some "") "{}") test_raw 0)
    as (_ & Hkeyless & _).
  split; [|split].
  - apply Hsaved; reflexivity.
  - apply Hother. by vm_compute.
  - by apply Hkeyless.
Defined.

Section FirstRequest.
Context (E : Jira.env) (self : JiraScraper) (rq : request).

(** The log only grows, and an iteration starts with its GET. *)
Lemma loop_log fuel : ∀ a w,
  ∃ rest, log (_request_loop E self rq fuel a w).2 = log w ++ rest
          ∧ (fuel ≠ 0%nat → ∃ rest', rest = EvGet rq :: rest').
Proof.
  induction fuel as [|fuel IH]; intros a w.
  { exists []. cbn. by rewrite app_nil_r. }
  assert (Hretry : ∀ o d cr,
    ∃ rest, log (retry_or_raise E self rq fuel (a + 1) o (slept rq d cr w)).2 = log w ++ rest
            ∧ (S fuel ≠ 0%nat → ∃ rest', rest = EvGet rq :: rest')).
  { intros o d cr. unfold retry_or_raise. destruct (max_retries self <=? a + 1).
    - exists [EvGet rq; EvSleep d]. split; [done|]. intros _. by eexists.
    - destruct (IH (a + 1) (slept rq d cr w)) as (rest & -> & _).
      exists ([EvGet rq; EvSleep d] ++ rest). cbn. rewrite <- app_assoc.
      split; [done|]. intros _. by eexists. }
  assert (Hend : ∀ r : result search_body,
    ∃ rest, log (r, answered rq w).2 = log w ++ rest
            ∧ (S fuel ≠ 0%nat → ∃ rest', rest = EvGet rq :: rest')).
  { intros r. exists [EvGet rq]. split; [done|]. intros _. by eexists. }
  assert (Hthen : ∀ o d cr,
    ∃ rest, log (sleep_then E self rq fuel (a + 1) o d cr w).2 = log w ++ rest
            ∧ (S fuel ≠ 0%nat → ∃ rest', rest = EvGet rq :: rest')).
  { intros o d cr. unfold sleep_then. destruct (sleep_raises d); [|apply Hretry].
    exists [EvGet rq]. split; [done|]. intros _. by eexists. }
  destruct (client_get E (gets w) rq) as [e|resp] eqn:Ho.
  - rewrite (loop_fault E self rq fuel a w e Ho). apply Hthen.
  - destruct (decide (status_code resp = 200)) as [H200|H200].
    + destruct (json resp) as [data|] eqn:Hj.
      * rewrite (loop_success E self rq fuel a w data) by (by rewrite Ho). apply Hend.
      * rewrite (loop_bad_json E self rq fuel a w resp Ho H200 Hj). apply Hend.
    + destruct (decide (retryable (Got resp))) as [[H429|H5]|Hre].
      * destruct (retry_after_wait E resp (answered rq w)) as [[err|hint] w1] eqn:Hh.
        -- rewrite (loop_429_int E self rq fuel a w resp err w1 Ho H429 Hh). apply Hend.
        -- rewrite (loop_429 E self rq fuel a w resp hint w1 Ho H429 Hh). apply Hthen.
      * rewrite (loop_5xx E self rq fuel a w resp Ho H5). apply Hthen.
      * rewrite (loop_other_status E self rq fuel a w resp Ho H200 Hre). apply Hend.
Qed.

Lemma request_log w :
  ∃ rest, log (_request E self rq w).2 = log w ++ EvGet rq :: rest.
Proof.
  unfold _request. destruct (loop_log (request_fuel self) 0 w) as (rest & -> & Hhead).
  destruct Hhead as [rest' ->]; [unfold request_fuel; lia|]. by exists rest'.
Qed.

End FirstRequest.

(** X29.  A run resumes where the checkpoint says: the first thing the
    scraping loop of a project does is a GET of the search endpoint for
    that project, at the offset stored for it (0 when there is none) and
    for [page_size] results. *)
Theorem run_resumes_at_the_stored_offset (E : env) (C : config) (project : string)
    (f : file) (raw : gmap string issue) (w : world) :
  ∃ rest,
    log (st_world (step E C project (start C project f raw w)))
    = log w ++ EvGet (Request search_url project (get_last_start project f) (page_size C))
            :: rest.
Proof.
  unfold step, start. cbn [st_pc st_gen st_world].
  unfold pages_next, fetch_issue_pages_for_project. cbn [pg_pc].
  unfold pages_fetch. cbn [pg_project pg_current pg_page_size].
  destruct (request_log (jira E) (scraper C)
              (Request search_url project (get_last_start project f) (page_size C)) w)
    as [rest Hlog].
  exists rest.
  destruct (_request _ _ _ w) as [[data|e|e'|] w1]; cbn in Hlog |- *; [|done..].
  by destruct (body_issues data).
Qed.

End ResumeExtra.
